(** * Waylon draughts engine: a shallow embedding of [engine.cpp]

    The search kernel of the engine (move generation with forced maximum
    capture, move application, evaluation, transposition table, move
    ordering, PVS alpha-beta and the iterative-deepening driver) is
    translated function by function.

    - C [int]s are [Z]: the engine's scores, rows and counters stay far
      from the 32-bit range; the one explicit narrowing cast is written
      out ([to_int]).
    - Fixed arrays ([board[64]], [steps[12]], [moves[128]]) are lists
      read and written by index; the global tables are finite maps whose
      missing keys read as the zero the C globals start with.  The code
      indexes [killer_moves[MAX_PLY][2]] by [ply] unchecked: an access
      to a row outside the table is undefined and has no value here
      ([killer_at]), and neither has a search that makes one.
    - Reference parameters become results; the globals travel in a
      [SearchState] record.
    - [while(true)] loops and the recursions take a bound; the proofs
      show that the bounds used are never reached ([emitted_chains_fuel])
      and that a search entered within the killer table stays in it and
      returns ([alpha_beta_total], [get_best_move_total]).
    - The clock is a parameter telling, for each sample, whether the
      time limit has passed; the Zobrist constants, drawn from the C++
      library's generator, are parameters too.  Logging is left out. *)

From stdpp Require Import gmap list.
From Stdlib Require Import ZArith Lia.

Local Open Scope Z_scope.

(** ** Constants *)

Definition TT_SIZE : Z := Z.shiftl 1 24.
Definition INF : Z := 1000000.
Definition MATE : Z := 900000.
Definition MAX_PLY : Z := 64.

Definition EMPTY : Z := 0.
Definition BLACK_MAN : Z := 1.
Definition WHITE_MAN : Z := 2.
Definition BLACK_KING : Z := 3.
Definition WHITE_KING : Z := 4.
Definition GHOST : Z := 7.

(** ** Steps, moves and move lists *)

Record Step := mkStep { r1 : Z; c1 : Z; r2 : Z; c2 : Z }.

Definition zero_step : Step := mkStep 0 0 0 0.

(** [struct Move]: the array [steps[12]], [count] and [score].  Slots of
    [steps] that the C code leaves uninitialised are modelled as
    [zero_step]. *)
Record Move := mkMove { m_steps : list Step; m_count : Z; m_score : Z }.

Definition zero_move : Move := mkMove (replicate 12 zero_step) 0 0.

(** [m.steps[i]] *)
Definition step_at (m : Move) (i : Z) : Step :=
  default zero_step (m_steps m !! Z.to_nat i).

(** [m.steps[i] = s] *)
Definition set_step (m : Move) (i : Z) (s : Step) : Move :=
  mkMove (<[Z.to_nat i := s]> (m_steps m)) (m_count m) (m_score m).

Definition set_score (m : Move) (s : Z) : Move :=
  mkMove (m_steps m) (m_count m) s.

(** [next.steps[next.count++] = s] *)
Definition add_step (m : Move) (s : Step) : Move :=
  mkMove (<[Z.to_nat (m_count m) := s]> (m_steps m)) (m_count m + 1) (m_score m).

(** [Move m; m.count = 1; m.steps[0] = s; m.score = 0;] *)
Definition single_step (s : Step) : Move :=
  mkMove (<[0%nat := s]> (replicate 12 zero_step)) 1 0.

(** [Move::operator==] *)
Definition move_eq (m other : Move) : bool :=
  if negb (m_count m =? m_count other) then false
  else if m_count m =? 0 then true
  else (r1 (step_at m 0) =? r1 (step_at other 0)) &&
       (c1 (step_at m 0) =? c1 (step_at other 0)) &&
       (r2 (step_at m (m_count m - 1)) =? r2 (step_at other (m_count m - 1))) &&
       (c2 (step_at m (m_count m - 1)) =? c2 (step_at other (m_count m - 1))).

(** [struct MoveList]: 128 slots and the number of slots in use. *)
Record MoveList := mkMoveList { ml_moves : list Move; ml_count : Z }.

Definition new_movelist : MoveList := mkMoveList (replicate 128 zero_move) 0.

Definition push_back (l : MoveList) (m : Move) : MoveList :=
  if ml_count l <? 128
  then mkMoveList (<[Z.to_nat (ml_count l) := m]> (ml_moves l)) (ml_count l + 1)
  else l.

Definition clear (l : MoveList) : MoveList := mkMoveList (ml_moves l) 0.

(** [moves[index]] *)
Definition move_at (l : MoveList) (i : Z) : Move :=
  default zero_move (ml_moves l !! Z.to_nat i).

(** [moves[index] = m] *)
Definition set_move (l : MoveList) (i : Z) (m : Move) : MoveList :=
  mkMoveList (<[Z.to_nat i := m]> (ml_moves l)) (ml_count l).

Definition set_count (l : MoveList) (n : Z) : MoveList :=
  mkMoveList (ml_moves l) n.

(** The moves a list holds: its first [count] slots. *)
Definition ml_list (l : MoveList) : list Move :=
  take (Z.to_nat (ml_count l)) (ml_moves l).

(** ** Boards *)

(** [int board[64]]; square [(r, c)] is index [r*8+c].  An index outside
    the array is undefined behaviour in C; here such a read gives 0 and
    such a write is dropped.  The generator only uses indices it has
    checked with [is_valid]. *)
Definition bget (board : list Z) (i : Z) : Z :=
  if i <? 0 then 0 else default 0 (board !! Z.to_nat i).
Definition bset (board : list Z) (i : Z) (v : Z) : list Z :=
  if i <? 0 then board else <[Z.to_nat i := v]> board.

Definition is_valid (r c : Z) : bool :=
  (0 <=? r) && (r <? 8) && (0 <=? c) && (c <? 8).

Definition is_white_piece (p : Z) : bool := (p =? WHITE_MAN) || (p =? WHITE_KING).
Definition is_king_piece (p : Z) : bool := (p =? WHITE_KING) || (p =? BLACK_KING).

(** The four diagonal directions, [drs[i]] and [dcs[i]] paired. *)
Definition dirs : list (Z * Z) := [(-1, -1); (-1, 1); (1, -1); (1, 1)].

(** Indices [lo, lo+1, ..., lo+n-1] of a counting [for] loop. *)
Definition range (lo : Z) (n : nat) : list Z := map (fun k => lo + Z.of_nat k) (seq 0 n).

(** ** Capture enumeration: [find_captures_recursive] *)

(** The board copy made for one jump: source emptied, victim ghosted,
    piece on the landing square. *)
Definition jump_board (board : list Z) (r c nr nc jr jc piece : Z) : list Z :=
  bset (bset (bset board (r*8+c) EMPTY) (nr*8+nc) GHOST) (jr*8+jc) piece.

Section CaptureLoops.
(** The recursive call, seen from the loops of one activation. *)
Variable rec : list Z -> Z -> Z -> Z -> Move -> MoveList -> MoveList.

Variables (board : list Z) (r c piece : Z) (current_move : Move).

Let is_white := is_white_piece piece.
Let my_man := if is_white then WHITE_MAN else BLACK_MAN.
Let my_king := if is_white then WHITE_KING else BLACK_KING.
Let enemy_man := if is_white then BLACK_MAN else WHITE_MAN.
Let enemy_king := if is_white then BLACK_KING else WHITE_KING.

(** The loop state is the move list and [found_continuation]. *)
Definition man_capture (dr dc : Z) (acc : MoveList * bool) : MoveList * bool :=
  let nr := r + dr in let nc := c + dc in
  let jr := r + 2 * dr in let jc := c + 2 * dc in
  if is_valid jr jc then
    let mid := bget board (nr*8+nc) in
    if ((mid =? enemy_man) || (mid =? enemy_king)) && (bget board (jr*8+jc) =? EMPTY)
    then (rec (jump_board board r c nr nc jr jc piece) jr jc piece
              (add_step current_move (mkStep r c jr jc)) (fst acc), true)
    else acc
  else acc.

(** The inner [while(true)] over landing squares past the victim at
    [(nr, nc)]; [n] bounds the iterations (the board has 8 rows). *)
Fixpoint king_land (n : nat) (dr dc nr nc land_dist : Z) (acc : MoveList * bool)
  : MoveList * bool :=
  match n with
  | O => acc
  | S n' =>
    let jr := nr + land_dist * dr in let jc := nc + land_dist * dc in
    if negb (is_valid jr jc) then acc
    else if negb (bget board (jr*8+jc) =? EMPTY) then acc
    else king_land n' dr dc nr nc (land_dist + 1)
           (rec (jump_board board r c nr nc jr jc piece) jr jc piece
                (add_step current_move (mkStep r c jr jc)) (fst acc), true)
  end.

(** The outer [while(true)] sliding from [(r, c)] to the first piece. *)
Fixpoint king_scan (n : nat) (dr dc dist : Z) (acc : MoveList * bool)
  : MoveList * bool :=
  match n with
  | O => acc
  | S n' =>
    let nr := r + dist * dr in let nc := c + dist * dc in
    if negb (is_valid nr nc) then acc
    else
      let p := bget board (nr*8+nc) in
      if (p =? my_man) || (p =? my_king) || (p =? GHOST) then acc
      else if (p =? enemy_man) || (p =? enemy_king)
           then king_land 8 dr dc nr nc 1 acc
           else king_scan n' dr dc (dist + 1) acc
  end.

(** One iteration of [for (int i = 0; i < 4; ++i)]. *)
Definition capture_dir (acc : MoveList * bool) (d : Z * Z) : MoveList * bool :=
  if negb (is_king_piece piece)
  then man_capture (fst d) (snd d) acc
  else king_scan 8 (fst d) (snd d) 1 acc.

(** The body of [find_captures_recursive] below the overflow test. *)
Definition capture_body (moves : MoveList) : MoveList :=
  let acc := fold_left capture_dir dirs (moves, false) in
  if negb (snd acc) && (0 <? m_count current_move)
  then push_back (fst acc) current_move
  else fst acc.
End CaptureLoops.

(** [fuel] bounds the recursion depth; a chain grows by one step per
    level and stops at 12, so 13 levels serve a chain started empty. *)
Fixpoint find_captures_recursive (fuel : nat) (board : list Z) (r c piece : Z)
    (current_move : Move) (moves : MoveList) : MoveList :=
  match fuel with
  | O => moves
  | S fuel' =>
    if 12 <=? m_count current_move then push_back moves current_move
    else capture_body (find_captures_recursive fuel') board r c piece current_move moves
  end.

(** ** Move generation: [generate_moves] *)

Definition my_man_of (player : Z) : Z := if is_white_piece player then WHITE_MAN else BLACK_MAN.
Definition my_king_of (player : Z) : Z := if is_white_piece player then WHITE_KING else BLACK_KING.

(** First loop: captures of every piece of the side, squares 0..63. *)
Definition capture_scan (board : list Z) (player : Z) (moves : MoveList) : MoveList :=
  fold_left (fun moves i =>
      if (bget board i =? my_man_of player) || (bget board i =? my_king_of player)
      then find_captures_recursive 13 board (i ÷ 8) (Z.rem i 8) (bget board i) zero_move moves
      else moves)
    (range 0 64) moves.

(** [max_capture_count] over the slots in use. *)
Definition max_capture_count (moves : MoveList) : Z :=
  fold_left (fun mx i => if m_count (move_at moves i) >? mx then m_count (move_at moves i) else mx)
    (range 0 (Z.to_nat (ml_count moves))) 0.

(** The in-place compaction [moves[write_idx++] = moves[i]]; the state
    is the list and [write_idx]. *)
Definition compact_step (mx : Z) (acc : MoveList * Z) (i : Z) : MoveList * Z :=
  if m_count (move_at (fst acc) i) =? mx
  then (set_move (fst acc) (snd acc) (move_at (fst acc) i), snd acc + 1)
  else acc.

Definition keep_max_captures (moves : MoveList) : MoveList :=
  let mx := max_capture_count moves in
  let acc := fold_left (compact_step mx) (range 0 (Z.to_nat (ml_count moves))) (moves, 0) in
  set_count (fst acc) (snd acc).

(** Quiet steps of a man at [(r, c)]: [k = 0, 1] with [dcs = {-1, 1}]. *)
Definition quiet_man (board : list Z) (is_white : bool) (r c : Z) (moves : MoveList) : MoveList :=
  fold_left (fun moves dc =>
      let nr := r + (if is_white then -1 else 1) in let nc := c + dc in
      if is_valid nr nc && (bget board (nr*8+nc) =? EMPTY)
      then push_back moves (single_step (mkStep r c nr nc))
      else moves)
    [-1; 1] moves.

(** The [while(true)] slide of a king along one diagonal. *)
Fixpoint quiet_slide (n : nat) (board : list Z) (r c dr dc dist : Z) (moves : MoveList)
  : MoveList :=
  match n with
  | O => moves
  | S n' =>
    let nr := r + dist * dr in let nc := c + dist * dc in
    if negb (is_valid nr nc) || negb (bget board (nr*8+nc) =? EMPTY) then moves
    else quiet_slide n' board r c dr dc (dist + 1)
           (push_back moves (single_step (mkStep r c nr nc)))
  end.

Definition quiet_king (board : list Z) (r c : Z) (moves : MoveList) : MoveList :=
  fold_left (fun moves d => quiet_slide 8 board r c (fst d) (snd d) 1 moves) dirs moves.

(** Second loop nest: rows, then columns. *)
Definition quiet_scan (board : list Z) (player : Z) (moves : MoveList) : MoveList :=
  fold_left (fun moves r =>
      fold_left (fun moves c =>
          let p := bget board (r*8+c) in
          if negb (p =? my_man_of player) && negb (p =? my_king_of player) then moves
          else if p =? my_man_of player
               then quiet_man board (is_white_piece player) r c moves
               else quiet_king board r c moves)
        (range 0 8) moves)
    (range 0 8) moves.

(** [generate_moves(board, player, moves)]: the list is cleared on
    entry, so the result is returned instead of written through the
    reference. *)
Definition generate_moves (board : list Z) (player : Z) : MoveList :=
  let moves := capture_scan board player (clear new_movelist) in
  if ml_count moves >? 0 then keep_max_captures moves
  else quiet_scan board player moves.

(** ** Move application: [apply_move] *)

(** The [while (curr_r != er)] walk of one step.  It ends only when the
    row reaches [er]; [n] bounds it, and [None] stands for a walk that
    has not ended within [n] squares (it would leave the board). *)
Fixpoint capture_walk (n : nat) (board : list Z) (curr_r curr_c er dr dc captured : Z)
  : option (list Z * Z) :=
  match n with
  | O => None
  | S n' =>
    if curr_r =? er then Some (board, captured)
    else if negb (bget board (curr_r*8+curr_c) =? EMPTY)
         then capture_walk n' (bset board (curr_r*8+curr_c) EMPTY)
                (curr_r + dr) (curr_c + dc) er dr dc (bget board (curr_r*8+curr_c))
         else capture_walk n' board (curr_r + dr) (curr_c + dc) er dr dc captured
  end.

(** One iteration of [for (int i = 0; i < m.count; i++)]. *)
Definition apply_step (m : Move) (acc : option (list Z * Z)) (i : Z) : option (list Z * Z) :=
  '(board, captured) ← acc;
  let sr := r1 (step_at m i) in let sc := c1 (step_at m i) in
  let er := r2 (step_at m i) in let ec := c2 (step_at m i) in
  let dr := if er >? sr then 1 else -1 in
  let dc := if ec >? sc then 1 else -1 in
  capture_walk 8 board (sr + dr) (sc + dc) er dr dc captured.

(** [apply_move(board, m, player, captured_piece_type)]; the board and
    the out-parameter are returned. *)
Definition apply_move (board : list Z) (m : Move) (player : Z) (captured_piece_type : Z)
  : option (list Z * Z) :=
  let r1 := r1 (step_at m 0) in let c1 := c1 (step_at m 0) in
  let r2 := r2 (step_at m (m_count m - 1)) in let c2 := c2 (step_at m (m_count m - 1)) in
  let piece := bget board (r1*8+c1) in
  let board := bset (bset board (r1*8+c1) EMPTY) (r2*8+c2) piece in
  '(board, captured) ←
    (if (Z.abs (r1 - r2) >=? 2) || (m_count m >? 1)
     then fold_left (apply_step m) (range 0 (Z.to_nat (m_count m))) (Some (board, captured_piece_type))
     else Some (board, captured_piece_type));
  let board := if (piece =? WHITE_MAN) && (r2 =? 0) then bset board (r2*8+c2) WHITE_KING else board in
  let board := if (piece =? BLACK_MAN) && (r2 =? 7) then bset board (r2*8+c2) BLACK_KING else board in
  Some (board, captured).

Definition is_capture_move (m : Move) : bool :=
  if m_count m =? 0 then false
  else Z.abs (r1 (step_at m 0) - r2 (step_at m 0)) >? 1.

Definition is_promotion_move (m : Move) (piece : Z) : bool :=
  if negb (m_count m =? 1) then false
  else if (piece =? WHITE_MAN) && (r2 (step_at m 0) =? 0) then true
  else if (piece =? BLACK_MAN) && (r2 (step_at m 0) =? 7) then true
  else false.

(** ** Evaluation: [evaluate] *)

Definition R : list Z :=
  [0;0;0;0;0;0;0;0; 1;1;1;1;1;1;1;1; 2;2;2;2;2;2;2;2; 3;3;3;3;3;3;3;3;
   4;4;4;4;4;4;4;4; 5;5;5;5;5;5;5;5; 6;6;6;6;6;6;6;6; 7;7;7;7;7;7;7;7].
Definition C : list Z :=
  [0;1;2;3;4;5;6;7; 0;1;2;3;4;5;6;7; 0;1;2;3;4;5;6;7; 0;1;2;3;4;5;6;7;
   0;1;2;3;4;5;6;7; 0;1;2;3;4;5;6;7; 0;1;2;3;4;5;6;7; 0;1;2;3;4;5;6;7].

Definition PST_WHITE : list Z :=
  [0; 0; 0; 0; 0; 0; 0; 0;
   1500; 1500; 1500; 1500; 1500; 1500; 1500; 1500;
   800; 800; 800; 800; 800; 800; 800; 800;
   200; 200; 250; 250; 250; 250; 200; 200;
   100; 100; 150; 150; 150; 150; 100; 100;
   50; 50; 80; 80; 80; 80; 50; 50;
   20; 20; 20; 20; 20; 20; 20; 20;
   10; 10; 10; 10; 10; 10; 10; 10].

Definition PST_BLACK : list Z :=
  [10; 10; 10; 10; 10; 10; 10; 10;
   20; 20; 20; 20; 20; 20; 20; 20;
   50; 50; 80; 80; 80; 80; 50; 50;
   100; 100; 150; 150; 150; 150; 100; 100;
   200; 200; 250; 250; 250; 250; 200; 200;
   800; 800; 800; 800; 800; 800; 800; 800;
   1500; 1500; 1500; 1500; 1500; 1500; 1500; 1500;
   0; 0; 0; 0; 0; 0; 0; 0].

Definition tab (t : list Z) (i : Z) : Z := bget t i.
Definition b2z (b : bool) : Z := if b then 1 else 0.

Definition VAL_PAWN : Z := 1000.
Definition VAL_KING : Z := 8000.
Definition RUNAWAY_BONUS : Z := 600.
Definition MOBILITY_WEIGHT : Z := 6.
Definition DANGER_NEAR_KING : Z := 1000.

(** The running totals of the first loop of [evaluate]. *)
Record Tally := mkTally {
  w_score : Z; b_score : Z; w_men : Z; b_men : Z;
  w_kings : Z; b_kings : Z; w_moves : Z; b_moves : Z }.

Definition tally_square (board : list Z) (t : Tally) (i : Z) : Tally :=
  let p := bget board i in
  if (p =? EMPTY) || (p =? GHOST) then t
  else
    let r := tab R i in let c := tab C i in
    if p =? WHITE_MAN then
      mkTally (w_score t + VAL_PAWN + tab PST_WHITE i + (if r <=? 2 then RUNAWAY_BONUS else 0))
              (b_score t) (w_men t + 1) (b_men t) (w_kings t) (b_kings t)
              (w_moves t + (if r >? 0
                            then b2z ((c >? 0) && (bget board (i-9) =? EMPTY)) +
                                 b2z ((c <? 7) && (bget board (i-7) =? EMPTY))
                            else 0))
              (b_moves t)
    else if p =? BLACK_MAN then
      mkTally (w_score t)
              (b_score t + VAL_PAWN + tab PST_BLACK i + (if r >=? 5 then RUNAWAY_BONUS else 0))
              (w_men t) (b_men t + 1) (w_kings t) (b_kings t) (w_moves t)
              (b_moves t + (if r <? 7
                            then b2z ((c >? 0) && (bget board (i+7) =? EMPTY)) +
                                 b2z ((c <? 7) && (bget board (i+9) =? EMPTY))
                            else 0))
    else if p =? WHITE_KING then
      mkTally (w_score t + VAL_KING) (b_score t) (w_men t) (b_men t)
              (w_kings t + 1) (b_kings t) (w_moves t + 5) (b_moves t)
    else if p =? BLACK_KING then
      mkTally (w_score t) (b_score t + VAL_KING) (w_men t) (b_men t)
              (w_kings t) (b_kings t + 1) (w_moves t) (b_moves t + 5)
    else t.

(** Row 6 loop: an unguarded black man one step from promotion. *)
Definition danger_black (board : list Z) (ws : Z) (i : Z) : Z :=
  if bget board i =? BLACK_MAN then
    let safe := (is_valid 7 (tab C i - 1) && negb (bget board (i+7) =? EMPTY))
                || (is_valid 7 (tab C i + 1) && negb (bget board (i+9) =? EMPTY)) in
    if negb safe then ws - DANGER_NEAR_KING else ws
  else ws.

(** Row 1 loop: an unguarded white man one step from promotion. *)
Definition danger_white (board : list Z) (bs : Z) (i : Z) : Z :=
  if bget board i =? WHITE_MAN then
    let safe := (is_valid 0 (tab C i - 1) && negb (bget board (i-9) =? EMPTY))
                || (is_valid 0 (tab C i + 1) && negb (bget board (i-7) =? EMPTY)) in
    if negb safe then bs - DANGER_NEAR_KING else bs
  else bs.

Definition evaluate (board : list Z) (current_player : Z) : Z :=
  let t := fold_left (tally_square board) (range 0 64) (mkTally 0 0 0 0 0 0 0 0) in
  let ws := fold_left (danger_black board) (range 48 8) (w_score t) in
  let bs := fold_left (danger_white board) (range 8 8) (b_score t) in
  let ws := ws + w_moves t * MOBILITY_WEIGHT in
  let bs := bs + b_moves t * MOBILITY_WEIGHT in
  let w_total := w_men t + w_kings t in
  let b_total := b_men t + b_kings t in
  let ws := if w_total >? b_total then ws + 2500 ÷ (b_total + 1) else ws in
  let bs := if b_total >? w_total then bs + 2500 ÷ (w_total + 1) else bs in
  let score := ws - bs in
  if (current_player =? WHITE_MAN) || (current_player =? WHITE_KING) then score else - score.

(** ** Transposition table *)

Definition TT_EXACT : Z := 0.
Definition TT_ALPHA : Z := 1.
Definition TT_BETA : Z := 2.

Record TTEntry := mkTTEntry {
  tt_key : Z; tt_score : Z; tt_depth : Z; tt_flag : Z; tt_best_move : Move }.

(** A slot as [memset] leaves it.  (The [best_move] of such a slot has
    count 0; its steps are never read.) *)
Definition zero_entry : TTEntry := mkTTEntry 0 0 0 0 zero_move.

(** [transposition_table[idx]] *)
Definition tt_at (table : gmap Z TTEntry) (idx : Z) : TTEntry :=
  default zero_entry (table !! idx).

Definition tt_save (table : gmap Z TTEntry) (key score depth flag : Z) (best_move : Move)
  : gmap Z TTEntry :=
  let idx := key `mod` TT_SIZE in
  if negb (tt_key (tt_at table idx) =? key) || (depth >=? tt_depth (tt_at table idx))
  then <[idx := mkTTEntry key score depth flag best_move]> table
  else table.

(** The score of a slot after the mate shift of [tt_probe]. *)
Definition mate_shift (s : Z) : Z :=
  let s := if s >? MATE - 1000 then s - MAX_PLY else s in
  if s <? - MATE + 1000 then s + MAX_PLY else s.

(** [tt_probe]: [Some score] for [return true] with the score written,
    [None] for [return false]; the second component is [tt_move], which
    keeps the caller's value unless the key matches. *)
Definition tt_probe (table : gmap Z TTEntry) (key depth alpha beta : Z) (tt_move : Move)
  : option Z * Move :=
  let e := tt_at table (key `mod` TT_SIZE) in
  if tt_key e =? key then
    if tt_depth e >=? depth then
      let s := mate_shift (tt_score e) in
      if tt_flag e =? TT_EXACT then (Some s, tt_best_move e)
      else if (tt_flag e =? TT_ALPHA) && (s <=? alpha) then (Some alpha, tt_best_move e)
      else if (tt_flag e =? TT_BETA) && (s >=? beta) then (Some beta, tt_best_move e)
      else (None, tt_best_move e)
    else (None, tt_best_move e)
  else (None, tt_move).

(** ** Search state: the engine's globals *)

Record SearchState := mkState {
  tt_allocated : bool;                      (* transposition_table != nullptr *)
  transposition_table : gmap Z TTEntry;
  history_table : gmap (Z * Z * Z) Z;       (* [side][from][to], zero when absent *)
  killer_moves : gmap (Z * Z) Move;         (* [ply][slot] for 0 <= ply < MAX_PLY,
                                               zero_move when absent *)
  stop_search : bool;
  nodes_visited : Z }.

Definition initial_state : SearchState := mkState false ∅ ∅ ∅ false 0.

Definition history_at (st : SearchState) (side from to : Z) : Z :=
  default 0 (history_table st !! (side, from, to)).

(** [killer_moves] is [Move killer_moves[MAX_PLY][2]], and the code
    indexes it by [ply] without a test.  A row outside [0, MAX_PLY) is
    outside the array: what the program does there is undefined, and the
    access has no value here. *)
Definition killer_row (ply : Z) : bool := (0 <=? ply) && (ply <? MAX_PLY).

Definition killer_at (st : SearchState) (ply slot : Z) : option Move :=
  if killer_row ply then Some (default zero_move (killer_moves st !! (ply, slot)))
  else None.

Definition with_table (st : SearchState) (t : gmap Z TTEntry) : SearchState :=
  mkState (tt_allocated st) t (history_table st) (killer_moves st)
          (stop_search st) (nodes_visited st).
Definition with_history (st : SearchState) (h : gmap (Z * Z * Z) Z) : SearchState :=
  mkState (tt_allocated st) (transposition_table st) h (killer_moves st)
          (stop_search st) (nodes_visited st).
Definition with_killers (st : SearchState) (k : gmap (Z * Z) Move) : SearchState :=
  mkState (tt_allocated st) (transposition_table st) (history_table st) k
          (stop_search st) (nodes_visited st).
Definition with_stop (st : SearchState) (b : bool) : SearchState :=
  mkState (tt_allocated st) (transposition_table st) (history_table st) (killer_moves st)
          b (nodes_visited st).
Definition with_nodes (st : SearchState) (n : Z) : SearchState :=
  mkState (tt_allocated st) (transposition_table st) (history_table st) (killer_moves st)
          (stop_search st) n.

(** [init_memory] with [init_zobrist]: the first call allocates a zeroed
    table and zeroes the history table. *)
Definition init_memory (st : SearchState) : SearchState :=
  if tt_allocated st then st
  else mkState true ∅ ∅ (killer_moves st) (stop_search st) (nodes_visited st).

(** ** Move ordering *)

(** The first three tests return before [killer_moves] is read; the
    second killer is read only when the first one differs from [m]. *)
Definition score_move_ordering (st : SearchState) (m tt_best : Move) (ply : Z) : option Z :=
  if move_eq m tt_best then Some 2000000
  else if (m_count m >? 0) &&
          (Z.abs (r1 (step_at m 0) - r2 (step_at m (m_count m - 1))) >? 2)
       then Some (1000000 + m_count m * 1000)
  else if (r2 (step_at m (m_count m - 1)) =? 0) || (r2 (step_at m (m_count m - 1)) =? 7)
       then Some 950000
  else
    k0 ← killer_at st ply 0;
    if move_eq m k0 then Some 900000
    else
      k1 ← killer_at st ply 1;
      if move_eq m k1 then Some 800000
      else
        let from := r1 (step_at m 0) * 8 + c1 (step_at m 0) in
        let to := r2 (step_at m (m_count m - 1)) * 8 + c2 (step_at m (m_count m - 1)) in
        Some (history_at st 0 from to).

(** One iteration of the loop of [pick_move]; the state is the list,
    [best_score] and [best_idx]. *)
Definition pick_step (st : SearchState) (tt_best : Move) (ply : Z)
    (acc : option (MoveList * Z * Z)) (i : Z) : option (MoveList * Z * Z) :=
  '(moves, best_score, best_idx) ← acc;
  s ← score_move_ordering st (move_at moves i) tt_best ply;
  let moves := set_move moves i (set_score (move_at moves i) s) in
  Some (if s >? best_score then (moves, s, i) else (moves, best_score, best_idx)).

Definition pick_move (st : SearchState) (moves : MoveList) (start_index : Z)
    (tt_best : Move) (ply : Z) : option MoveList :=
  '(moves, _, best_idx) ←
    fold_left (pick_step st tt_best ply)
      (range start_index (Z.to_nat (ml_count moves - start_index)))
      (Some (moves, -2000000000, -1));
  Some (if negb (best_idx =? -1)
        then set_move (set_move moves start_index (move_at moves best_idx))
                      best_idx (move_at moves start_index)
        else moves).

(** ** Alpha-beta search and the driver *)

(** What the loop over the moves of a node ends with: the early
    [return 0] on [stop_search], or the values [tt_save] stores. *)
Inductive NodeExit :=
| Stopped (st : SearchState)
| Finished (best_score : Z) (best_move_local : Move) (flag : Z) (st : SearchState).

(** The result record [get_best_move] writes through [result]. *)
Record MoveResult := mkResult {
  res_steps : list Step; res_count : Z; res_score : Z; res_depth : Z; res_nodes : Z }.

(** [(int)nodes_visited]: a [long long] cut to 32 bits, two's complement. *)
Definition to_int (z : Z) : Z := (z + 2^31) `mod` 2^32 - 2^31.

Section Search.
(** The Zobrist constants drawn by [init_zobrist] from the library's
    generator, and the clock: [expired n] tells whether the sample
    taken when [nodes_visited = n] lies past [time_limit_sec]. *)
Variable zobrist_table : Z -> Z -> Z.
Variable zobrist_black_move : Z.
Variable expired : Z -> bool.

Definition compute_hash (board : list Z) (player : Z) : Z :=
  let h := fold_left (fun h i =>
               if negb (bget board i =? EMPTY) && negb (bget board i =? GHOST)
               then Z.lxor h (zobrist_table i (bget board i)) else h)
             (range 0 64) 0 in
  if (player =? BLACK_MAN) || (player =? BLACK_KING) then Z.lxor h zobrist_black_move else h.

(** Node entry: count the node, sample the clock every 2048 nodes. *)
Definition tick (st : SearchState) : SearchState :=
  let st := with_nodes st (nodes_visited st + 1) in
  if Z.land (nodes_visited st) 2047 =? 0
  then if expired (nodes_visited st) then with_stop st true else st
  else st.

(** The [is_noisy] scan over the moves for a man's promotion step. *)
Definition has_promotion (board : list Z) (moves : MoveList) : bool :=
  existsb (fun i =>
      is_promotion_move (move_at moves i)
        (bget board (r1 (step_at (move_at moves i) 0) * 8 + c1 (step_at (move_at moves i) 0))))
    (range 0 (Z.to_nat (ml_count moves))).

(** The [depth <= 0] block: [Some v] when it returns [v]. *)
Definition stand_pat (board : list Z) (depth player : Z) (moves : MoveList)
    (capture_forced : bool) : option Z :=
  if depth <=? 0 then
    let is_noisy := capture_forced || has_promotion board moves in
    if negb is_noisy then Some (evaluate board player)
    else if depth <? -12 then Some (evaluate board player)
    else None
  else None.

(** The killer and history update at a beta cutoff.  It reads and
    writes row [ply] of [killer_moves], so it has a value only for a row
    of the table. *)
Definition record_cutoff (st : SearchState) (player ply depth : Z) (m : Move)
  : option SearchState :=
  k0 ← killer_at st ply 0;
  let st := with_killers st
              (<[(ply, 0) := m]> (<[(ply, 1) := k0]> (killer_moves st))) in
  let from := r1 (step_at m 0) * 8 + c1 (step_at m 0) in
  let to := r2 (step_at m 0) * 8 + c2 (step_at m 0) in
  let side := if (player =? WHITE_MAN) || (player =? WHITE_KING) then 0 else 1 in
  Some (with_history st
    (<[(side, from, to) := history_at st side from to + depth * depth]> (history_table st))).

Definition enemy_of (player : Z) : Z :=
  if (player =? WHITE_MAN) || (player =? WHITE_KING) then BLACK_MAN else WHITE_MAN.

Section Node.
(** The recursive call [alpha_beta(board, depth, alpha, beta, player, ply, do_null)]. *)
Variable rec : list Z -> Z -> Z -> Z -> Z -> Z -> bool -> SearchState
               -> option (Z * SearchState).

(** The score of the [i]-th move: full window for the first, else a
    null window with an optional reduction and a re-search. *)
Definition pvs_child (temp_board : list Z) (i depth alpha beta enemy ply : Z)
    (reduction extension : Z) (st : SearchState) : option (Z * SearchState) :=
  if i =? 0 then
    '(s, st) ← rec temp_board (depth - 1 + extension) (- beta) (- alpha) enemy (ply + 1) true st;
    Some (- s, st)
  else
    '(s, st) ← rec temp_board (depth - 1 - reduction + extension) (- alpha - 1) (- alpha)
                 enemy (ply + 1) true st;
    if (- s >? alpha) && (- s <? beta) then
      '(s, st) ← rec temp_board (depth - 1 + extension) (- beta) (- alpha) enemy (ply + 1) true st;
      Some (- s, st)
    else Some (- s, st).

(** [for (int i = 0; i < moves.count; i++)] of [alpha_beta]; [n] is
    the number of iterations left. *)
Fixpoint search_moves (n : nat) (board : list Z) (depth beta player ply : Z)
    (capture_forced : bool) (tt_move : Move) (i : Z) (moves : MoveList)
    (alpha best_score : Z) (best_move_local : Move) (flag : Z) (st : SearchState)
  : option NodeExit :=
  match n with
  | O => Some (Finished best_score best_move_local flag st)
  | S n' =>
    moves ← pick_move st moves i tt_move ply;
    let m := move_at moves i in
    let piece := bget board (r1 (step_at m 0) * 8 + c1 (step_at m 0)) in
    let promotion := is_promotion_move m piece in
    '(temp_board, _) ← apply_move board m player 0;
    let extension := if promotion && (ply <? MAX_PLY) then 1 else 0 in
    let reduction :=
      if (depth >=? 3) && negb capture_forced && negb promotion &&
         (m_count m =? 1) && (i >? 3) then 1 else 0 in
    '(score, st) ← pvs_child temp_board i depth alpha beta (enemy_of player) ply
                     reduction extension st;
    if stop_search st then Some (Stopped st)
    else if score >? best_score then
      if score >? alpha then
        if score >=? beta then
          st ← (if negb capture_forced && (m_count m =? 1)
                then record_cutoff st player ply depth m else Some st);
          Some (Finished score m TT_BETA st)
        else search_moves n' board depth beta player ply capture_forced tt_move
               (i + 1) moves score score m TT_EXACT st
      else search_moves n' board depth beta player ply capture_forced tt_move
             (i + 1) moves alpha score m flag st
    else search_moves n' board depth beta player ply capture_forced tt_move
           (i + 1) moves alpha best_score best_move_local flag st
  end.

(** The loop over the moves followed by [tt_save] and the return. *)
Definition search_and_save (board : list Z) (depth alpha beta player ply : Z)
(moves : MoveList) (capture_forced : bool) (h : Z) (tt_move : Move) (st : SearchState)
  : option (Z * SearchState) :=
  out ← search_moves (Z.to_nat (ml_count moves)) board depth beta player ply
      capture_forced tt_move 0 moves alpha (- INF) (move_at moves 0) TT_ALPHA st;
  match out with
  | Stopped st => Some (0, st)
  | Finished best_score best_move_local flag st =>
Some (best_score,
      with_table st (tt_save (transposition_table st) h best_score depth flag
                       best_move_local))
  end.

(** The part of [alpha_beta] from the hash on: probe, then search. *)
Definition search_node (board : list Z) (depth alpha beta player ply : Z)
(moves : MoveList) (capture_forced : bool) (st : SearchState)
  : option (Z * SearchState) :=
  let h := compute_hash board player in
  let probe := tt_probe (transposition_table st) h depth alpha beta zero_move in
  match fst probe with
  | Some tt_score =>
if ply >? 0 then Some (tt_score, st)
else search_and_save board depth alpha beta player ply moves capture_forced h (snd probe) st
  | None =>
search_and_save board depth alpha beta player ply moves capture_forced h (snd probe) st
  end.

Definition alpha_beta_body (board : list Z) (depth alpha beta player ply : Z)
    (do_null : bool) (st : SearchState) : option (Z * SearchState) :=
  let st := tick st in
  if stop_search st then Some (0, st)
  else
    let moves := generate_moves board player in
    if ml_count moves =? 0 then Some (- MATE + ply, st)
    else
      let capture_forced := (ml_count moves >? 0) && is_capture_move (move_at moves 0) in
      match stand_pat board depth player moves capture_forced with
      | Some v => Some (v, st)
      | None => search_node board depth alpha beta player ply moves capture_forced st
      end.
End Node.

(** [alpha_beta]; [fuel] bounds the depth of the recursion.  [None] is
    a search cut short by it, or one that leaves [killer_moves] at a
    [ply] outside the table. *)
Fixpoint alpha_beta (fuel : nat) (board : list Z) (depth alpha beta player ply : Z)
    (do_null : bool) (st : SearchState) : option (Z * SearchState) :=
  match fuel with
  | O => None
  | S fuel' => alpha_beta_body (alpha_beta fuel') board depth alpha beta player ply do_null st
  end.

(** *** [get_best_move] *)

(** What the loop over the root moves of one depth ends with. *)
Record RootIter := mkRootIter {
  ri_best_move : Move; ri_best_score : Z; ri_state : SearchState }.

(** [for (int i = 0; i < root_moves.count; i++)] at depth [d]; it
    breaks on [stop_search], which the caller then reads from the state. *)
Fixpoint root_moves_loop (fuel n : nat) (board : list Z) (player d : Z) (root_moves : MoveList)
    (i alpha beta : Z) (current_best_move : Move) (current_best_score : Z)
    (st : SearchState) : option RootIter :=
  match n with
  | O => Some (mkRootIter current_best_move current_best_score st)
  | S n' =>
    let m := move_at root_moves i in
    let piece := bget board (r1 (step_at m 0) * 8 + c1 (step_at m 0)) in
    let extension := if is_promotion_move m piece then 1 else 0 in
    '(temp_board, _) ← apply_move board m player 0;
    '(score, st) ← pvs_child (alpha_beta fuel) temp_board i d alpha beta (enemy_of player) 0
                     0 extension st;
    if stop_search st then Some (mkRootIter current_best_move current_best_score st)
    else if score >? current_best_score
         then root_moves_loop fuel n' board player d root_moves (i + 1)
                (if score >? alpha then score else alpha) beta m score st
         else root_moves_loop fuel n' board player d root_moves (i + 1)
                alpha beta current_best_move current_best_score st
  end.

(** What the iterative-deepening loop hands to the epilogue. *)
Record Deepened := mkDeepened {
  dp_root_moves : MoveList; dp_best_overall : Move; dp_best_score_overall : Z;
  dp_reached_depth : Z; dp_state : SearchState }.

(** [for (int d = 1; d <= max_depth; d++)]; [n] iterations are left. *)
Fixpoint deepen (fuel n : nat) (board : list Z) (player d : Z) (root_moves : MoveList)
    (best_overall : Move) (best_score_overall reached_depth : Z) (st : SearchState)
  : option Deepened :=
  match n with
  | O => Some (mkDeepened root_moves best_overall best_score_overall reached_depth st)
  | S n' =>
    root_moves ← pick_move st root_moves 0 best_overall 0;
    it ← root_moves_loop fuel (Z.to_nat (ml_count root_moves)) board player d root_moves
           0 (- INF) INF (move_at root_moves 0) (- INF) st;
    if stop_search (ri_state it)
    then Some (mkDeepened root_moves best_overall best_score_overall reached_depth (ri_state it))
    else if ri_best_score it >? MATE - 5000
         then Some (mkDeepened root_moves (ri_best_move it) (ri_best_score it) d (ri_state it))
         else deepen fuel n' board player (d + 1) root_moves
                (ri_best_move it) (ri_best_score it) d (ri_state it)
  end.

(** [get_best_move(flat_board, player, limit_sec, max_depth, result)].
    [limit_sec] and the clock are in [expired]; [result] is the record
    the caller passes in, the function's value the record as written
    and the globals after the call.  The log lines are left out. *)
Definition get_best_move (fuel : nat) (flat_board : list Z) (player max_depth : Z)
    (result : MoveResult) (st : SearchState) : option (MoveResult * SearchState) :=
  let st := init_memory st in
  let board := flat_board in
  let root_moves := generate_moves board player in
  if ml_count root_moves =? 0
  then Some (mkResult (res_steps result) 0 (- MATE) (res_depth result) (res_nodes result), st)
  else if ml_count root_moves =? 1
  then let best := move_at root_moves 0 in
       Some (mkResult (m_steps best) (m_count best) 0 1 0, st)
  else
    let st := with_nodes (with_stop st false) 0 in
    dp ← deepen fuel (Z.to_nat max_depth) board player 1 root_moves
           (move_at root_moves 0) (- INF) 0 st;
    let best_overall := dp_best_overall dp in
    let fallback := (m_count best_overall =? 0) && (ml_count (dp_root_moves dp) >? 0) in
    Some (mkResult
            (if fallback then m_steps (move_at (dp_root_moves dp) 0) else m_steps best_overall)
            (if fallback then m_count (move_at (dp_root_moves dp) 0) else m_count best_overall)
            (dp_best_score_overall dp) (dp_reached_depth dp)
            (to_int (nodes_visited (dp_state dp))),
          dp_state dp).
End Search.
(** ** The moves the generator emits, as plain lists

    The loops above thread a bounded [MoveList].  The functions below
    list what the same loops hand to [push_back], in order and without
    the bound; the refinement lemmas further down relate the two. *)

Section ChainLists.
Variable chains_rec : list Z -> Z -> Z -> Z -> Move -> list Move.

Variables (board : list Z) (r c piece : Z) (current_move : Move).

Let is_white := is_white_piece piece.
Let my_man := if is_white then WHITE_MAN else BLACK_MAN.
Let my_king := if is_white then WHITE_KING else BLACK_KING.
Let enemy_man := if is_white then BLACK_MAN else WHITE_MAN.
Let enemy_king := if is_white then BLACK_KING else WHITE_KING.

(** Each loop yields the moves pushed and whether a continuation was found. *)
Definition man_chains (dr dc : Z) : list Move * bool :=
let nr := r + dr in let nc := c + dc in
let jr := r + 2 * dr in let jc := c + 2 * dc in
if is_valid jr jc then
  let mid := bget board (nr*8+nc) in
  if ((mid =? enemy_man) || (mid =? enemy_king)) && (bget board (jr*8+jc) =? EMPTY)
  then (chains_rec (jump_board board r c nr nc jr jc piece) jr jc piece
          (add_step current_move (mkStep r c jr jc)), true)
  else ([], false)
else ([], false).

Fixpoint land_chains (n : nat) (dr dc nr nc land_dist : Z) : list Move * bool :=
match n with
| O => ([], false)
| S n' =>
  let jr := nr + land_dist * dr in let jc := nc + land_dist * dc in
  if negb (is_valid jr jc) then ([], false)
  else if negb (bget board (jr*8+jc) =? EMPTY) then ([], false)
  else (chains_rec (jump_board board r c nr nc jr jc piece) jr jc piece
          (add_step current_move (mkStep r c jr jc))
        ++ fst (land_chains n' dr dc nr nc (land_dist + 1)), true)
end.

Fixpoint scan_chains (n : nat) (dr dc dist : Z) : list Move * bool :=
match n with
| O => ([], false)
| S n' =>
  let nr := r + dist * dr in let nc := c + dist * dc in
  if negb (is_valid nr nc) then ([], false)
  else
    let p := bget board (nr*8+nc) in
    if (p =? my_man) || (p =? my_king) || (p =? GHOST) then ([], false)
    else if (p =? enemy_man) || (p =? enemy_king)
         then land_chains 8 dr dc nr nc 1
         else scan_chains n' dr dc (dist + 1)
end.

Definition dir_chains (d : Z * Z) : list Move * bool :=
if negb (is_king_piece piece)
then man_chains (fst d) (snd d)
else scan_chains 8 (fst d) (snd d) 1.

Definition body_chains : list Move :=
let outs := map dir_chains dirs in
if negb (existsb snd outs) && (0 <? m_count current_move)
then concat (map fst outs) ++ [current_move]
else concat (map fst outs).
End ChainLists.

(** The moves one call of [find_captures_recursive] pushes. *)
Fixpoint emitted_chains (fuel : nat) (board : list Z) (r c piece : Z) (current_move : Move)
  : list Move :=
  match fuel with
  | O => []
  | S fuel' =>
    if 12 <=? m_count current_move then [current_move]
    else body_chains (emitted_chains fuel') board r c piece current_move
  end.

(** The moves the first loop of [generate_moves] pushes. *)
Definition all_chains (board : list Z) (player : Z) : list Move :=
  flat_map (fun i =>
      if (bget board i =? my_man_of player) || (bget board i =? my_king_of player)
      then emitted_chains 13 board (i ÷ 8) (Z.rem i 8) (bget board i) zero_move
      else [])
    (range 0 64).

Definition man_steps (board : list Z) (is_white : bool) (r c : Z) : list Move :=
  flat_map (fun dc =>
      let nr := r + (if is_white then -1 else 1) in let nc := c + dc in
      if is_valid nr nc && (bget board (nr*8+nc) =? EMPTY)
      then [single_step (mkStep r c nr nc)] else [])
    [-1; 1].

Fixpoint slide_steps (n : nat) (board : list Z) (r c dr dc dist : Z) : list Move :=
  match n with
  | O => []
  | S n' =>
    let nr := r + dist * dr in let nc := c + dist * dc in
    if negb (is_valid nr nc) || negb (bget board (nr*8+nc) =? EMPTY) then []
    else single_step (mkStep r c nr nc) :: slide_steps n' board r c dr dc (dist + 1)
  end.

Definition king_steps (board : list Z) (r c : Z) : list Move :=
  flat_map (fun d => slide_steps 8 board r c (fst d) (snd d) 1) dirs.

(** The moves the second loop nest of [generate_moves] pushes. *)
Definition all_quiet (board : list Z) (player : Z) : list Move :=
  flat_map (fun r =>
      flat_map (fun c =>
          let p := bget board (r*8+c) in
          if negb (p =? my_man_of player) && negb (p =? my_king_of player) then []
          else if p =? my_man_of player
               then man_steps board (is_white_piece player) r c
               else king_steps board r c)
        (range 0 8))
    (range 0 8).

(** ** The rules, as the specification words them *)

(** The largest step count of a list of moves (0 for none). *)
Definition max_steps (l : list Move) : Z :=
  foldr (fun m mx => Z.max (m_count m) mx) 0 l.

(** A legal quiet move of [player]: a man one diagonal step forward
    (white towards row 0, black towards row 7) to an empty square, or a
    king to a square along a diagonal with every square up to and
    including it on the board and empty. *)
Definition legal_quiet (board : list Z) (player : Z) (m : Move) : Prop :=
  exists r c nr nc,
    m = single_step (mkStep r c nr nc) /\ is_valid r c = true /\
    ((bget board (r*8+c) = my_man_of player /\
      nr = r + (if is_white_piece player then -1 else 1) /\ (nc = c - 1 \/ nc = c + 1) /\
      is_valid nr nc = true /\ bget board (nr*8+nc) = EMPTY)
     \/
     (bget board (r*8+c) = my_king_of player /\
      exists dr dc dist,
        In (dr, dc) dirs /\ 1 <= dist /\ nr = r + dist * dr /\ nc = c + dist * dc /\
        forall k, 1 <= k <= dist ->
          is_valid (r + k * dr) (c + k * dc) = true /\
          bget board ((r + k * dr) * 8 + (c + k * dc)) = EMPTY)).

(** Well-formed move list: 128 slots, between 0 and 128 in use. *)
Definition wf_list (l : MoveList) : Prop :=
  length (ml_moves l) = 128%nat /\ 0 <= ml_count l <= 128.

(** [l'] holds what [l] held followed by [out], as far as 128 slots go. *)
Definition extends (l l' : MoveList) (out : list Move) : Prop :=
  wf_list l' /\ ml_list l' = take 128 (ml_list l ++ out).

(** The same for a loop state: the list extended, the flag or-ed. *)
Definition acc_extends (acc acc' : MoveList * bool) (out : list Move * bool) : Prop :=
  extends (fst acc) (fst acc') (fst out) /\ snd acc' = snd acc || snd out.

(** A jump between two squares of the board, at least two rows apart. *)
Definition jump_step (s : Step) : Prop :=
  is_valid (r1 s) (c1 s) = true /\ is_valid (r2 s) (c2 s) = true /\
  2 <= Z.abs (r1 s - r2 s).

(** A move the capture enumerator may emit: 1 to 12 steps in 12
    slots, each of them a jump. *)
Definition capture_shaped (m : Move) : Prop :=
  1 <= m_count m <= 12 /\ length (m_steps m) = 12%nat /\
  forall i, 0 <= i < m_count m -> jump_step (step_at m i).

(** A chain under construction: the same, or still empty. *)
Definition chain_prefix (m : Move) : Prop :=
  0 <= m_count m <= 12 /\ length (m_steps m) = 12%nat /\
  forall i, 0 <= i < m_count m -> jump_step (step_at m i).

(** A move whose steps [apply_move] can walk: each joins two different
    rows of the board. *)
Definition walkable (m : Move) : Prop :=
  forall i, 0 <= i < m_count m ->
    0 <= r1 (step_at m i) < 8 /\ 0 <= r2 (step_at m i) < 8 /\
    r1 (step_at m i) <> r2 (step_at m i).

Definition all_walkable (l : MoveList) : Prop :=
  forall j, 0 <= j < ml_count l -> walkable (move_at l j).

(** Recursion fuel that serves a search of [depth] entered at [ply]:
    13 levels below depth 0 for the noisy extension, and one level per
    ply below [MAX_PLY], where a promotion may keep the depth. *)
Definition need_fuel (depth ply : Z) : nat :=
  S (Z.to_nat (depth + 13 + Z.max 0 (MAX_PLY - ply))).

(** The men on the board, the pieces a move can still crown. *)
Definition man_weight (p : Z) : Z := if (p =? WHITE_MAN) || (p =? BLACK_MAN) then 1 else 0.

Definition men_on (board : list Z) : Z := foldr (fun p n => man_weight p + n) 0 board.

(** A search of [depth] entered at [ply] on [board] that stays within
    the rows of [killer_moves]: a level of the recursion adds one to the
    ply and takes one from the depth unless its move crowns a man, and
    no move is ordered below depth -12. *)
Definition within_table (board : list Z) (depth ply : Z) : Prop :=
  0 <= ply /\ ply + depth + men_on board + 12 < MAX_PLY.

(** The recursive calls a node at [depth] and [ply] on [board] makes
    all return: a call one level down, on a board with a man less for
    every level of depth it does not give up. *)
Definition child_ok
    (rec : list Z -> Z -> Z -> Z -> Z -> Z -> bool -> SearchState -> option (Z * SearchState))
    (board : list Z) (depth ply : Z) : Prop :=
  forall b d a be pl dn st,
    d <= depth - 1 + (if ply <? MAX_PLY then 1 else 0) ->
    men_on b + d + 1 <= men_on board + depth ->
    is_Some (rec b d a be pl (ply + 1) dn st).

(** ** Boards and moves used in the examples *)

Definition place (board : list Z) (sq : Z * Z * Z) : list Z :=
  bset board (fst (fst sq) * 8 + snd (fst sq)) (snd sq).

Definition board_of (pieces : list (Z * Z * Z)) : list Z :=
  fold_left place pieces (replicate 64 EMPTY).

Definition move_of (l : list Step) : Move :=
  fold_left add_step l zero_move.

(** The steps of the moves a list holds. *)
Definition moves_of (l : MoveList) : list (list Step) :=
  map (fun m => take (Z.to_nat (m_count m)) (m_steps m)) (ml_list l).

#[global] Instance Step_eq_dec : EqDecision Step.
Proof. solve_decision. Defined.
#[global] Instance Move_eq_dec : EqDecision Move.
Proof. solve_decision. Defined.

(** White kings on all 28 squares of the rim. *)
Definition edge_kings : list Z :=
  board_of (map (fun sq => (fst sq, snd sq, WHITE_KING))
              (List.filter (fun sq => (fst sq =? 0) || (fst sq =? 7) || (snd sq =? 0) || (snd sq =? 7))
                 (list_prod (range 0 8) (range 0 8)))).

(** A white man that can take the same four men clockwise or
    counter-clockwise, ending where it started. *)
Definition twin_board : list Z :=
  board_of [(5,2,WHITE_MAN); (4,3,BLACK_MAN); (2,3,BLACK_MAN); (4,1,BLACK_MAN); (2,1,BLACK_MAN)].

Definition twin_left : Move :=
  move_of [mkStep 5 2 3 0; mkStep 3 0 1 2; mkStep 1 2 3 4; mkStep 3 4 5 2].

Definition twin_right : Move :=
  move_of [mkStep 5 2 3 4; mkStep 3 4 1 2; mkStep 1 2 3 0; mkStep 3 0 5 2].

(** A white king whose four-capture chain crosses, in its first step,
    the square it finally lands on. *)
Definition crossing_board : list Z :=
  board_of [(7,2,WHITE_KING); (6,3,BLACK_MAN); (2,5,BLACK_MAN); (2,3,BLACK_MAN); (4,3,BLACK_MAN)].

Definition crossing_move : Move :=
  move_of [mkStep 7 2 3 6; mkStep 3 6 1 4; mkStep 1 4 3 2; mkStep 3 2 5 4].

(** A white king next to the edge, two of its quiet moves, and a
    history table that holds 77 for both. *)
Definition king_edge_board : list Z := board_of [(1,2,WHITE_KING); (6,5,BLACK_MAN)].

Definition king_edge_move : Move := move_of [mkStep 1 2 0 1].

Definition king_slide_move : Move := move_of [mkStep 1 2 5 6].

Definition king_history_state : SearchState :=
  with_history initial_state (<[(0, 10, 1) := 77]> (<[(0, 10, 46) := 77]> ∅)).

(** A black man hemmed in on row 6, and a lone white man. *)
Definition blocked_board : list Z :=
  board_of [(6,1,BLACK_MAN); (7,0,WHITE_MAN); (7,2,WHITE_MAN)].

Definition lone_man_board : list Z := board_of [(5,0,WHITE_MAN)].

(** Stand-ins for the Zobrist constants, a small position, and a state
    whose table holds an exact score of 777 at depth 10 for it. *)
Definition demo_zobrist (i p : Z) : Z := i * 8 + p + 1.

Definition demo_board : list Z :=
  board_of [(5,2,WHITE_MAN); (5,4,WHITE_MAN); (2,3,BLACK_MAN); (2,1,BLACK_MAN)].

Definition demo_state : SearchState :=
  with_table initial_state
    (tt_save ∅ (compute_hash demo_zobrist 12345 demo_board WHITE_MAN) 777 10 TT_EXACT zero_move).

(** ** Notions used in the statements further down *)

(** The Zobrist key of content [p] on square [i]; empty squares and
    ghosts have none. *)
Definition square_key (zobrist_table : Z -> Z -> Z) (i p : Z) : Z :=
  if negb (p =? EMPTY) && negb (p =? GHOST) then zobrist_table i p else 0.

(** The side whose turn adds [zobrist_black_move] to the hash. *)
Definition is_black_side (player : Z) : bool := (player =? BLACK_MAN) || (player =? BLACK_KING).

(** Bounds on the totals of the first loop of [evaluate] after [k] squares. *)
Definition tally_within (t : Tally) (k : Z) : Prop :=
  0 <= w_score t <= 8000 * k /\ 0 <= b_score t <= 8000 * k /\
  0 <= w_men t /\ 0 <= w_kings t /\ w_men t + w_kings t <= k /\
  0 <= b_men t /\ 0 <= b_kings t /\ b_men t + b_kings t <= k /\
  0 <= w_moves t <= 5 * k /\ 0 <= b_moves t <= 5 * k.

(** What any stretch of the search does to the globals: nodes are only
    counted up, the stop flag is only set, the allocation flag stays. *)
Definition state_grows (st st' : SearchState) : Prop :=
  nodes_visited st <= nodes_visited st' /\
  (stop_search st = true -> stop_search st' = true) /\
  tt_allocated st' = tt_allocated st.

(** The same for one call of [alpha_beta] that returns [v]: at least one
    node is counted, and a set stop flag comes with the value 0. *)
Definition search_post (st : SearchState) (v : Z) (st' : SearchState) : Prop :=
  nodes_visited st < nodes_visited st' /\
  (stop_search st = true -> stop_search st' = true) /\
  (stop_search st' = true -> v = 0) /\
  tt_allocated st' = tt_allocated st.

(** The recursive calls of a node keep to [search_post]. *)
Definition rec_post
    (rec : list Z -> Z -> Z -> Z -> Z -> Z -> bool -> SearchState -> option (Z * SearchState))
  : Prop :=
  forall b d a be pl ply dn st v st',
    rec b d a be pl ply dn st = Some (v, st') -> search_post st v st'.

(** One step along a diagonal, both ends on the board. *)
Definition diagonal_step (s : Step) : Prop :=
  is_valid (r1 s) (c1 s) = true /\ is_valid (r2 s) (c2 s) = true /\
  1 <= Z.abs (r2 s - r1 s) /\ Z.abs (r2 s - r1 s) = Z.abs (c2 s - c1 s).

(** Each step starts where the one before it ended. *)
Definition linked (m : Move) : Prop :=
  forall i, 0 <= i < m_count m - 1 ->
    r2 (step_at m i) = r1 (step_at m (i + 1)) /\ c2 (step_at m i) = c1 (step_at m (i + 1)).

(** A chain that set out from [(r0, c0)] and stands on [(r, c)]. *)
Definition chain_from (r0 c0 r c : Z) (m : Move) : Prop :=
  0 <= m_count m <= 12 /\ length (m_steps m) = 12%nat /\
  (forall i, 0 <= i < m_count m -> diagonal_step (step_at m i)) /\
  linked m /\
  (if m_count m =? 0 then r = r0 /\ c = c0
   else r1 (step_at m 0) = r0 /\ c1 (step_at m 0) = c0 /\
        r2 (step_at m (m_count m - 1)) = r /\ c2 (step_at m (m_count m - 1)) = c).

(** A finished move from [(r0, c0)]. *)
Definition path_from (r0 c0 : Z) (m : Move) : Prop :=
  1 <= m_count m <= 12 /\
  r1 (step_at m 0) = r0 /\ c1 (step_at m 0) = c0 /\
  (forall i, 0 <= i < m_count m -> diagonal_step (step_at m i)) /\
  linked m.

(** [m] is, but for its ordering score, one of the moves in use in [l]. *)
Definition move_from (l : MoveList) (m : Move) : Prop :=
  exists j, 0 <= j < ml_count l /\
    m_steps m = m_steps (move_at l j) /\ m_count m = m_count (move_at l j).

(** Every slot in use holds a move with property [P]. *)
Definition all_moves (P : Move -> Prop) (l : MoveList) : Prop :=
  forall j, 0 <= j < ml_count l -> P (move_at l j).

(** The loop of [pick_move] before it looks at slot [lo], [sc i] being
    the ordering score of slot [i]: the slots from [start] up to [lo]
    carry their score, and [best_idx] is the first slot among them with
    the highest one. *)
Definition pick_state (sc : Z -> Z) (moves : MoveList)
    (start lo : Z) (acc : MoveList * Z * Z) : Prop :=
  let '(l, best_score, best_idx) := acc in
  length (ml_moves l) = 128%nat /\ ml_count l = ml_count moves /\
  (forall i, 0 <= i ->
     move_at l i = if decide (start <= i < lo) then set_score (move_at moves i) (sc i)
                   else move_at moves i) /\
  ((lo = start /\ best_score = -2000000000 /\ best_idx = -1) \/
   (start <= best_idx < lo /\ best_score = sc best_idx /\
    (forall i, start <= i < lo -> sc i <= sc best_idx) /\
    (forall i, start <= i < best_idx -> sc i < sc best_idx))).

(** [p] is a man or king of the side opposing [piece]. *)
Definition is_enemy_piece (piece p : Z) : bool :=
  if is_white_piece piece then (p =? BLACK_MAN) || (p =? BLACK_KING)
  else (p =? WHITE_MAN) || (p =? WHITE_KING).

(** A white man with one black man to jump. *)
Definition jump_demo_board : list Z := board_of [(5,2,WHITE_MAN); (4,3,BLACK_MAN)].

(** The values a square of a board takes. *)
Definition piece_code (p : Z) : bool :=
  (p =? EMPTY) || (p =? BLACK_MAN) || (p =? WHITE_MAN) || (p =? BLACK_KING) ||
  (p =? WHITE_KING) || (p =? GHOST).

(** The square a jump of two squares passes over. *)
Definition mid_square (s : Step) : Z := ((r1 s + r2 s) / 2) * 8 + (c1 s + c2 s) / 2.

(** The enumerator's state for a man that set out from [(r0, c0)] on the
    board [B], now on [(r, c)] of the working board [b] after the jumps
    of [cur]: the jumped squares hold enemy pieces on [B] and ghosts on
    [b], the man stands on [(r, c)], its first square and the squares it
    passed are empty, and every other square is as on [B]. *)
Definition man_trail (B : list Z) (piece r0 c0 : Z) (b : list Z) (r c : Z) (cur : Move)
  : Prop :=
  chain_from r0 c0 r c cur /\
  is_valid r c = true /\
  length b = 64%nat /\
  (forall j, 0 <= j < m_count cur ->
     Z.abs (r2 (step_at cur j) - r1 (step_at cur j)) = 2 /\
     bget b (mid_square (step_at cur j)) = GHOST /\
     is_enemy_piece piece (bget B (mid_square (step_at cur j))) = true) /\
  bget b (r * 8 + c) = piece /\
  (r * 8 + c <> r0 * 8 + c0 -> bget b (r0 * 8 + c0) = EMPTY /\ bget B (r * 8 + c) = EMPTY) /\
  (forall k, k <> r0 * 8 + c0 -> k <> r * 8 + c ->
     (forall j, 0 <= j < m_count cur -> k <> mid_square (step_at cur j)) ->
     bget b k = bget B k).

(** The same piece of the other colour. *)
Definition swap_colour (p : Z) : Z :=
  if p =? BLACK_MAN then WHITE_MAN else if p =? WHITE_MAN then BLACK_MAN
  else if p =? BLACK_KING then WHITE_KING else if p =? WHITE_KING then BLACK_KING
  else p.

(** The square that faces square [i] across the middle of the board. *)
Definition mirror (i : Z) : Z := (7 - i ÷ 8) * 8 + Z.rem i 8.

(** The position seen from the other side: rows reversed, colours swapped. *)
Definition flip_board (board : list Z) : list Z :=
  map (fun i => swap_colour (bget board (mirror i))) (range 0 64).

(** The totals of the other side. *)
Definition swap_tally (t : Tally) : Tally :=
  mkTally (b_score t) (w_score t) (b_men t) (w_men t)
          (b_kings t) (w_kings t) (b_moves t) (w_moves t).

(** Totals added field by field. *)
Definition tally_add (a b : Tally) : Tally :=
  mkTally (w_score a + w_score b) (b_score a + b_score b) (w_men a + w_men b)
          (b_men a + b_men b) (w_kings a + w_kings b) (b_kings a + b_kings b)
          (w_moves a + w_moves b) (b_moves a + b_moves b).

(** The totals of [f] over the squares of [l]. *)
Definition tally_sum (f : Z -> Tally) (l : list Z) : Tally :=
  foldr (fun i acc => tally_add (f i) acc) (mkTally 0 0 0 0 0 0 0 0) l.

(** * Proofs *)

(** * Move lists *)

Lemma wf_new_movelist : wf_list (clear new_movelist).
Proof. split; [reflexivity | simpl; lia]. Qed.

Lemma ml_list_length (l : MoveList) :
  wf_list l -> length (ml_list l) = Z.to_nat (ml_count l).
Proof.
  intros [Hlen Hc]. unfold ml_list. rewrite length_take. lia.
Qed.

Lemma take_take_app {A} (n : nat) (a b : list A) :
  take n (take n a ++ b) = take n (a ++ b).
Proof.
  destruct (decide (length a <= n)%nat) as [Hle | Hgt].
  - rewrite (take_ge a) by lia. reflexivity.
  - rewrite (take_app_le a) by lia.
    rewrite take_app_le by (rewrite length_take; lia).
    apply take_idemp.
Qed.

Lemma extends_refl (l : MoveList) : wf_list l -> extends l l [].
Proof.
  intros Hwf. split; [exact Hwf |].
  rewrite app_nil_r, take_ge; [reflexivity |].
  rewrite ml_list_length by exact Hwf. destruct Hwf; lia.
Qed.

Lemma extends_trans (l l' l'' : MoveList) (o1 o2 : list Move) :
  extends l l' o1 -> extends l' l'' o2 -> extends l l'' (o1 ++ o2).
Proof.
  intros [_ H1] [Hwf H2]. split; [exact Hwf |].
  rewrite H2, H1, take_take_app, app_assoc. reflexivity.
Qed.

Lemma push_back_extends (l : MoveList) (m : Move) :
  wf_list l -> extends l (push_back l m) [m].
Proof.
  intros Hwf. pose proof (ml_list_length l Hwf) as Hlen.
  destruct Hwf as [Hslots Hc]. unfold push_back.
  destruct (Z.ltb_spec (ml_count l) 128) as [Hlt | Hge].
  - split; [split; simpl; [rewrite length_insert; exact Hslots | lia] |].
    unfold ml_list in *. simpl.
    replace (Z.to_nat (ml_count l + 1)) with (S (Z.to_nat (ml_count l))) by lia.
    rewrite (take_S_r _ _ m) by (apply list_lookup_insert_eq; lia).
    rewrite take_insert_ge by lia.
    symmetry. apply take_ge.
    rewrite length_app, Hlen. simpl. lia.
  - split; [split; [exact Hslots | lia] |].
    rewrite take_app_le by lia.
    rewrite take_ge by lia. reflexivity.
Qed.

Lemma fold_extends {A} (f : MoveList -> A -> MoveList) (g : A -> list Move) (xs : list A) :
  (forall l x, wf_list l -> extends l (f l x) (g x)) ->
  forall l, wf_list l -> extends l (fold_left f xs l) (flat_map g xs).
Proof.
  intros Hf. induction xs as [| x xs IH]; intros l Hwf; simpl.
  - apply extends_refl, Hwf.
  - eapply extends_trans; [apply Hf, Hwf |].
    apply IH. apply (Hf l x Hwf).
Qed.


(** * The capture enumerator pushes the chains of [emitted_chains] *)

Lemma acc_extends_refl (acc : MoveList * bool) :
  wf_list (fst acc) -> acc_extends acc acc ([], false).
Proof.
  intros Hwf. split; [apply extends_refl, Hwf |].
  simpl. symmetry. apply orb_false_r.
Qed.

Lemma acc_extends_trans (a a' a'' : MoveList * bool) (o1 o2 : list Move * bool) :
  acc_extends a a' o1 -> acc_extends a' a'' o2 ->
  acc_extends a a'' (fst o1 ++ fst o2, snd o1 || snd o2).
Proof.
  intros [H1 F1] [H2 F2]. split; simpl.
  - eapply extends_trans; eassumption.
  - rewrite F2, F1. symmetry. apply orb_assoc.
Qed.

Section CaptureRefinement.
Variable rec : list Z -> Z -> Z -> Z -> Move -> MoveList -> MoveList.
Variable chains_rec : list Z -> Z -> Z -> Z -> Move -> list Move.
Hypothesis Hrec : forall b r c p cur l,
  wf_list l -> extends l (rec b r c p cur l) (chains_rec b r c p cur).

Variables (board : list Z) (r c piece : Z) (cur : Move).

Lemma rec_step_extends (b : list Z) (jr jc : Z) (m : Move) (acc : MoveList * bool) :
  wf_list (fst acc) ->
  acc_extends acc (rec b jr jc piece m (fst acc), true) (chains_rec b jr jc piece m, true).
Proof.
  intros Hwf. split; simpl; [apply Hrec, Hwf |].
  symmetry. apply orb_true_r.
Qed.

Lemma man_capture_extends (dr dc : Z) (acc : MoveList * bool) :
  wf_list (fst acc) ->
  acc_extends acc (man_capture rec board r c piece cur dr dc acc)
                  (man_chains chains_rec board r c piece cur dr dc).
Proof.
  intros Hwf. unfold man_capture, man_chains.
  destruct (is_valid _ _); [| apply acc_extends_refl, Hwf].
  destruct (_ && _); [| apply acc_extends_refl, Hwf].
  apply rec_step_extends, Hwf.
Qed.

Lemma king_land_extends (n : nat) (dr dc nr nc : Z) :
  forall land_dist acc, wf_list (fst acc) ->
  acc_extends acc (king_land rec board r c piece cur n dr dc nr nc land_dist acc)
                  (land_chains chains_rec board r c piece cur n dr dc nr nc land_dist).
Proof.
  induction n as [| n IH]; intros land_dist acc Hwf; simpl.
  - apply acc_extends_refl, Hwf.
  - destruct (negb (is_valid _ _)); [apply acc_extends_refl, Hwf |].
    destruct (negb (_ =? EMPTY)); [apply acc_extends_refl, Hwf |].
    pose proof (rec_step_extends
      (jump_board board r c nr nc (nr + land_dist * dr) (nc + land_dist * dc) piece)
      (nr + land_dist * dr) (nc + land_dist * dc)
      (add_step cur (mkStep r c (nr + land_dist * dr) (nc + land_dist * dc))) acc Hwf) as H1.
    pose proof (IH (land_dist + 1) _ (proj1 (proj1 H1))) as H2.
    pose proof (acc_extends_trans _ _ _ _ _ H1 H2) as H3.
    simpl in H3. exact H3.
Qed.

Lemma king_scan_extends (n : nat) (dr dc : Z) :
  forall dist acc, wf_list (fst acc) ->
  acc_extends acc (king_scan rec board r c piece cur n dr dc dist acc)
                  (scan_chains chains_rec board r c piece cur n dr dc dist).
Proof.
  induction n as [| n IH]; intros dist acc Hwf; cbn [king_scan scan_chains].
  - apply acc_extends_refl, Hwf.
  - destruct (negb (is_valid _ _)); [apply acc_extends_refl, Hwf |].
    destruct (_ || _ || (_ =? GHOST)); [apply acc_extends_refl, Hwf |].
    destruct (_ || _).
    + apply king_land_extends, Hwf.
    + apply IH, Hwf.
Qed.

Lemma capture_dir_extends (d : Z * Z) (acc : MoveList * bool) :
  wf_list (fst acc) ->
  acc_extends acc (capture_dir rec board r c piece cur acc d)
                  (dir_chains chains_rec board r c piece cur d).
Proof.
  intros Hwf. unfold capture_dir, dir_chains.
  destruct (negb (is_king_piece piece)).
  - apply man_capture_extends, Hwf.
  - apply king_scan_extends, Hwf.
Qed.

Lemma capture_dirs_extends (ds : list (Z * Z)) :
  forall acc, wf_list (fst acc) ->
  acc_extends acc (fold_left (capture_dir rec board r c piece cur) ds acc)
    (concat (map fst (map (dir_chains chains_rec board r c piece cur) ds)),
     existsb snd (map (dir_chains chains_rec board r c piece cur) ds)).
Proof.
  induction ds as [| d ds IH]; intros acc Hwf; simpl.
  - apply acc_extends_refl, Hwf.
  - pose proof (capture_dir_extends d acc Hwf) as H1.
    exact (acc_extends_trans _ _ _ _ _ H1 (IH _ (proj1 (proj1 H1)))).
Qed.

Lemma capture_body_extends (moves : MoveList) :
  wf_list moves ->
  extends moves (capture_body rec board r c piece cur moves)
                (body_chains chains_rec board r c piece cur).
Proof.
  intros Hwf. unfold capture_body, body_chains. cbv zeta.
  destruct (capture_dirs_extends dirs (moves, false) Hwf) as [Hext Hfound].
  cbn [fst snd orb] in Hext, Hfound. rewrite Hfound.
  destruct (negb _ && _).
  - eapply extends_trans; [exact Hext |].
    apply push_back_extends, Hext.
  - exact Hext.
Qed.
End CaptureRefinement.

Lemma find_captures_extends (fuel : nat) :
  forall board r c piece cur moves, wf_list moves ->
  extends moves (find_captures_recursive fuel board r c piece cur moves)
                (emitted_chains fuel board r c piece cur).
Proof.
  induction fuel as [| fuel IH]; intros board r c piece cur moves Hwf; simpl.
  - apply extends_refl, Hwf.
  - destruct (12 <=? m_count cur).
    + apply push_back_extends, Hwf.
    + apply capture_body_extends; [exact IH | exact Hwf].
Qed.

Lemma capture_scan_extends (board : list Z) (player : Z) (moves : MoveList) :
  wf_list moves ->
  extends moves (capture_scan board player moves) (all_chains board player).
Proof.
  unfold capture_scan, all_chains. revert moves. apply fold_extends.
  intros l i Hwf. destruct (_ || _).
  - apply find_captures_extends, Hwf.
  - apply extends_refl, Hwf.
Qed.

(** * Shape of the emitted chains *)

Lemma add_step_prefix (cur : Move) (s : Step) :
  chain_prefix cur -> m_count cur < 12 -> jump_step s ->
  chain_prefix (add_step cur s) /\ 1 <= m_count (add_step cur s).
Proof.
  intros (Hc & Hlen & Hsteps) Hlt Hjump. unfold chain_prefix, add_step, step_at. simpl.
  repeat split; try lia.
  - rewrite length_insert. exact Hlen.
  - destruct (decide (i = m_count cur)) as [-> | Hne].
    + rewrite list_lookup_insert_eq by lia. apply Hjump.
    + rewrite list_lookup_insert_ne by lia. apply Hsteps. lia.
  - destruct (decide (i = m_count cur)) as [-> | Hne].
    + rewrite list_lookup_insert_eq by lia. apply Hjump.
    + rewrite list_lookup_insert_ne by lia. apply Hsteps. lia.
  - destruct (decide (i = m_count cur)) as [-> | Hne].
    + rewrite list_lookup_insert_eq by lia. apply Hjump.
    + rewrite list_lookup_insert_ne by lia. apply Hsteps. lia.
Qed.

Lemma prefix_shaped (cur : Move) :
  chain_prefix cur -> 1 <= m_count cur -> capture_shaped cur.
Proof. intros (Hc & Hlen & Hsteps) Hone. split; [lia |]. split; assumption. Qed.

Section ChainShape.
Variable chains_rec : list Z -> Z -> Z -> Z -> Move -> list Move.
Hypothesis Hrec : forall b r c p cur,
  is_valid r c = true -> chain_prefix cur -> 1 <= m_count cur ->
  Forall capture_shaped (chains_rec b r c p cur).

Variables (board : list Z) (r c piece : Z) (cur : Move).
Hypothesis Hrc : is_valid r c = true.
Hypothesis Hcur : chain_prefix cur.
Hypothesis Hroom : m_count cur < 12.

Lemma next_chains_shaped (b : list Z) (jr jc : Z) :
  is_valid jr jc = true -> 2 <= Z.abs (r - jr) ->
  Forall capture_shaped (chains_rec b jr jc piece (add_step cur (mkStep r c jr jc))).
Proof.
  intros Hj Hjump.
  destruct (add_step_prefix cur (mkStep r c jr jc) Hcur Hroom) as [Hp Hone];
    [repeat split; assumption |].
  apply Hrec; assumption.
Qed.

Lemma man_chains_shaped (dr dc : Z) :
  dr = 1 \/ dr = -1 ->
  Forall capture_shaped (fst (man_chains chains_rec board r c piece cur dr dc)).
Proof.
  intros Hdr. unfold man_chains. cbv zeta.
  destruct (is_valid (r + 2 * dr) (c + 2 * dc)) eqn:Hv; [| constructor].
  destruct (_ && _); [| constructor].
  simpl. apply next_chains_shaped; [exact Hv | lia].
Qed.

Lemma land_chains_shaped (n : nat) (dr dc nr nc : Z) :
  dr = 1 \/ dr = -1 -> (exists dist, 1 <= dist /\ nr = r + dist * dr) ->
  forall land_dist, 1 <= land_dist ->
  Forall capture_shaped
    (fst (land_chains chains_rec board r c piece cur n dr dc nr nc land_dist)).
Proof.
  intros Hdr (dist & Hdist & Hnr).
  induction n as [| n IH]; intros land_dist Hland; simpl; [constructor |].
  destruct (is_valid (nr + land_dist * dr) (nc + land_dist * dc)) eqn:Hv; [| constructor].
  destruct (negb (_ =? EMPTY)); [constructor |].
  simpl. apply Forall_app. split.
  - apply next_chains_shaped; [exact Hv | nia].
  - apply IH. lia.
Qed.

Lemma scan_chains_shaped (n : nat) (dr dc : Z) :
  dr = 1 \/ dr = -1 ->
  forall dist, 1 <= dist ->
  Forall capture_shaped (fst (scan_chains chains_rec board r c piece cur n dr dc dist)).
Proof.
  intros Hdr. induction n as [| n IH]; intros dist Hdist; cbn [scan_chains fst]; [constructor |].
  destruct (negb (is_valid _ _)); [constructor |].
  destruct (_ || _ || (_ =? GHOST)); [constructor |].
  destruct (_ || _).
  - apply land_chains_shaped; [exact Hdr | exists dist; split; [exact Hdist | reflexivity] | lia].
  - apply IH. lia.
Qed.

Lemma dir_chains_shaped (d : Z * Z) :
  In d dirs -> Forall capture_shaped (fst (dir_chains chains_rec board r c piece cur d)).
Proof.
  intros Hd. assert (fst d = 1 \/ fst d = -1) as Hdr.
  { unfold dirs in Hd. simpl in Hd. intuition (subst; simpl; lia). }
  unfold dir_chains. destruct (negb _).
  - apply man_chains_shaped, Hdr.
  - apply scan_chains_shaped; [exact Hdr | lia].
Qed.

Lemma body_chains_shaped :
  Forall capture_shaped (body_chains chains_rec board r c piece cur).
Proof.
  assert (Forall capture_shaped
            (concat (map fst (map (dir_chains chains_rec board r c piece cur) dirs)))) as Hall.
  { apply Forall_concat. rewrite List.Forall_forall. intros l Hl.
    apply in_map_iff in Hl as (o & <- & Ho).
    apply in_map_iff in Ho as (d & <- & Hd).
    apply dir_chains_shaped, Hd. }
  unfold body_chains. destruct (negb _ && (0 <? m_count cur)) eqn:Hemit; [| exact Hall].
  apply Forall_app. split; [exact Hall |].
  constructor; [| constructor].
  apply andb_true_iff in Hemit as [_ Hpos]. apply Z.ltb_lt in Hpos.
  apply prefix_shaped; [exact Hcur | lia].
Qed.
End ChainShape.

Lemma emitted_chains_shaped (fuel : nat) :
  forall board r c piece cur, is_valid r c = true -> chain_prefix cur ->
  Forall capture_shaped (emitted_chains fuel board r c piece cur).
Proof.
  induction fuel as [| fuel IH]; intros board r c piece cur Hrc Hcur; simpl; [constructor |].
  destruct (Z.leb_spec 12 (m_count cur)) as [Hfull | Hroom].
  - constructor; [| constructor]. apply prefix_shaped; [exact Hcur | lia].
  - apply body_chains_shaped; try assumption.
    intros b0 r0 c0 p0 cur0 Hv Hp _. apply IH; assumption.
Qed.

Lemma zero_move_prefix : chain_prefix zero_move.
Proof. split; [simpl; lia |]. split; [reflexivity |]. simpl. intros i Hi. lia. Qed.

Lemma square_on_board (i : Z) : In i (range 0 64) -> is_valid (i ÷ 8) (Z.rem i 8) = true.
Proof.
  revert i. apply (proj1 (forallb_forall (fun i => is_valid (i ÷ 8) (Z.rem i 8)) (range 0 64))).
  vm_compute. reflexivity.
Qed.

Lemma all_chains_shaped (board : list Z) (player : Z) :
  Forall capture_shaped (all_chains board player).
Proof.
  unfold all_chains. rewrite List.Forall_forall. intros m Hm.
  apply in_flat_map in Hm as (i & Hi & Hm).
  destruct (_ || _); [| destruct Hm].
  pose proof (emitted_chains_shaped 13 board (i ÷ 8) (Z.rem i 8) (bget board i) zero_move
                (square_on_board i Hi) zero_move_prefix) as Hall.
  rewrite List.Forall_forall in Hall. apply Hall, Hm.
Qed.

(** * Counting loops *)

Lemma range_snoc (lo : Z) (n : nat) : range lo (S n) = range lo n ++ [lo + Z.of_nat n].
Proof. unfold range. rewrite seq_S, map_app. reflexivity. Qed.

Lemma range_cons (lo : Z) (n : nat) : range lo (S n) = lo :: range (lo + 1) n.
Proof.
  unfold range. simpl. f_equal; [lia |].
  rewrite <- seq_shift, map_map. apply map_ext. intros k. lia.
Qed.

Lemma in_range (lo : Z) (n : nat) (i : Z) : In i (range lo n) <-> lo <= i < lo + Z.of_nat n.
Proof.
  unfold range. rewrite in_map_iff. split.
  - intros (k & <- & Hk). apply in_seq in Hk. lia.
  - intros Hi. exists (Z.to_nat (i - lo)). split; [lia |]. apply in_seq. lia.
Qed.

(** * Maximum-capture selection *)

Lemma max_steps_nonneg (l : list Move) : 0 <= max_steps l.
Proof. induction l as [| m l IH]; simpl; lia. Qed.

Lemma max_steps_snoc (l : list Move) (m : Move) :
  max_steps (l ++ [m]) = Z.max (max_steps l) (m_count m).
Proof.
  induction l as [| x l IH]; simpl.
  - lia.
  - fold (max_steps (l ++ [m])). fold (max_steps l). rewrite IH. lia.
Qed.

Lemma max_steps_bound (l : list Move) (m : Move) : In m l -> m_count m <= max_steps l.
Proof.
  induction l as [| x l IH]; simpl; [tauto |].
  intros [-> | Hin]; [lia |]. specialize (IH Hin). lia.
Qed.

Lemma move_at_lookup (l : MoveList) (n : nat) (m : Move) :
  ml_moves l !! n = Some m -> move_at l (Z.of_nat n) = m.
Proof. intros H. unfold move_at. rewrite Nat2Z.id, H. reflexivity. Qed.

Lemma max_capture_fold (l : MoveList) (n : nat) :
  (n <= length (ml_moves l))%nat ->
  fold_left (fun mx i => if m_count (move_at l i) >? mx then m_count (move_at l i) else mx)
    (range 0 n) 0 = max_steps (take n (ml_moves l)).
Proof.
  induction n as [| n IH]; intros Hn; [reflexivity |].
  destruct (lookup_lt_is_Some_2 (ml_moves l) n) as [m Hm]; [lia |].
  rewrite range_snoc, fold_left_app, IH by lia. cbn [fold_left]. rewrite Z.add_0_l.
  rewrite (take_S_r _ _ m Hm), max_steps_snoc, (move_at_lookup l n m Hm).
  pose proof (max_steps_nonneg (take n (ml_moves l))).
  destruct (Z.gtb_spec (m_count m) (max_steps (take n (ml_moves l)))); lia.
Qed.

Lemma max_capture_count_spec (l : MoveList) :
  wf_list l -> max_capture_count l = max_steps (ml_list l).
Proof.
  intros [Hlen Hc]. unfold max_capture_count, ml_list. apply max_capture_fold. lia.
Qed.

(** The compaction loop after [n] rounds: [w] moves kept in the first
    [w] slots, the slots from [n] on as they were. *)
Lemma compact_fold (mx : Z) (l : MoveList) (n : nat) :
  (n <= length (ml_moves l))%nat ->
  exists w : nat,
    snd (fold_left (compact_step mx) (range 0 n) (l, 0)) = Z.of_nat w /\
    (w <= n)%nat /\
    length (ml_moves (fst (fold_left (compact_step mx) (range 0 n) (l, 0))))
      = length (ml_moves l) /\
    take w (ml_moves (fst (fold_left (compact_step mx) (range 0 n) (l, 0))))
      = List.filter (fun m => m_count m =? mx) (take n (ml_moves l)) /\
    forall j, (n <= j)%nat ->
      ml_moves (fst (fold_left (compact_step mx) (range 0 n) (l, 0))) !! j = ml_moves l !! j.
Proof.
  induction n as [| n IH]; intros Hn.
  - exists 0%nat. simpl. repeat split; reflexivity || lia.
  - destruct IH as (w & Hw & Hwn & Hlen & Hkept & Hrest); [lia |].
    destruct (lookup_lt_is_Some_2 (ml_moves l) n) as [m Hm]; [lia |].
    rewrite range_snoc, fold_left_app. cbn [fold_left]. rewrite Z.add_0_l.
    set (acc := fold_left (compact_step mx) (range 0 n) (l, 0)) in *.
    assert (move_at (fst acc) (Z.of_nat n) = m) as Hread.
    { apply move_at_lookup. rewrite Hrest by lia. exact Hm. }
    assert (compact_step mx acc (Z.of_nat n)
            = if m_count m =? mx then (set_move (fst acc) (snd acc) m, snd acc + 1) else acc)
      as Hstep by (unfold compact_step; rewrite Hread; reflexivity).
    rewrite Hstep, (take_S_r _ _ m Hm), List.filter_app. simpl.
    destruct (m_count m =? mx).
    + exists (S w). cbn [fst snd set_move ml_moves]. rewrite Hw, Nat2Z.id.
      repeat split; try lia.
      * rewrite length_insert. exact Hlen.
      * rewrite (take_S_r _ _ m) by (apply list_lookup_insert_eq; lia).
        rewrite take_insert_ge by lia. rewrite Hkept. reflexivity.
      * intros j Hj. rewrite list_lookup_insert_ne by lia. apply Hrest. lia.
    + exists w. repeat split; try assumption; try lia.
      * rewrite Hkept, app_nil_r. reflexivity.
      * intros j Hj. apply Hrest. lia.
Qed.

Lemma keep_max_captures_spec (l : MoveList) :
  wf_list l ->
  wf_list (keep_max_captures l) /\
  ml_list (keep_max_captures l)
    = List.filter (fun m => m_count m =? max_steps (ml_list l)) (ml_list l).
Proof.
  intros Hwf. pose proof Hwf as [Hlen Hc].
  unfold keep_max_captures. rewrite (max_capture_count_spec l Hwf).
  destruct (compact_fold (max_steps (ml_list l)) l (Z.to_nat (ml_count l)))
    as (w & Hw & Hwn & Hlen' & Hkept & _); [lia |].
  cbv zeta. split.
  - split; cbn [set_count ml_moves ml_count]; [congruence | lia].
  - unfold ml_list at 1. cbn [set_count ml_moves ml_count].
    rewrite Hw, Nat2Z.id. exact Hkept.
Qed.


(** * Quiet moves *)

Lemma quiet_man_extends (board : list Z) (w : bool) (r c : Z) (l : MoveList) :
  wf_list l -> extends l (quiet_man board w r c l) (man_steps board w r c).
Proof.
  unfold quiet_man, man_steps. revert l. apply fold_extends.
  intros l dc Hwf. cbv zeta. destruct (_ && _).
  - apply push_back_extends, Hwf.
  - apply extends_refl, Hwf.
Qed.

Lemma quiet_slide_extends (n : nat) (board : list Z) (r c dr dc : Z) :
  forall dist l, wf_list l ->
  extends l (quiet_slide n board r c dr dc dist l) (slide_steps n board r c dr dc dist).
Proof.
  induction n as [| n IH]; intros dist l Hwf; simpl.
  - apply extends_refl, Hwf.
  - destruct (_ || _); [apply extends_refl, Hwf |].
    pose proof (push_back_extends l
      (single_step (mkStep r c (r + dist * dr) (c + dist * dc))) Hwf) as H1.
    exact (extends_trans _ _ _ _ _ H1 (IH (dist + 1) _ (proj1 H1))).
Qed.

Lemma quiet_king_extends (board : list Z) (r c : Z) (l : MoveList) :
  wf_list l -> extends l (quiet_king board r c l) (king_steps board r c).
Proof.
  unfold quiet_king, king_steps. revert l. apply fold_extends.
  intros l d Hwf. apply quiet_slide_extends, Hwf.
Qed.

Lemma quiet_scan_extends (board : list Z) (player : Z) (l : MoveList) :
  wf_list l -> extends l (quiet_scan board player l) (all_quiet board player).
Proof.
  unfold quiet_scan, all_quiet. revert l. apply fold_extends.
  intros l r. revert l. apply fold_extends.
  intros l c Hwf. cbv zeta.
  destruct (_ && _); [apply extends_refl, Hwf |].
  destruct (_ =? my_man_of player).
  - apply quiet_man_extends, Hwf.
  - apply quiet_king_extends, Hwf.
Qed.

Lemma is_valid_spec (r c : Z) : is_valid r c = true <-> 0 <= r < 8 /\ 0 <= c < 8.
Proof. unfold is_valid. rewrite !andb_true_iff, !Z.leb_le, !Z.ltb_lt. lia. Qed.

Lemma in_man_steps (board : list Z) (w : bool) (r c : Z) (m : Move) :
  In m (man_steps board w r c) <->
  exists nc, (nc = c - 1 \/ nc = c + 1) /\
    m = single_step (mkStep r c (r + (if w then -1 else 1)) nc) /\
    is_valid (r + (if w then -1 else 1)) nc = true /\
    bget board ((r + (if w then -1 else 1)) * 8 + nc) = EMPTY.
Proof.
  unfold man_steps. rewrite in_flat_map. split.
  - intros (dc & Hdc & Hm). cbv zeta in Hm.
    destruct (_ && _) eqn:Hok; [| destruct Hm].
    apply andb_true_iff in Hok as [Hv He]. apply Z.eqb_eq in He.
    destruct Hm as [<- | []]. exists (c + dc). simpl in Hdc.
    repeat split; try assumption. lia.
  - intros (nc & Hnc & -> & Hv & He). exists (nc - c). split.
    + simpl. lia.
    + cbv zeta. replace (c + (nc - c)) with nc by lia.
      rewrite Hv, He. simpl. left. reflexivity.
Qed.

Lemma in_slide_steps (n : nat) (board : list Z) (r c dr dc : Z) (m : Move) :
  forall dist,
  In m (slide_steps n board r c dr dc dist) <->
  exists d, dist <= d < dist + Z.of_nat n /\
    m = single_step (mkStep r c (r + d * dr) (c + d * dc)) /\
    forall k, dist <= k <= d ->
      is_valid (r + k * dr) (c + k * dc) = true /\
      bget board ((r + k * dr) * 8 + (c + k * dc)) = EMPTY.
Proof.
  induction n as [| n IH]; intros dist; simpl.
  - split; [tauto | intros (d & Hd & _); lia].
  - destruct (is_valid (r + dist * dr) (c + dist * dc)) eqn:Hv;
      [destruct (Z.eqb_spec (bget board ((r + dist * dr) * 8 + (c + dist * dc))) EMPTY)
         as [He | Hne] |]; simpl.
    + rewrite IH. split.
      * intros [<- | (d & Hd & Hm & Hall)].
        -- exists dist. split; [lia |]. split; [reflexivity |].
           intros k Hk. replace k with dist by lia. split; assumption.
        -- exists d. split; [lia |]. split; [exact Hm |].
           intros k Hk. destruct (decide (k = dist)) as [-> | Hkd]; [split; assumption |].
           apply Hall. lia.
      * intros (d & Hd & Hm & Hall).
        destruct (decide (d = dist)) as [-> | Hdd]; [left; symmetry; exact Hm |].
        right. exists d. split; [lia |]. split; [exact Hm |].
        intros k Hk. apply Hall. lia.
    + split; [tauto |]. intros (d & Hd & _ & Hall).
      destruct (Hall dist) as [_ He]; [lia | contradiction].
    + split; [tauto |]. intros (d & Hd & _ & Hall).
      destruct (Hall dist) as [Hv' _]; [lia | congruence].
Qed.

Lemma my_man_not_king (player : Z) : my_man_of player <> my_king_of player.
Proof. unfold my_man_of, my_king_of. destruct (is_white_piece player); discriminate. Qed.

Lemma all_quiet_legal (board : list Z) (player : Z) (m : Move) :
  In m (all_quiet board player) <-> legal_quiet board player m.
Proof.
  unfold all_quiet, legal_quiet. rewrite in_flat_map. split.
  - intros (r & Hr & Hm). apply in_flat_map in Hm as (c & Hc & Hm).
    apply in_range in Hr. apply in_range in Hc. cbv zeta in Hm.
    assert (is_valid r c = true) as Hrc by (apply is_valid_spec; lia).
    destruct (Z.eqb_spec (bget board (r * 8 + c)) (my_man_of player)) as [Hman | Hnman];
      [| destruct (Z.eqb_spec (bget board (r * 8 + c)) (my_king_of player))
           as [Hking | Hnking]]; simpl in Hm.
    + apply in_man_steps in Hm as (nc & Hnc & -> & Hv & He).
      exists r, c, (r + (if is_white_piece player then -1 else 1)), nc.
      split; [reflexivity |]. split; [exact Hrc |]. left. tauto.
    + unfold king_steps in Hm. apply in_flat_map in Hm as ([dr dc] & Hd & Hm).
      apply in_slide_steps in Hm as (d & Hd' & -> & Hall).
      exists r, c, (r + d * dr), (c + d * dc).
      split; [reflexivity |]. split; [exact Hrc |]. right.
      split; [exact Hking |]. exists dr, dc, d. simpl in Hall.
      repeat split; try assumption; try lia; apply Hall; assumption.
    + destruct Hm.
  - intros (r & c & nr & nc & -> & Hrc & Hcase).
    apply is_valid_spec in Hrc. exists r. split; [apply in_range; lia |].
    apply in_flat_map. exists c. split; [apply in_range; lia |]. cbv zeta.
    destruct Hcase as [(Hman & -> & Hnc & Hv & He) | (Hking & dr & dc & d & Hd & Hd1 & -> & -> & Hall)].
    + rewrite Hman, Z.eqb_refl. simpl.
      apply in_man_steps. exists nc. tauto.
    + rewrite Hking.
      destruct (Z.eqb_spec (my_king_of player) (my_man_of player)) as [Heq | _];
        [symmetry in Heq; destruct (my_man_not_king player Heq) |].
      rewrite Z.eqb_refl. simpl.
      unfold king_steps. apply in_flat_map. exists (dr, dc). split; [exact Hd |].
      apply in_slide_steps. exists d. simpl.
      split; [| split; [reflexivity | exact Hall]].
      destruct (Hall d) as [Hv _]; [lia |]. apply is_valid_spec in Hv.
      assert (dr = 1 \/ dr = -1) as Hdr.
      { unfold dirs in Hd. simpl in Hd. intuition congruence. }
      nia.
Qed.


(** * [generate_moves] *)

Lemma ml_list_nil (l : MoveList) : wf_list l -> (ml_list l = [] <-> ml_count l = 0).
Proof.
  intros Hwf. pose proof (ml_list_length l Hwf) as Hlen. destruct Hwf as [_ Hc]. split.
  - intros H. rewrite H in Hlen. simpl in Hlen. lia.
  - intros H. apply length_zero_iff_nil. lia.
Qed.

Lemma capture_scan_list (board : list Z) (player : Z) :
  wf_list (capture_scan board player (clear new_movelist)) /\
  ml_list (capture_scan board player (clear new_movelist)) = take 128 (all_chains board player).
Proof. exact (capture_scan_extends board player _ wf_new_movelist). Qed.

Lemma generate_moves_cases (board : list Z) (player : Z) :
  wf_list (generate_moves board player) /\
  (ml_list (capture_scan board player (clear new_movelist)) <> [] ->
   ml_list (generate_moves board player)
     = List.filter (fun m => m_count m =?
                               max_steps (ml_list (capture_scan board player (clear new_movelist))))
         (ml_list (capture_scan board player (clear new_movelist)))) /\
  (ml_list (capture_scan board player (clear new_movelist)) = [] ->
   ml_list (generate_moves board player) = take 128 (all_quiet board player)).
Proof.
  destruct (capture_scan_list board player) as [Hwf Hcaps].
  pose proof (ml_list_nil _ Hwf) as Hnil.
  unfold generate_moves. cbv zeta.
  destruct (Z.gtb_spec (ml_count (capture_scan board player (clear new_movelist))) 0)
    as [Hpos | Hzero].
  - destruct (keep_max_captures_spec _ Hwf) as [Hwf' Hkeep].
    split; [exact Hwf' |]. split; [intros _; exact Hkeep |].
    intros Hempty. apply Hnil in Hempty. lia.
  - assert (ml_list (capture_scan board player (clear new_movelist)) = []) as Hempty
      by (apply Hnil; destruct Hwf; lia).
    destruct (quiet_scan_extends board player _ Hwf) as [Hwf' Hq].
    split; [exact Hwf' |]. split; [intros Hne; contradiction |].
    intros _. rewrite Hq, Hempty. reflexivity.
Qed.

Lemma captures_shaped (board : list Z) (player : Z) :
  Forall capture_shaped (ml_list (capture_scan board player (clear new_movelist))).
Proof.
  rewrite (proj2 (capture_scan_list board player)).
  apply Forall_take, all_chains_shaped.
Qed.

Lemma all_quiet_single (board : list Z) (player : Z) :
  Forall (fun m => m_count m = 1) (all_quiet board player).
Proof.
  rewrite List.Forall_forall. intros m Hm.
  apply all_quiet_legal in Hm as (r & c & nr & nc & -> & _). reflexivity.
Qed.

Lemma generate_moves_step_counts (board : list Z) (player : Z) :
  Forall (fun m => 1 <= m_count m <= 12) (ml_list (generate_moves board player)).
Proof.
  destruct (generate_moves_cases board player) as (_ & Hcap & Hquiet).
  destruct (ml_list (capture_scan board player (clear new_movelist))) as [| m0 rest] eqn:Hcaps.
  - rewrite Hquiet by reflexivity. apply Forall_take.
    eapply Forall_impl; [apply all_quiet_single |]. simpl. intros m Hm. lia.
  - rewrite Hcap by discriminate. rewrite <- Hcaps.
    rewrite List.Forall_forall. intros m Hm. apply filter_In in Hm as [Hm _].
    pose proof (captures_shaped board player) as Hall.
    rewrite List.Forall_forall in Hall. apply (Hall m Hm).
Qed.

(** C1 (as amended).  [generate_moves] enforces forced maximum capture
    over the moves its 128-slot list holds.  The list after the capture
    scan is the first 128 chains the enumerator emits.  If it is not
    empty, the result is exactly its chains whose step count equals the
    largest step count in it, in order (so no quiet move is returned).
    If it is empty, the result is the first 128 legal quiet moves in
    scan order: all of them when there are at most 128, where a legal
    quiet move is a man's diagonal step forward to an empty square or a
    king's slide over empty squares ([legal_quiet]). *)
Theorem generate_moves_forced_capture (board : list Z) (player : Z) :
  ml_list (capture_scan board player (clear new_movelist)) = take 128 (all_chains board player) /\
  (ml_list (capture_scan board player (clear new_movelist)) <> [] ->
   ml_list (generate_moves board player)
     = List.filter (fun m => m_count m =?
                               max_steps (ml_list (capture_scan board player (clear new_movelist))))
         (ml_list (capture_scan board player (clear new_movelist)))) /\
  (ml_list (capture_scan board player (clear new_movelist)) = [] ->
   ml_list (generate_moves board player) = take 128 (all_quiet board player) /\
   ((length (all_quiet board player) <= 128)%nat ->
    forall m, In m (ml_list (generate_moves board player)) <-> legal_quiet board player m)) /\
  (forall m, In m (all_quiet board player) <-> legal_quiet board player m).
Proof.
  destruct (generate_moves_cases board player) as (_ & Hcap & Hquiet).
  split; [apply capture_scan_list |]. split; [exact Hcap |].
  split; [| apply all_quiet_legal].
  intros Hnone. split; [apply Hquiet, Hnone |].
  intros Hfew m. rewrite (Hquiet Hnone), take_ge by exact Hfew. apply all_quiet_legal.
Qed.

(** C1 as stated fails once more than 128 quiet moves exist: with white
    kings on the whole rim no capture exists and there are 144 quiet
    moves; the list holds 128 of them, and the slide of the king on
    (7,7) to (1,1), a legal quiet move, is not among them. *)
Lemma generate_moves_drops_quiet_move :
  ml_list (capture_scan edge_kings WHITE_MAN (clear new_movelist)) = [] /\
  length (all_quiet edge_kings WHITE_MAN) = 144%nat /\
  ml_count (generate_moves edge_kings WHITE_MAN) = 128 /\
  legal_quiet edge_kings WHITE_MAN (single_step (mkStep 7 7 1 1)) /\
  ~ In (single_step (mkStep 7 7 1 1)) (ml_list (generate_moves edge_kings WHITE_MAN)).
Proof.
  split; [vm_compute; reflexivity |].
  split; [vm_compute; reflexivity |].
  split; [vm_compute; reflexivity |]. split.
  - apply all_quiet_legal. apply list_elem_of_In.
    apply (bool_decide_unpack _). vm_compute. exact I.
  - intros H. apply list_elem_of_In in H.
    apply (bool_decide_pack _) in H. vm_compute in H. exact H.
Qed.


(** * Transposition table probe *)


(** A stored exact score comes back from a probe at any depth up to
    the stored one, unless a deeper entry of the same key kept its slot. *)
Lemma tt_save_then_probe (table : gmap Z TTEntry) (key score depth d alpha beta : Z)
    (best_move tt_move : Move) :
  tt_key (tt_at table (key `mod` TT_SIZE)) <> key \/
    tt_depth (tt_at table (key `mod` TT_SIZE)) <= depth ->
  d <= depth ->
  tt_probe (tt_save table key score depth TT_EXACT best_move) key d alpha beta tt_move
  = (Some (mate_shift score), best_move).
Proof.
  intros Hrepl Hd. unfold tt_save. cbv zeta.
  assert (negb (tt_key (tt_at table (key `mod` TT_SIZE)) =? key)
          || (depth >=? tt_depth (tt_at table (key `mod` TT_SIZE))) = true) as ->.
  { apply orb_true_iff. destruct Hrepl as [Hk | Hdep].
    - left. apply negb_true_iff, Z.eqb_neq, Hk.
    - right. apply Z.geb_le, Hdep. }
  unfold tt_probe, tt_at. cbv zeta. rewrite lookup_insert_eq. simpl.
  rewrite Z.eqb_refl. destruct (Z.geb_spec depth d); [reflexivity | lia].
Qed.

Lemma tt_save_kept (table : gmap Z TTEntry) (key score depth flag : Z) (best_move : Move) :
  tt_key (tt_at table (key `mod` TT_SIZE)) = key ->
  depth < tt_depth (tt_at table (key `mod` TT_SIZE)) ->
  tt_save table key score depth flag best_move = table.
Proof.
  intros Hk Hd. unfold tt_save. cbv zeta. rewrite Hk, Z.eqb_refl. simpl.
  destruct (Z.geb_spec depth (tt_depth (tt_at table (key `mod` TT_SIZE)))); [lia | reflexivity].
Qed.

(** * Alpha-beta *)

Section SearchFacts.
Variable zobrist_table : Z -> Z -> Z.
Variable zobrist_black_move : Z.
Variable expired : Z -> bool.

Lemma tick_stopped (st : SearchState) :
  stop_search st = true -> tick expired st = with_nodes st (nodes_visited st + 1).
Proof.
  intros Hstop. unfold tick. cbv zeta.
  destruct (Z.land _ 2047 =? 0); [| reflexivity].
  destruct (expired _); [| reflexivity].
  destruct st; simpl in *. subst. reflexivity.
Qed.

(** C5.  Once [stop_search] is set, a call of [alpha_beta] returns 0
    whatever the board, depth, window, side and ply; of the globals only
    the node counter has changed (by one), so no table was written, and
    one level of recursion fuel suffices, so nothing was searched. *)
Theorem alpha_beta_stopped (fuel : nat) (board : list Z) (depth alpha beta player ply : Z)
    (do_null : bool) (st : SearchState) :
  stop_search st = true ->
  alpha_beta zobrist_table zobrist_black_move expired (S fuel)
    board depth alpha beta player ply do_null st
    = Some (0, with_nodes st (nodes_visited st + 1)).
Proof.
  intros Hstop. cbn [alpha_beta]. unfold alpha_beta_body. cbv zeta.
  rewrite (tick_stopped st Hstop).
  change (stop_search (with_nodes st (nodes_visited st + 1))) with (stop_search st).
  rewrite Hstop. reflexivity.
Qed.


(** C6.  With no legal move at the root, [get_best_move] writes
    [count = 0] and [score = -MATE], leaves the other fields of the
    result as they were, and returns without searching: for any fuel
    and depth cap, with the globals as [init_memory] left them. *)
Theorem get_best_move_no_moves (fuel : nat) (board : list Z) (player max_depth : Z)
    (result : MoveResult) (st : SearchState) :
  ml_count (generate_moves board player) = 0 ->
  get_best_move zobrist_table zobrist_black_move expired fuel board player max_depth result st
    = Some (mkResult (res_steps result) 0 (- MATE) (res_depth result) (res_nodes result),
            init_memory st).
Proof.
  intros Hnone. unfold get_best_move. cbv zeta. rewrite Hnone. reflexivity.
Qed.

(** C7.  With exactly one legal root move, [get_best_move] returns
    that move with [score = 0], [depth = 1] and [nodes = 0], without
    iterative deepening: for any fuel and depth cap, with the globals
    as [init_memory] left them. *)
Theorem get_best_move_forced (fuel : nat) (board : list Z) (player max_depth : Z)
    (result : MoveResult) (st : SearchState) :
  ml_count (generate_moves board player) = 1 ->
  get_best_move zobrist_table zobrist_black_move expired fuel board player max_depth result st
    = Some (mkResult (m_steps (move_at (generate_moves board player) 0))
                     (m_count (move_at (generate_moves board player) 0)) 0 1 0,
            init_memory st).
Proof.
  intros Hone. unfold get_best_move. cbv zeta. rewrite Hone. reflexivity.
Qed.

Lemma history_at_insert (st : SearchState) (h : gmap (Z * Z * Z) Z) (k k' : Z * Z * Z) (v : Z) :
  history_at (with_history st (<[k := v]> h)) (fst (fst k')) (snd (fst k')) (snd k')
  = if decide (k = k') then v
    else default 0 (h !! k').
Proof.
  unfold history_at, with_history. simpl. destruct k' as [[s f] t]. simpl.
  rewrite lookup_insert. destruct (decide (k = (s, f, t))); reflexivity.
Qed.

(** A side without a legal move is mated at this ply. *)
Lemma alpha_beta_no_moves (fuel : nat) (board : list Z) (depth alpha beta player ply : Z)
    (do_null : bool) (st : SearchState) :
  stop_search (tick expired st) = false ->
  ml_count (generate_moves board player) = 0 ->
  alpha_beta zobrist_table zobrist_black_move expired (S fuel)
    board depth alpha beta player ply do_null st
  = Some (- MATE + ply, tick expired st).
Proof.
  intros Hrun Hnone. cbn [alpha_beta]. unfold alpha_beta_body. cbv zeta.
  rewrite Hrun, Hnone. reflexivity.
Qed.
End SearchFacts.


(** * Move equality *)

Lemma move_eq_spec (m other : Move) :
  move_eq m other = true <->
  m_count m = m_count other /\
  (m_count m <> 0 ->
   r1 (step_at m 0) = r1 (step_at other 0) /\ c1 (step_at m 0) = c1 (step_at other 0) /\
   r2 (step_at m (m_count m - 1)) = r2 (step_at other (m_count m - 1)) /\
   c2 (step_at m (m_count m - 1)) = c2 (step_at other (m_count m - 1))).
Proof.
  unfold move_eq.
  destruct (Z.eqb_spec (m_count m) (m_count other)) as [Hc | Hc]; simpl;
    [| split; [discriminate | tauto]].
  destruct (Z.eqb_spec (m_count m) 0) as [H0 | H0]; [tauto |].
  rewrite !andb_true_iff, !Z.eqb_eq. tauto.
Qed.

(** C9.  [Move::operator==] holds exactly when the step counts agree
    and, for a non-empty move, so do the first step's source and the
    last step's destination.  A move that compares equal to the TT best
    move scores 2000000, and one that compares equal to a killer read
    from the table gets the killer's score, whatever steps lie between.
    The two chains of
    [twin_board] are distinct generated captures of equal length, origin
    and landing square that compare equal both ways. *)
Theorem move_eq_endpoints_only (m other : Move) :
  (move_eq m other = true <->
   m_count m = m_count other /\
   (m_count m <> 0 ->
    r1 (step_at m 0) = r1 (step_at other 0) /\ c1 (step_at m 0) = c1 (step_at other 0) /\
    r2 (step_at m (m_count m - 1)) = r2 (step_at other (m_count m - 1)) /\
    c2 (step_at m (m_count m - 1)) = c2 (step_at other (m_count m - 1)))) /\
  (move_eq m other = true ->
   forall st ply, score_move_ordering st m other ply = Some 2000000) /\
  (move_eq m other = true ->
   forall st ply tt_best,
     move_eq m tt_best = false ->
     (m_count m >? 0) && (Z.abs (r1 (step_at m 0) - r2 (step_at m (m_count m - 1))) >? 2) = false ->
     (r2 (step_at m (m_count m - 1)) =? 0) || (r2 (step_at m (m_count m - 1)) =? 7) = false ->
     (killer_at st ply 0 = Some other -> score_move_ordering st m tt_best ply = Some 900000) /\
     (forall k0, killer_at st ply 0 = Some k0 -> move_eq m k0 = false ->
      killer_at st ply 1 = Some other ->
      score_move_ordering st m tt_best ply = Some 800000)) /\
  (In twin_left (ml_list (generate_moves twin_board WHITE_MAN)) /\
   In twin_right (ml_list (generate_moves twin_board WHITE_MAN)) /\
   twin_left <> twin_right /\ m_count twin_left = 4 /\
   move_eq twin_left twin_right = true /\ move_eq twin_right twin_left = true).
Proof.
  split; [apply move_eq_spec |]. split; [| split].
  - intros Heq st ply. unfold score_move_ordering. rewrite Heq. reflexivity.
  - intros Heq st ply tt_best Htt Hlong Hpromo. unfold score_move_ordering.
    rewrite Htt, Hlong, Hpromo. split.
    + intros ->. cbn [mbind option_bind]. rewrite Heq. reflexivity.
    + intros k0 -> Hk0 ->. cbn [mbind option_bind]. rewrite Hk0, Heq. reflexivity.
  - vm_compute. repeat split; auto. discriminate.
Qed.


(** C10.  [push_back] leaves a list that holds 128 moves unchanged.
    A list produced by [generate_moves] has a count between 0 and 128:
    it holds the first 128 of the chains emitted, or without captures
    the first 128 quiet moves, the rest being dropped.  Every move of
    the result has between 1 and 12 steps. *)
Theorem move_list_capacity (l : MoveList) (m : Move) (board : list Z) (player : Z) :
  (128 <= ml_count l -> push_back l m = l) /\
  0 <= ml_count (generate_moves board player) <= 128 /\
  ml_list (capture_scan board player (clear new_movelist)) = take 128 (all_chains board player) /\
  (ml_list (capture_scan board player (clear new_movelist)) = [] ->
   ml_list (generate_moves board player) = take 128 (all_quiet board player)) /\
  Forall (fun m => 1 <= m_count m <= 12) (ml_list (generate_moves board player)).
Proof.
  destruct (generate_moves_cases board player) as ([_ Hcount] & _ & Hquiet).
  split; [| split; [exact Hcount | split; [apply capture_scan_list | split]]].
  - intros Hfull. unfold push_back. destruct (Z.ltb_spec (ml_count l) 128); [lia | reflexivity].
  - exact Hquiet.
  - apply generate_moves_step_counts.
Qed.

(** * Move application *)

Lemma bget_bset_same (board : list Z) (i : Z) : bget (bset board i EMPTY) i = EMPTY.
Proof.
  unfold bget, bset. destruct (i <? 0); [reflexivity |].
  destruct (decide (Z.to_nat i < length board)%nat) as [Hlt | Hge].
  - rewrite list_lookup_insert_eq by exact Hlt. reflexivity.
  - rewrite list_insert_ge by lia. rewrite lookup_ge_None_2 by lia. reflexivity.
Qed.

Lemma bget_bset_empty (board : list Z) (i j : Z) :
  bget board i = EMPTY -> bget (bset board j EMPTY) i = EMPTY.
Proof.
  intros Hi. destruct (decide (i = j)) as [-> | Hne]; [apply bget_bset_same |].
  unfold bget, bset in *. destruct (i <? 0) eqn:Hneg; [reflexivity |].
  destruct (j <? 0) eqn:Hj; [exact Hi |].
  apply Z.ltb_ge in Hneg. apply Z.ltb_ge in Hj.
  rewrite list_lookup_insert_ne by lia. exact Hi.
Qed.

Lemma capture_walk_keeps_empty (n : nat) (i : Z) :
  forall board curr_r curr_c er dr dc captured board' captured',
  capture_walk n board curr_r curr_c er dr dc captured = Some (board', captured') ->
  bget board i = EMPTY -> bget board' i = EMPTY.
Proof.
  induction n as [| n IH]; intros board curr_r curr_c er dr dc captured board' captured' Hw Hi;
    simpl in Hw; [discriminate |].
  destruct (curr_r =? er); [injection Hw as <- _; exact Hi |].
  destruct (negb _).
  - eapply IH; [exact Hw |]. apply bget_bset_empty, Hi.
  - eapply IH; [exact Hw | exact Hi].
Qed.

(** The walk has no [break]: when it ends, every square it passed is
    empty, however many pieces stood there. *)
Lemma capture_walk_clears_all (n : nat) :
  forall board curr_r curr_c er dr dc captured board' captured' k,
  capture_walk n board curr_r curr_c er dr dc captured = Some (board', captured') ->
  0 <= k -> (forall j, 0 <= j <= k -> curr_r + j * dr <> er) ->
  bget board' ((curr_r + k * dr) * 8 + (curr_c + k * dc)) = EMPTY.
Proof.
  induction n as [| n IH];
    intros board curr_r curr_c er dr dc captured board' captured' k Hw Hk Hbefore;
    simpl in Hw; [discriminate |].
  destruct (Z.eqb_spec curr_r er) as [Heq | Hne].
  { specialize (Hbefore 0). lia. }
  destruct (decide (k = 0)) as [-> | Hpos].
  - replace (curr_r + 0 * dr) with curr_r by lia.
    replace (curr_c + 0 * dc) with curr_c by lia.
    destruct (bget board (curr_r * 8 + curr_c) =? EMPTY) eqn:He; simpl in Hw.
    + apply Z.eqb_eq in He. eapply capture_walk_keeps_empty; eassumption.
    + eapply capture_walk_keeps_empty; [exact Hw | apply bget_bset_same].
  - replace (curr_r + k * dr) with ((curr_r + dr) + (k - 1) * dr) by lia.
    replace (curr_c + k * dc) with ((curr_c + dc) + (k - 1) * dc) by lia.
    assert (forall j, 0 <= j <= k - 1 -> curr_r + dr + j * dr <> er) as Hbefore'.
    { intros j Hj. specialize (Hbefore (j + 1)). lia. }
    destruct (negb _); eapply IH; try exact Hw; try lia; exact Hbefore'.
Qed.

(** Without the capture test nothing is walked: the piece moves, and a
    man reaching the far row is crowned. *)
Lemma apply_move_without_capture (board : list Z) (m : Move) (player captured : Z) :
  Z.abs (r1 (step_at m 0) - r2 (step_at m (m_count m - 1))) < 2 -> m_count m <= 1 ->
  apply_move board m player captured
  = let from := r1 (step_at m 0) * 8 + c1 (step_at m 0) in
    let to := r2 (step_at m (m_count m - 1)) * 8 + c2 (step_at m (m_count m - 1)) in
    let piece := bget board from in
    let moved := bset (bset board from EMPTY) to piece in
    let crowned :=
      if (piece =? WHITE_MAN) && (r2 (step_at m (m_count m - 1)) =? 0)
      then bset moved to WHITE_KING else moved in
    Some (if (piece =? BLACK_MAN) && (r2 (step_at m (m_count m - 1)) =? 7)
          then bset crowned to BLACK_KING else crowned, captured).
Proof.
  intros Hnear Hone. unfold apply_move. cbv zeta.
  destruct (Z.geb_spec (Z.abs (r1 (step_at m 0) - r2 (step_at m (m_count m - 1)))) 2); [lia |].
  destruct (Z.gtb_spec (m_count m) 1); [lia |]. reflexivity.
Qed.

(** C2 fails on a generated move.  The crossing chain is one of the
    moves [generate_moves] returns for [crossing_board].  [apply_move]
    puts the king on its final square (5,4) before it walks the steps;
    the walk of the first step, from (7,2) to (3,6), meets the man on
    (6,3) and then the king itself on (5,4) and clears both.  The board
    ends up empty: the mover is gone. *)
Example apply_move_erases_the_mover :
  let placed := bset (bset crossing_board (7*8+2) EMPTY) (5*8+4) WHITE_KING in
  In crossing_move (ml_list (generate_moves crossing_board WHITE_MAN)) /\
  capture_walk 8 placed 6 3 3 (-1) 1 0
    = Some (bset (bset placed (6*8+3) EMPTY) (5*8+4) EMPTY, WHITE_KING) /\
  apply_move crossing_board crossing_move WHITE_MAN 0 = Some (replicate 64 EMPTY, BLACK_MAN).
Proof. vm_compute. repeat split; auto. Qed.


Lemma bset_length (board : list Z) (i v : Z) : length (bset board i v) = length board.
Proof. unfold bset. destruct (i <? 0); [reflexivity | apply length_insert]. Qed.

Lemma bget_bset_eq (board : list Z) (i v : Z) :
  0 <= i < Z.of_nat (length board) -> bget (bset board i v) i = v.
Proof.
  intros Hi. unfold bget, bset. destruct (Z.ltb_spec i 0); [lia |].
  rewrite list_lookup_insert_eq by lia. reflexivity.
Qed.

Lemma bget_bset_ne (board : list Z) (i j v : Z) :
  i <> j -> bget (bset board j v) i = bget board i.
Proof.
  intros Hne. unfold bget, bset. destruct (Z.ltb_spec i 0); [reflexivity |].
  destruct (Z.ltb_spec j 0); [reflexivity |].
  rewrite list_lookup_insert_ne by lia. reflexivity.
Qed.

Lemma capture_walk_length (n : nat) :
  forall board curr_r curr_c er dr dc captured board' captured',
  capture_walk n board curr_r curr_c er dr dc captured = Some (board', captured') ->
  length board' = length board.
Proof.
  induction n as [| n IH]; intros board curr_r curr_c er dr dc captured board' captured' Hw;
    simpl in Hw; [discriminate |].
  destruct (curr_r =? er); [injection Hw as <- _; reflexivity |].
  destruct (negb _).
  - rewrite (IH _ _ _ _ _ _ _ _ _ Hw). apply bset_length.
  - exact (IH _ _ _ _ _ _ _ _ _ Hw).
Qed.

Lemma apply_steps_length (m : Move) (idx : list Z) :
  forall acc board' captured',
  fold_left (apply_step m) idx acc = Some (board', captured') ->
  exists board captured, acc = Some (board, captured) /\ length board' = length board.
Proof.
  induction idx as [| i idx IH]; intros acc board' captured' Hf; simpl in Hf.
  - exists board', captured'. split; [exact Hf | reflexivity].
  - destruct (IH _ _ _ Hf) as (b1 & c1 & Hstep & Hlen).
    destruct acc as [[board captured] |]; [| discriminate Hstep].
    exists board, captured. split; [reflexivity |].
    unfold apply_step in Hstep. cbn [mbind option_bind] in Hstep. cbv zeta in Hstep.
    rewrite Hlen. exact (capture_walk_length _ _ _ _ _ _ _ _ _ _ Hstep).
Qed.

(** * Men on the board

    A move adds no man to the board, and a promotion takes one away. *)

Lemma man_weight_range (p : Z) : 0 <= man_weight p <= 1.
Proof. unfold man_weight. destruct (_ || _); lia. Qed.

Lemma men_on_cons (x : Z) (b : list Z) : men_on (x :: b) = man_weight x + men_on b.
Proof. reflexivity. Qed.

Lemma men_on_insert (b : list Z) :
  forall (n : nat) (v : Z), (n < length b)%nat ->
  men_on (<[n := v]> b) = men_on b - man_weight (default 0 (b !! n)) + man_weight v.
Proof.
  induction b as [| x b IH]; intros n v Hn; [simpl in Hn; lia |].
  destruct n as [| n].
  - change (<[0%nat := v]> (x :: b)) with (v :: b). rewrite !men_on_cons.
    change (default 0 ((x :: b) !! 0%nat)) with x. lia.
  - change (<[S n := v]> (x :: b)) with (x :: <[n := v]> b). rewrite !men_on_cons.
    change ((x :: b) !! S n) with (b !! n).
    rewrite IH by (simpl in Hn; lia). lia.
Qed.

Lemma men_on_bset (b : list Z) (i v : Z) :
  men_on (bset b i v) + man_weight (bget b i)
  = men_on b + (if decide (0 <= i < Z.of_nat (length b)) then man_weight v else 0).
Proof.
  unfold bset, bget. destruct (Z.ltb_spec i 0) as [Hneg | Hpos].
  - destruct (decide _); [lia | reflexivity].
  - destruct (decide (0 <= i < Z.of_nat (length b))) as [Hin | Hout].
    + rewrite men_on_insert by lia. lia.
    + rewrite list_insert_ge by lia. rewrite lookup_ge_None_2 by lia. reflexivity.
Qed.

Lemma men_on_bset_le (b : list Z) (i v : Z) : men_on (bset b i v) <= men_on b + man_weight v.
Proof.
  pose proof (men_on_bset b i v) as H. pose proof (man_weight_range (bget b i)).
  pose proof (man_weight_range v). destruct (decide _); lia.
Qed.

Lemma men_on_bset_take (b : list Z) (i : Z) :
  men_on (bset b i EMPTY) + man_weight (bget b i) = men_on b.
Proof.
  pose proof (men_on_bset b i EMPTY) as H. change (man_weight EMPTY) with 0 in H.
  destruct (decide _); lia.
Qed.

Lemma men_on_pointwise (b : list Z) :
  forall b', length b' = length b ->
  (forall k, man_weight (bget b' k) <= man_weight (bget b k)) ->
  men_on b' <= men_on b.
Proof.
  assert (forall b b' : list Z, length b' = length b ->
            (forall n : nat, man_weight (default 0 (b' !! n)) <= man_weight (default 0 (b !! n))) ->
            men_on b' <= men_on b) as Hnat.
  { clear b. induction b as [| x b IH]; intros [| x' b'] Hlen Hall; try discriminate Hlen.
    - reflexivity.
    - rewrite !men_on_cons.
      pose proof (Hall 0%nat) as H0.
      change (default 0 ((x' :: b') !! 0%nat)) with x' in H0.
      change (default 0 ((x :: b) !! 0%nat)) with x in H0.
      assert (men_on b' <= men_on b) as Hrest.
      { apply IH; [simpl in Hlen; lia |]. intros n. exact (Hall (S n)). }
      lia. }
  intros b' Hlen Hall. apply Hnat; [exact Hlen |].
  intros n. specialize (Hall (Z.of_nat n)). unfold bget in Hall.
  destruct (Z.ltb_spec (Z.of_nat n) 0); [lia |].
  rewrite Nat2Z.id in Hall. exact Hall.
Qed.

Lemma bget_bset_cases (b : list Z) (i k v : Z) :
  bget (bset b i v) k = bget b k \/ (k = i /\ bget (bset b i v) k = v).
Proof.
  destruct (decide (k = i)) as [-> | Hne]; [| left; apply bget_bset_ne, Hne].
  destruct (decide (0 <= i < Z.of_nat (length b))) as [Hin | Hout].
  - right. split; [reflexivity | apply bget_bset_eq, Hin].
  - left. unfold bget, bset. destruct (Z.ltb_spec i 0); [reflexivity |].
    rewrite list_insert_ge by lia. reflexivity.
Qed.

Section Clearing.
(** A property of boards that clearing a square keeps. *)
Variable Inv : list Z -> Prop.
Hypothesis Inv_clear : forall b i, Inv b -> Inv (bset b i EMPTY).

Lemma capture_walk_inv (n : nat) :
  forall board curr_r curr_c er dr dc captured board' captured',
  capture_walk n board curr_r curr_c er dr dc captured = Some (board', captured') ->
  Inv board -> Inv board'.
Proof.
  induction n as [| n IH]; intros board curr_r curr_c er dr dc captured board' captured' Hw Hi;
    simpl in Hw; [discriminate |].
  destruct (curr_r =? er); [injection Hw as <- _; exact Hi |].
  destruct (negb _).
  - eapply IH; [exact Hw |]. apply Inv_clear, Hi.
  - eapply IH; [exact Hw | exact Hi].
Qed.

Lemma apply_steps_inv (m : Move) (idx : list Z) :
  forall board captured board' captured',
  fold_left (apply_step m) idx (Some (board, captured)) = Some (board', captured') ->
  Inv board -> Inv board'.
Proof.
  induction idx as [| i idx IH]; intros board captured board' captured' Hf Hi;
    cbn [fold_left] in Hf.
  - injection Hf as <- _. exact Hi.
  - destruct (apply_step m (Some (board, captured)) i) as [[b1 c1'] |] eqn:Hstep.
    + apply (IH _ _ _ _ Hf).
      unfold apply_step in Hstep. cbn [mbind option_bind] in Hstep. cbv zeta in Hstep.
      exact (capture_walk_inv _ _ _ _ _ _ _ _ _ _ Hstep Hi).
    + destruct (apply_steps_length _ _ _ _ _ Hf) as (b0 & c0 & Hsome & _). discriminate Hsome.
Qed.
End Clearing.

(** The board after a move holds no more men than the board before, and
    one man less when the search takes the move for a promotion. *)
Lemma apply_move_men (board : list Z) (m : Move) (player captured : Z)
    (board' : list Z) (captured' : Z) :
  apply_move board m player captured = Some (board', captured') ->
  men_on board'
  + (if is_promotion_move m (bget board (r1 (step_at m 0) * 8 + c1 (step_at m 0)))
     then 1 else 0)
  <= men_on board.
Proof.
  unfold apply_move. cbv zeta.
  set (src := r1 (step_at m 0) * 8 + c1 (step_at m 0)).
  set (piece := bget board src).
  set (dst := r2 (step_at m (m_count m - 1)) * 8 + c2 (step_at m (m_count m - 1))).
  set (b1 := bset board src EMPTY).
  set (b2 := bset b1 dst piece).
  assert (men_on b1 + man_weight piece = men_on board) as Hb1
    by (apply men_on_bset_take).
  match goal with
  | |- mbind _ ?x = _ -> _ => destruct x as [[b3 c3] |] eqn:Hwalk; [| discriminate]
  end.
  cbn [mbind option_bind]. intros Hres. injection Hres as <- _.
  destruct (is_promotion_move m piece) eqn:Hpromo.
  - (* a man reaches the far row in a single step *)
    unfold is_promotion_move in Hpromo.
    destruct (Z.eqb_spec (m_count m) 1) as [Hone | Hne]; [| discriminate Hpromo].
    cbn [negb] in Hpromo.
    assert (man_weight piece = 1) as Hman.
    { unfold man_weight. destruct (piece =? WHITE_MAN); [reflexivity |].
      cbn [andb orb] in Hpromo |- *. destruct (piece =? BLACK_MAN); [reflexivity |].
      discriminate Hpromo. }
    assert (length b3 = length b1 /\
            forall k, k <> dst -> man_weight (bget b3 k) <= man_weight (bget b1 k)) as [Hlen3 Hpt3].
    { assert (length b2 = length b1 /\
              forall k, k <> dst -> man_weight (bget b2 k) <= man_weight (bget b1 k)) as H2.
      { split; [apply bset_length |]. intros k Hk. unfold b2. rewrite bget_bset_ne by exact Hk.
        lia. }
      destruct (_ || _); [| injection Hwalk as <- _; exact H2].
      refine (apply_steps_inv
                (fun b => length b = length b1 /\
                          forall k, k <> dst -> man_weight (bget b k) <= man_weight (bget b1 k))
                _ _ _ _ _ _ _ Hwalk H2).
      intros b i [Hl Hp]. split; [rewrite bset_length; exact Hl |].
      intros k Hk. destruct (bget_bset_cases b i k EMPTY) as [-> | [_ ->]]; [apply Hp, Hk |].
      apply man_weight_range. }
    assert (forall v, man_weight v = 0 -> men_on (bset b3 dst v) <= men_on b1) as Hcrown.
    { intros v Hv. apply men_on_pointwise; [rewrite bset_length; exact Hlen3 |].
      intros k. destruct (decide (k = dst)) as [-> | Hne].
      - assert (man_weight (bget (bset b3 dst v) dst) = 0) as ->; [| apply man_weight_range].
        destruct (decide (0 <= dst < Z.of_nat (length b3))) as [Hin | Hout].
        + rewrite bget_bset_eq by exact Hin. exact Hv.
        + unfold bget, bset. destruct (Z.ltb_spec dst 0); [reflexivity |].
          rewrite list_insert_ge by lia. rewrite lookup_ge_None_2 by lia. reflexivity.
      - rewrite bget_bset_ne by exact Hne. apply Hpt3, Hne. }
    rewrite Hone. change (1 - 1) with 0.
    unfold WHITE_MAN, BLACK_MAN in *.
    destruct (Z.eqb_spec piece 2) as [Hw | Hnw].
    + destruct (Z.eqb_spec (r2 (step_at m 0)) 0) as [Hr | Hr]; cbn [andb] in Hpromo |- *.
      * destruct (Z.eqb_spec piece 1); [lia |]. cbn [andb].
        specialize (Hcrown WHITE_KING eq_refl). lia.
      * destruct (Z.eqb_spec piece 1); [lia | discriminate Hpromo].
    + cbn [andb] in Hpromo |- *.
      destruct (Z.eqb_spec piece 1) as [Hb | Hb]; [| discriminate Hpromo].
      destruct (Z.eqb_spec (r2 (step_at m 0)) 7) as [Hr | Hr]; [| discriminate Hpromo].
      cbn [andb]. specialize (Hcrown BLACK_KING eq_refl). lia.
  - assert (men_on b3 <= men_on board) as H3.
    { assert (men_on b2 <= men_on board) as H2.
      { pose proof (men_on_bset_le b1 dst piece). unfold b2. lia. }
      destruct (_ || _); [| injection Hwalk as <- _; exact H2].
      refine (apply_steps_inv (fun b => men_on b <= men_on board) _ _ _ _ _ _ _ Hwalk H2).
      intros b i Hb. pose proof (men_on_bset_le b i EMPTY).
      change (man_weight EMPTY) with 0 in *. lia. }
    assert (forall b v, man_weight v = 0 -> men_on b <= men_on board ->
              men_on (bset b dst v) <= men_on board) as Hk.
    { intros b v Hv Hb. pose proof (men_on_bset_le b dst v). lia. }
    rewrite Z.add_0_r.
    destruct (_ && _); destruct (_ && _); auto.
Qed.

(** * The loop bounds are never reached

    A slide from a square of the board leaves the board within 8 steps,
    and a chain started empty is cut at 12 steps: more fuel changes
    nothing. *)

Lemma off_board (r c dr dc dist : Z) :
  is_valid r c = true -> dr = 1 \/ dr = -1 -> 8 <= dist ->
  is_valid (r + dist * dr) (c + dist * dc) = false.
Proof.
  intros Hrc Hdr Hdist. apply is_valid_spec in Hrc.
  destruct (is_valid _ _) eqn:Hv; [| reflexivity].
  apply is_valid_spec in Hv. nia.
Qed.

Lemma slide_steps_fuel (board : list Z) (r c dr dc : Z) :
  is_valid r c = true -> dr = 1 \/ dr = -1 ->
  forall n m dist, 8 <= dist + Z.of_nat n -> 8 <= dist + Z.of_nat m ->
  slide_steps n board r c dr dc dist = slide_steps m board r c dr dc dist.
Proof.
  intros Hrc Hdr. induction n as [| n IH]; intros m dist Hn Hm.
  - destruct m as [| m]; [reflexivity |]. simpl.
    rewrite (off_board r c dr dc dist Hrc Hdr) by lia. reflexivity.
  - destruct m as [| m]; simpl.
    + rewrite (off_board r c dr dc dist Hrc Hdr) by lia. reflexivity.
    + destruct (_ || _); [reflexivity |]. f_equal. apply IH; lia.
Qed.

Section ChainFuel.
Variable chains_rec : list Z -> Z -> Z -> Z -> Move -> list Move.
Variables (board : list Z) (r c piece : Z) (cur : Move).

Lemma land_chains_fuel (dr dc nr nc : Z) :
  is_valid nr nc = true -> dr = 1 \/ dr = -1 ->
  forall n m land_dist, 8 <= land_dist + Z.of_nat n -> 8 <= land_dist + Z.of_nat m ->
  land_chains chains_rec board r c piece cur n dr dc nr nc land_dist
  = land_chains chains_rec board r c piece cur m dr dc nr nc land_dist.
Proof.
  intros Hv Hdr. induction n as [| n IH]; intros m land_dist Hn Hm.
  - destruct m as [| m]; [reflexivity |]. simpl.
    rewrite (off_board nr nc dr dc land_dist Hv Hdr) by lia. reflexivity.
  - destruct m as [| m]; simpl.
    + rewrite (off_board nr nc dr dc land_dist Hv Hdr) by lia. reflexivity.
    + destruct (negb (is_valid _ _)); [reflexivity |].
      destruct (negb (_ =? EMPTY)); [reflexivity |].
      rewrite (IH m (land_dist + 1)) by lia. reflexivity.
Qed.

Lemma scan_chains_fuel (dr dc : Z) :
  is_valid r c = true -> dr = 1 \/ dr = -1 ->
  forall n m dist, 8 <= dist + Z.of_nat n -> 8 <= dist + Z.of_nat m ->
  scan_chains chains_rec board r c piece cur n dr dc dist
  = scan_chains chains_rec board r c piece cur m dr dc dist.
Proof.
  intros Hv Hdr. induction n as [| n IH]; intros m dist Hn Hm.
  - destruct m as [| m]; [reflexivity |]. cbn [scan_chains].
    rewrite (off_board r c dr dc dist Hv Hdr) by lia. reflexivity.
  - destruct m as [| m]; cbn [scan_chains].
    + rewrite (off_board r c dr dc dist Hv Hdr) by lia. reflexivity.
    + destruct (negb (is_valid _ _)); [reflexivity |].
      destruct (_ || _ || (_ =? GHOST)); [reflexivity |].
      destruct (_ || _); [reflexivity |]. apply IH; lia.
Qed.
End ChainFuel.

(** The loops call the recursion only on the chain extended by one step. *)
Section ChainExt.
Variables f g : list Z -> Z -> Z -> Z -> Move -> list Move.
Variables (board : list Z) (r c piece : Z) (cur : Move).
Hypothesis Hfg : forall b jr jc s, f b jr jc piece (add_step cur s) = g b jr jc piece (add_step cur s).

Lemma man_chains_ext (dr dc : Z) :
  man_chains f board r c piece cur dr dc = man_chains g board r c piece cur dr dc.
Proof. unfold man_chains. cbv zeta. rewrite Hfg. reflexivity. Qed.

Lemma land_chains_ext (n : nat) (dr dc nr nc : Z) :
  forall land_dist,
  land_chains f board r c piece cur n dr dc nr nc land_dist
  = land_chains g board r c piece cur n dr dc nr nc land_dist.
Proof.
  induction n as [| n IH]; intros land_dist; simpl; [reflexivity |].
  rewrite Hfg, IH. reflexivity.
Qed.

Lemma scan_chains_ext (n : nat) (dr dc : Z) :
  forall dist,
  scan_chains f board r c piece cur n dr dc dist
  = scan_chains g board r c piece cur n dr dc dist.
Proof.
  induction n as [| n IH]; intros dist; cbn [scan_chains]; [reflexivity |].
  rewrite IH, land_chains_ext. reflexivity.
Qed.

Lemma body_chains_ext :
  body_chains f board r c piece cur = body_chains g board r c piece cur.
Proof.
  unfold body_chains, dir_chains. cbv zeta.
  assert (map (fun d => if negb (is_king_piece piece)
                        then man_chains f board r c piece cur (fst d) (snd d)
                        else scan_chains f board r c piece cur 8 (fst d) (snd d) 1) dirs
          = map (fun d => if negb (is_king_piece piece)
                          then man_chains g board r c piece cur (fst d) (snd d)
                          else scan_chains g board r c piece cur 8 (fst d) (snd d) 1) dirs) as ->.
  { apply map_ext. intros d. rewrite man_chains_ext, scan_chains_ext. reflexivity. }
  reflexivity.
Qed.
End ChainExt.

Lemma emitted_chains_fuel (fuel fuel' : nat) :
  forall board r c piece cur,
  (1 <= fuel)%nat -> (1 <= fuel')%nat ->
  13 <= Z.of_nat fuel + m_count cur -> 13 <= Z.of_nat fuel' + m_count cur ->
  emitted_chains fuel board r c piece cur = emitted_chains fuel' board r c piece cur.
Proof.
  revert fuel'. induction fuel as [| fuel IH]; intros fuel' board r c piece cur H1 H1' Hf Hf';
    [lia |].
  destruct fuel' as [| fuel']; [lia |]. simpl.
  destruct (Z.leb_spec 12 (m_count cur)) as [Hfull | Hroom]; [reflexivity |].
  apply body_chains_ext. intros b jr jc s.
  apply IH; simpl; lia.
Qed.

Lemma find_captures_fuel (k : nat) (board : list Z) (r c piece : Z) (moves : MoveList) :
  wf_list moves ->
  ml_list (find_captures_recursive (13 + k) board r c piece zero_move moves)
  = ml_list (find_captures_recursive 13 board r c piece zero_move moves).
Proof.
  intros Hwf.
  rewrite (proj2 (find_captures_extends (13 + k) board r c piece zero_move moves Hwf)).
  rewrite (proj2 (find_captures_extends 13 board r c piece zero_move moves Hwf)).
  rewrite (emitted_chains_fuel (13 + k) 13); [reflexivity | lia | lia | simpl; lia | simpl; lia].
Qed.

(** The walk of [apply_move] between two rows of the board ends. *)
Lemma capture_walk_ends (n : nat) :
  forall board curr_r curr_c er dr dc captured,
  (dr = 1 /\ curr_r <= er \/ dr = -1 /\ er <= curr_r) ->
  Z.abs (er - curr_r) < Z.of_nat n ->
  is_Some (capture_walk n board curr_r curr_c er dr dc captured).
Proof.
  induction n as [| n IH]; intros board curr_r curr_c er dr dc captured Hdir Hn; [lia |].
  simpl. destruct (Z.eqb_spec curr_r er) as [Heq | Hne]; [eexists; reflexivity |].
  destruct (negb _); apply IH; lia.
Qed.

(** * The search returns *)

Lemma shaped_walkable (m : Move) : capture_shaped m -> walkable m.
Proof.
  intros (_ & _ & Hsteps) i Hi. destruct (Hsteps i Hi) as (H1 & H2 & Hj).
  apply is_valid_spec in H1. apply is_valid_spec in H2. lia.
Qed.

Lemma quiet_walkable (board : list Z) (player : Z) (m : Move) :
  legal_quiet board player m -> walkable m.
Proof.
  intros (r & c & nr & nc & -> & Hrc & Hcase) i Hi.
  simpl in Hi. assert (i = 0) as -> by lia.
  unfold step_at. simpl. apply is_valid_spec in Hrc.
  destruct Hcase as [(_ & -> & _ & Hv & _) | (_ & dr & dc & d & Hd & Hd1 & -> & -> & Hall)].
  - apply is_valid_spec in Hv. destruct (is_white_piece player); lia.
  - destruct (Hall d) as [Hv _]; [lia |]. apply is_valid_spec in Hv.
    assert (dr = 1 \/ dr = -1) as Hdr.
    { unfold dirs in Hd. simpl in Hd. intuition congruence. }
    nia.
Qed.

Lemma move_at_in (l : MoveList) (j : Z) :
  wf_list l -> 0 <= j < ml_count l -> In (move_at l j) (ml_list l).
Proof.
  intros [Hlen Hc] Hj. unfold move_at, ml_list.
  destruct (lookup_lt_is_Some_2 (ml_moves l) (Z.to_nat j)) as [m Hm]; [lia |].
  rewrite Hm. simpl. apply list_elem_of_In. apply list_elem_of_lookup.
  exists (Z.to_nat j). rewrite lookup_take_lt by lia. exact Hm.
Qed.

Lemma generate_moves_walkable (board : list Z) (player : Z) :
  all_walkable (generate_moves board player).
Proof.
  intros j Hj.
  destruct (generate_moves_cases board player) as (Hwf & Hcap & Hquiet).
  pose proof (move_at_in _ j Hwf Hj) as Hin.
  destruct (ml_list (capture_scan board player (clear new_movelist))) as [| m0 rest] eqn:Hcaps.
  - rewrite Hquiet in Hin by reflexivity.
    apply list_elem_of_In, elem_of_take in Hin as (k & Hk & _).
    apply list_elem_of_lookup_2, list_elem_of_In, all_quiet_legal in Hk.
    exact (quiet_walkable board player _ Hk).
  - rewrite Hcap in Hin by discriminate. apply filter_In in Hin as [Hin _].
    rewrite <- Hcaps, (proj2 (capture_scan_list board player)) in Hin.
    apply list_elem_of_In, elem_of_take in Hin as (k & Hk & _).
    apply list_elem_of_lookup_2, list_elem_of_In in Hk.
    pose proof (all_chains_shaped board player) as Hall.
    rewrite List.Forall_forall in Hall. apply shaped_walkable, Hall, Hk.
Qed.

Lemma apply_steps_total (m : Move) (idx : list Z) :
  walkable m -> (forall i, In i idx -> 0 <= i < m_count m) ->
  forall acc, is_Some acc -> is_Some (fold_left (apply_step m) idx acc).
Proof.
  intros Hm. induction idx as [| i idx IH]; intros Hin acc Hacc; simpl; [exact Hacc |].
  apply IH; [intros k Hk; apply Hin; right; exact Hk |].
  destruct Hacc as [[board captured] ->]. unfold apply_step.
  cbn [mbind option_bind]. cbv zeta.
  destruct (Hm i) as (Hs & He & Hne); [apply Hin; left; reflexivity |].
  apply capture_walk_ends; destruct (Z.gtb_spec (r2 (step_at m i)) (r1 (step_at m i))); lia.
Qed.

Lemma apply_move_total (board : list Z) (m : Move) (player captured : Z) :
  walkable m -> is_Some (apply_move board m player captured).
Proof.
  intros Hm. unfold apply_move. cbv zeta.
  match goal with
  | |- is_Some (mbind _ ?x) => assert (is_Some x) as [[b cap] ->]
  end.
  { destruct (_ || _); [| eexists; reflexivity].
    apply apply_steps_total; [exact Hm | | eexists; reflexivity].
    intros i Hi. apply in_range in Hi. lia. }
  cbn [mbind option_bind]. eexists. reflexivity.
Qed.

(** [pick_move] permutes the slots in use and rewrites their scores. *)
Lemma walkable_set_score (m : Move) (s : Z) : walkable m -> walkable (set_score m s).
Proof. intros Hm i Hi. apply (Hm i Hi). Qed.

Lemma move_at_set_move (l : MoveList) (i j : Z) (m : Move) :
  0 <= i -> 0 <= j -> (Z.to_nat i < length (ml_moves l))%nat ->
  move_at (set_move l i m) j = if decide (i = j) then m else move_at l j.
Proof.
  intros Hi Hj Hlen. unfold move_at, set_move. simpl.
  destruct (decide (i = j)) as [-> | Hne].
  - rewrite list_lookup_insert_eq by exact Hlen. reflexivity.
  - rewrite list_lookup_insert_ne by lia. reflexivity.
Qed.

(** Within the table the ordering score, the selection and the cutoff
    update have a value. *)
Lemma killer_row_spec (ply : Z) : killer_row ply = true <-> 0 <= ply < MAX_PLY.
Proof. unfold killer_row. rewrite andb_true_iff, Z.leb_le, Z.ltb_lt. tauto. Qed.

Lemma score_move_ordering_defined (st : SearchState) (m tt_best : Move) (ply : Z) :
  killer_row ply = true -> is_Some (score_move_ordering st m tt_best ply).
Proof.
  intros Hrow. unfold score_move_ordering, killer_at. rewrite Hrow.
  destruct (move_eq m tt_best); [eexists; reflexivity |].
  destruct (_ && _); [eexists; reflexivity |].
  destruct (_ || _); [eexists; reflexivity |].
  cbn [mbind option_bind]. destruct (move_eq m _); [eexists; reflexivity |].
  destruct (move_eq m _); eexists; reflexivity.
Qed.

Lemma pick_step_some (st : SearchState) (tt_best : Move) (ply : Z) (moves : MoveList)
    (best_score best_idx i s : Z) :
  score_move_ordering st (move_at moves i) tt_best ply = Some s ->
  pick_step st tt_best ply (Some (moves, best_score, best_idx)) i
  = Some (if s >? best_score
          then (set_move moves i (set_score (move_at moves i) s), s, i)
          else (set_move moves i (set_score (move_at moves i) s), best_score, best_idx)).
Proof. intros Hs. unfold pick_step. cbn [mbind option_bind]. rewrite Hs. reflexivity. Qed.

Lemma pick_step_none (st : SearchState) (tt_best : Move) (ply : Z) (moves : MoveList)
    (best_score best_idx i : Z) :
  score_move_ordering st (move_at moves i) tt_best ply = None ->
  pick_step st tt_best ply (Some (moves, best_score, best_idx)) i = None.
Proof. intros Hs. unfold pick_step. cbn [mbind option_bind]. rewrite Hs. reflexivity. Qed.

Lemma pick_steps_none (st : SearchState) (tt_best : Move) (ply : Z) (idx : list Z) :
  fold_left (pick_step st tt_best ply) idx None = None.
Proof. induction idx as [| i idx IH]; [reflexivity | exact IH]. Qed.

Lemma pick_steps_defined (st : SearchState) (tt_best : Move) (ply : Z) :
  killer_row ply = true ->
  forall idx acc, is_Some acc -> is_Some (fold_left (pick_step st tt_best ply) idx acc).
Proof.
  intros Hrow. induction idx as [| i idx IH]; intros acc Hacc; cbn [fold_left]; [exact Hacc |].
  apply IH. destruct Hacc as [[[l bs] bi] ->].
  destruct (score_move_ordering_defined st (move_at l i) tt_best ply Hrow) as [s Hs].
  rewrite (pick_step_some _ _ _ _ _ _ _ _ Hs). eexists. reflexivity.
Qed.

Lemma pick_move_defined (st : SearchState) (moves : MoveList) (start : Z) (tt_best : Move)
    (ply : Z) :
  killer_row ply = true -> is_Some (pick_move st moves start tt_best ply).
Proof.
  intros Hrow. unfold pick_move.
  destruct (pick_steps_defined st tt_best ply Hrow
              (range start (Z.to_nat (ml_count moves - start)))
              (Some (moves, -2000000000, -1))) as [[[l bs] bi] ->]; [eexists; reflexivity |].
  cbn [mbind option_bind]. eexists. reflexivity.
Qed.

Lemma record_cutoff_defined (st : SearchState) (player ply depth : Z) (m : Move) :
  killer_row ply = true -> is_Some (record_cutoff st player ply depth m).
Proof.
  intros Hrow. unfold record_cutoff, killer_at. rewrite Hrow. cbn [mbind option_bind].
  eexists. reflexivity.
Qed.

(** [pick_move] keeps what holds of every move of the list. *)
Section PickAll.
Variable P : Move -> Prop.
Hypothesis P_score : forall m s, P m -> P (set_score m s).

Lemma pick_steps_all (st : SearchState) (tt_best : Move) (ply : Z) (lo : Z) (n : nat) :
  forall moves best_score best_idx moves' bs bi,
  fold_left (pick_step st tt_best ply) (range lo n) (Some (moves, best_score, best_idx))
    = Some (moves', bs, bi) ->
  0 <= lo -> lo + Z.of_nat n <= ml_count moves ->
  wf_list moves -> all_moves P moves ->
  (best_idx = -1 \/ 0 <= best_idx < ml_count moves) ->
  wf_list moves' /\ ml_count moves' = ml_count moves /\ all_moves P moves' /\
  (bi = -1 \/ 0 <= bi < ml_count moves).
Proof.
  revert lo. induction n as [| n IH];
    intros lo moves best_score best_idx moves' bs bi Hf Hlo Hhi Hwf Hall Hbi.
  - cbn in Hf. assert (moves' = moves /\ bi = best_idx) as [-> ->] by (split; congruence).
    auto.
  - rewrite range_cons in Hf. cbn [fold_left] in Hf.
    destruct (score_move_ordering st (move_at moves lo) tt_best ply) as [s |] eqn:Hs;
      [| rewrite (pick_step_none _ _ _ _ _ _ _ Hs), pick_steps_none in Hf; discriminate Hf].
    rewrite (pick_step_some _ _ _ _ _ _ _ _ Hs) in Hf.
    set (moves1 := set_move moves lo (set_score (move_at moves lo) s)) in Hf.
    assert (wf_list moves1) as Hwf1.
    { destruct Hwf as [Hlen Hc]. split; simpl; [rewrite length_insert; exact Hlen | exact Hc]. }
    assert (all_moves P moves1) as Hall1.
    { intros j Hj. unfold moves1. destruct Hwf as [Hlen Hc].
      rewrite move_at_set_move by (simpl in Hj; lia).
      destruct (decide (lo = j)); [apply P_score, Hall; lia | apply Hall, Hj]. }
    assert (ml_count moves1 = ml_count moves) as Hc1 by reflexivity.
    destruct (s >? best_score).
    + destruct (IH (lo + 1) moves1 s lo _ _ _ Hf) as (H1 & H2 & H3 & H4);
        try assumption; try lia.
      split; [exact H1 |]. split; [lia |]. split; [exact H3 |]. lia.
    + destruct (IH (lo + 1) moves1 best_score best_idx _ _ _ Hf) as (H1 & H2 & H3 & H4);
        try assumption; try lia.
      split; [exact H1 |]. split; [lia |]. split; [exact H3 |]. lia.
Qed.

Lemma pick_move_all (st : SearchState) (moves : MoveList) (start : Z) (tt_best : Move)
    (ply : Z) (picked : MoveList) :
  pick_move st moves start tt_best ply = Some picked ->
  0 <= start <= ml_count moves -> wf_list moves -> all_moves P moves ->
  wf_list picked /\ ml_count picked = ml_count moves /\ all_moves P picked.
Proof.
  intros Hpick Hstart Hwf Hall. unfold pick_move in Hpick.
  destruct (decide (start = ml_count moves)) as [-> | Hlt].
  { rewrite Z.sub_diag in Hpick. change (Z.to_nat 0) with 0%nat in Hpick.
    cbn in Hpick. assert (picked = moves) as -> by congruence.
    auto. }
  destruct (fold_left _ _ _) as [[[l bs] bi] |] eqn:Hf; [| discriminate Hpick].
  cbn [mbind option_bind] in Hpick.
  destruct (pick_steps_all _ _ _ _ _ _ _ _ _ _ _ Hf) as (Hwf' & Hc' & Hall' & Hbi);
    try assumption; try lia.
  assert (picked = if negb (bi =? -1)
                   then set_move (set_move l start (move_at l bi)) bi (move_at l start)
                   else l) as -> by congruence.
  destruct (Z.eqb_spec bi (-1)) as [_ | Hne]; cbn [negb]; [auto |].
  destruct Hbi as [? | Hbi]; [contradiction |].
  destruct Hwf' as [Hlen' Hcnt'].
  split; [split; simpl; [rewrite !length_insert; exact Hlen' | exact Hcnt'] |].
  split; [exact Hc' |].
  intros j Hj. simpl in Hj.
  rewrite move_at_set_move by (simpl; rewrite ?length_insert; lia).
  destruct (decide (bi = j)); [apply Hall'; lia |].
  rewrite move_at_set_move by lia.
  destruct (decide (start = j)); apply Hall'; lia.
Qed.
End PickAll.

Lemma men_on_nonneg (board : list Z) : 0 <= men_on board.
Proof.
  induction board as [| x b IH]; [reflexivity |].
  rewrite men_on_cons. pose proof (man_weight_range x). lia.
Qed.

Section NodeTotal.
Variable rec : list Z -> Z -> Z -> Z -> Z -> Z -> bool -> SearchState
               -> option (Z * SearchState).
Variables (board : list Z) (depth beta player ply : Z).
Hypothesis Hrow : killer_row ply = true.
Hypothesis Hchild : child_ok rec board depth ply.

Lemma pvs_child_total (temp_board : list Z) (i alpha enemy reduction extension : Z)
    (st : SearchState) :
  extension = 0 \/ extension = 1 /\ ply < MAX_PLY -> 0 <= reduction ->
  men_on temp_board + extension <= men_on board ->
  is_Some (pvs_child rec temp_board i depth alpha beta enemy ply reduction extension st).
Proof.
  intros Hext Hred Hmen.
  assert (forall d a be s0, d <= depth - 1 + extension ->
            is_Some (rec temp_board d a be enemy (ply + 1) true s0)) as Hcall.
  { intros d a be s0 Hd. apply Hchild; [| lia].
    destruct (Z.ltb_spec ply MAX_PLY); lia. }
  unfold pvs_child. destruct (i =? 0).
  - destruct (Hcall (depth - 1 + extension) (- beta) (- alpha) st) as [[s st1] ->]; [lia |].
    cbn [mbind option_bind]. eexists. reflexivity.
  - destruct (Hcall (depth - 1 - reduction + extension) (- alpha - 1) (- alpha) st)
      as [[s st1] ->]; [lia |].
    cbn [mbind option_bind]. destruct (_ && _); [| eexists; reflexivity].
    destruct (Hcall (depth - 1 + extension) (- beta) (- alpha) st1) as [[s2 st2] ->]; [lia |].
    cbn [mbind option_bind]. eexists. reflexivity.
Qed.

Lemma search_moves_total (capture_forced : bool) (tt_move : Move) (n : nat) :
  forall i moves alpha best_score best_move_local flag st,
  0 <= i -> i + Z.of_nat n = ml_count moves -> wf_list moves -> all_walkable moves ->
  is_Some (search_moves rec n board depth beta player ply capture_forced tt_move
             i moves alpha best_score best_move_local flag st).
Proof.
  induction n as [| n IH]; intros i moves alpha best_score bm flag st Hi Hn Hwf Hall;
    cbn [search_moves]; [eexists; reflexivity |].
  destruct (pick_move_defined st moves i tt_move ply Hrow) as [moves' Hpick].
  rewrite Hpick. cbn [mbind option_bind].
  destruct (pick_move_all walkable walkable_set_score _ _ _ _ _ _ Hpick)
    as (Hwf' & Hc' & Hall'); [lia | exact Hwf | exact Hall |].
  cbv zeta.
  destruct (apply_move_total board (move_at moves' i) player 0) as [[tb cap] Happ];
    [apply Hall'; lia |].
  rewrite Happ. cbn [mbind option_bind].
  pose proof (apply_move_men _ _ _ _ _ _ Happ) as Hmen.
  match goal with
  | |- is_Some (mbind _ ?x) => assert (is_Some x) as [[score st1] ->]
  end.
  { apply pvs_child_total.
    - destruct (_ && (ply <? MAX_PLY)) eqn:Hext; [| left; reflexivity].
      right. apply andb_true_iff in Hext as [_ Hlt]. apply Z.ltb_lt in Hlt. auto.
    - destruct (_ && (i >? 3)); lia.
    - destruct (is_promotion_move _ _); cbn [andb]; [destruct (ply <? MAX_PLY) |]; lia. }
  cbn [mbind option_bind].
  destruct (stop_search st1); [eexists; reflexivity |].
  destruct (score >? best_score); [| apply IH; try assumption; lia].
  destruct (score >? alpha); [| apply IH; try assumption; lia].
  destruct (score >=? beta); [| apply IH; try assumption; lia].
  destruct (negb capture_forced && _); [| eexists; reflexivity].
  destruct (record_cutoff_defined st1 player ply depth (move_at moves' i) Hrow) as [st2 ->].
  eexists. reflexivity.
Qed.
End NodeTotal.

Section Totality.
Variable zobrist_table : Z -> Z -> Z.
Variable zobrist_black_move : Z.
Variable expired : Z -> bool.

Lemma stand_pat_none (board : list Z) (depth player : Z) (moves : MoveList) (cf : bool) :
  stand_pat board depth player moves cf = None -> -12 <= depth.
Proof.
  unfold stand_pat. destruct (Z.leb_spec depth 0); [| lia]. cbv zeta.
  destruct (negb _); [discriminate |].
  destruct (Z.ltb_spec depth (-12)); [discriminate | lia].
Qed.

(** A search entered within the killer table returns, given fuel for
    [depth + 13] levels plus one level per ply below [MAX_PLY] (where a
    promotion may extend the depth): every node that orders moves does
    so at a ply below [MAX_PLY]. *)
Theorem alpha_beta_total (fuel : nat) :
  forall board depth alpha beta player ply do_null st,
  (need_fuel depth ply <= fuel)%nat -> within_table board depth ply ->
  is_Some (alpha_beta zobrist_table zobrist_black_move expired fuel
             board depth alpha beta player ply do_null st).
Proof.
  induction fuel as [| fuel IH];
    intros board depth alpha beta player ply do_null st Hfuel [Hply Hin];
    [unfold need_fuel in Hfuel; lia |].
  cbn [alpha_beta]. unfold alpha_beta_body. cbv zeta.
  destruct (stop_search (tick expired st)); [eexists; reflexivity |].
  destruct (Z.eqb_spec (ml_count (generate_moves board player)) 0) as [_ | Hsome];
    [eexists; reflexivity |].
  destruct (stand_pat _ _ _ _ _) eqn:Hpat; [eexists; reflexivity |].
  apply stand_pat_none in Hpat.
  pose proof (men_on_nonneg board) as Hmen.
  assert (killer_row ply = true) as Hrow by (apply killer_row_spec; lia).
  unfold search_node. cbv zeta.
  assert (forall h tt_move,
            is_Some (search_and_save (alpha_beta zobrist_table zobrist_black_move expired fuel)
                       board depth alpha beta player ply (generate_moves board player)
                       ((ml_count (generate_moves board player) >? 0)
                        && is_capture_move (move_at (generate_moves board player) 0))
                       h tt_move (tick expired st))) as Hloop.
  { intros h tt_move. unfold search_and_save.
    destruct (generate_moves_cases board player) as (Hwf & _).
    destruct (search_moves_total
                (alpha_beta zobrist_table zobrist_black_move expired fuel)
                board depth beta player ply Hrow) with
      (capture_forced := (ml_count (generate_moves board player) >? 0)
                         && is_capture_move (move_at (generate_moves board player) 0))
      (tt_move := tt_move) (n := Z.to_nat (ml_count (generate_moves board player)))
      (i := 0) (moves := generate_moves board player) (alpha := alpha)
      (best_score := - INF) (best_move_local := move_at (generate_moves board player) 0)
      (flag := TT_ALPHA) (st := tick expired st) as [out ->].
    - intros b d a be pl dn s0 Hd Hb. apply IH.
      + unfold need_fuel in *. unfold MAX_PLY in *.
        destruct (Z.ltb_spec ply 64); lia.
      + split; lia.
    - lia.
    - destruct Hwf; lia.
    - exact Hwf.
    - apply generate_moves_walkable.
    - cbn [mbind option_bind]. destruct out; eexists; reflexivity. }
  destruct (fst (tt_probe _ _ _ _ _ _)); [destruct (ply >? 0); [eexists; reflexivity |] |];
    apply Hloop.
Qed.

Lemma root_child_ok (fuel : nat) (board : list Z) (d : Z) :
  (need_fuel d 1 <= fuel)%nat -> d + men_on board + 12 < MAX_PLY ->
  child_ok (alpha_beta zobrist_table zobrist_black_move expired fuel) board d 0.
Proof.
  intros Hfuel Hin b d' a be pl dn st Hd Hb. apply alpha_beta_total.
  - unfold need_fuel, MAX_PLY in *. simpl in Hd. lia.
  - split; lia.
Qed.

Lemma root_moves_loop_total (fuel : nat) (board : list Z) (player d : Z)
    (root_moves : MoveList) (beta : Z) (n : nat) :
  (need_fuel d 1 <= fuel)%nat -> d + men_on board + 12 < MAX_PLY ->
  wf_list root_moves -> all_walkable root_moves ->
  forall i alpha current_best_move current_best_score st,
  0 <= i -> i + Z.of_nat n = ml_count root_moves ->
  is_Some (root_moves_loop zobrist_table zobrist_black_move expired fuel n board player d
             root_moves i alpha beta current_best_move current_best_score st).
Proof.
  intros Hfuel Hin Hwf Hall.
  induction n as [| n IH]; intros i alpha bm bs st Hi Hn; cbn [root_moves_loop];
    [eexists; reflexivity |].
  cbv zeta.
  destruct (apply_move_total board (move_at root_moves i) player 0) as [[tb cap] Happ];
    [apply Hall; lia |].
  rewrite Happ. cbn [mbind option_bind].
  pose proof (apply_move_men _ _ _ _ _ _ Happ) as Hmen.
  match goal with
  | |- is_Some (mbind _ ?x) => assert (is_Some x) as [[score st1] ->]
  end.
  { apply pvs_child_total with (board := board);
      [apply root_child_ok; [exact Hfuel | exact Hin] | | lia | exact Hmen].
    destruct (is_promotion_move _ _); [right; unfold MAX_PLY; lia | left; reflexivity]. }
  cbn [mbind option_bind].
  destruct (stop_search st1); [eexists; reflexivity |].
  destruct (score >? bs); apply IH; lia.
Qed.

Lemma need_fuel_mono (d d' ply : Z) : d <= d' -> (need_fuel d ply <= need_fuel d' ply)%nat.
Proof. unfold need_fuel. lia. Qed.

Lemma deepen_total (fuel : nat) (board : list Z) (player max_depth : Z) (n : nat) :
  (need_fuel max_depth 1 <= fuel)%nat -> max_depth + men_on board + 12 < MAX_PLY ->
  forall d root_moves best_overall best_score_overall reached_depth st,
  n = 0%nat \/ d + Z.of_nat n <= max_depth + 1 ->
  wf_list root_moves -> all_walkable root_moves ->
  is_Some (deepen zobrist_table zobrist_black_move expired fuel n board player d root_moves
             best_overall best_score_overall reached_depth st).
Proof.
  intros Hfuel Hin. induction n as [| n IH]; intros d root_moves bo bso rd st Hd Hwf Hall;
    cbn [deepen]; [eexists; reflexivity |].
  destruct Hd as [Hd | Hd]; [discriminate |].
  destruct (pick_move_defined st root_moves 0 bo 0 eq_refl) as [moves' Hpick].
  rewrite Hpick. cbn [mbind option_bind].
  destruct (pick_move_all walkable walkable_set_score _ _ _ _ _ _ Hpick)
    as (Hwf' & Hc' & Hall'); [destruct Hwf; lia | exact Hwf | exact Hall |].
  destruct (root_moves_loop_total fuel board player d moves' INF
              (Z.to_nat (ml_count moves'))) with
    (i := 0) (alpha := - INF) (current_best_move := move_at moves' 0)
    (current_best_score := - INF) (st := st) as [it ->];
    [apply (Nat.le_trans _ _ _ (need_fuel_mono d max_depth 1 ltac:(lia)) Hfuel)
    | lia | exact Hwf' | exact Hall' | lia | destruct Hwf'; lia |].
  cbn [mbind option_bind].
  destruct (stop_search (ri_state it)); [eexists; reflexivity |].
  destruct (ri_best_score it >? MATE - 5000); [eexists; reflexivity |].
  apply IH; try assumption. lia.
Qed.

(** The driver returns for every position and time budget when the
    depth cap keeps the search within the killer table. *)
Theorem get_best_move_total (fuel : nat) (board : list Z) (player max_depth : Z)
    (result : MoveResult) (st : SearchState) :
  (need_fuel max_depth 1 <= fuel)%nat -> max_depth + men_on board + 12 < MAX_PLY ->
  is_Some (get_best_move zobrist_table zobrist_black_move expired fuel
             board player max_depth result st).
Proof.
  intros Hfuel Hin. unfold get_best_move. cbv zeta.
  destruct (ml_count (generate_moves board player) =? 0); [eexists; reflexivity |].
  destruct (ml_count (generate_moves board player) =? 1); [eexists; reflexivity |].
  destruct (deepen_total fuel board player max_depth (Z.to_nat max_depth) Hfuel Hin) with
    (d := 1) (root_moves := generate_moves board player)
    (best_overall := move_at (generate_moves board player) 0)
    (best_score_overall := - INF) (reached_depth := 0)
    (st := with_nodes (with_stop (init_memory st) false) 0) as [dp ->];
    [lia | apply generate_moves_cases | apply generate_moves_walkable |].
  cbn [mbind option_bind]. eexists. reflexivity.
Qed.
End Totality.

(** * Transposition table: slots *)

Lemma tt_save_slot_key (table : gmap Z TTEntry) (key score depth flag : Z) (best_move : Move) :
  tt_key (tt_at (tt_save table key score depth flag best_move) (key `mod` TT_SIZE)) = key.
Proof.
  unfold tt_save. cbv zeta.
  destruct (Z.eqb_spec (tt_key (tt_at table (key `mod` TT_SIZE))) key) as [Hk | Hk]; simpl.
  - destruct (depth >=? _); [| exact Hk].
    unfold tt_at. rewrite lookup_insert_eq. reflexivity.
  - unfold tt_at. rewrite lookup_insert_eq. reflexivity.
Qed.

Lemma tt_save_other_slot (table : gmap Z TTEntry) (key score depth flag : Z) (best_move : Move)
    (idx : Z) :
  idx <> key `mod` TT_SIZE ->
  tt_at (tt_save table key score depth flag best_move) idx = tt_at table idx.
Proof.
  intros Hne. unfold tt_save. cbv zeta. destruct (_ || _); [| reflexivity].
  unfold tt_at. rewrite lookup_insert_ne by congruence. reflexivity.
Qed.

(** A store touches one slot only.  After it, a probe for another key
    that shares the slot misses (and leaves the caller's move as it was),
    and a probe for a key of another slot answers as before the store. *)
Theorem tt_save_owns_one_slot (table : gmap Z TTEntry) (key score depth flag : Z)
    (best_move : Move) (other d alpha beta : Z) (tt_move : Move) :
  other <> key ->
  (other `mod` TT_SIZE = key `mod` TT_SIZE ->
   tt_probe (tt_save table key score depth flag best_move) other d alpha beta tt_move
   = (None, tt_move)) /\
  (other `mod` TT_SIZE <> key `mod` TT_SIZE ->
   tt_probe (tt_save table key score depth flag best_move) other d alpha beta tt_move
   = tt_probe table other d alpha beta tt_move).
Proof.
  intros Hne. split.
  - intros Hslot. unfold tt_probe. cbv zeta. rewrite Hslot, tt_save_slot_key.
    destruct (Z.eqb_spec key other); [congruence | reflexivity].
  - intros Hslot. unfold tt_probe. cbv zeta.
    rewrite tt_save_other_slot by exact Hslot. reflexivity.
Qed.

Lemma mate_shift_plain (s : Z) : - MATE + 1000 <= s <= MATE - 1000 -> mate_shift s = s.
Proof.
  intros Hs. unfold mate_shift, MATE, MAX_PLY in *. cbv zeta.
  destruct (Z.gtb_spec s (900000 - 1000)); [lia |].
  destruct (Z.ltb_spec s (- (900000) + 1000)); [lia | reflexivity].
Qed.

(** Store, then probe with the same key.  When the store replaces the
    slot (another key held it, or an entry no deeper), the probe hands
    back the stored move at every depth, misses when it asks for more
    depth than was stored, and otherwise returns the stored score
    according to its flag: an exact score as it is, an upper bound only
    at or below [alpha] (as [alpha]), a lower bound only at or above
    [beta] (as [beta]).  Scores outside the mate bands are not shifted. *)
Theorem tt_store_probe_round_trip (table : gmap Z TTEntry) (key score depth flag : Z)
    (best_move : Move) (d alpha beta : Z) (tt_move : Move) :
  tt_key (tt_at table (key `mod` TT_SIZE)) <> key \/
    tt_depth (tt_at table (key `mod` TT_SIZE)) <= depth ->
  let probe := tt_probe (tt_save table key score depth flag best_move) key d alpha beta tt_move in
  snd probe = best_move /\
  (depth < d -> fst probe = None) /\
  (d <= depth -> flag = TT_EXACT -> fst probe = Some (mate_shift score)) /\
  (d <= depth -> flag = TT_ALPHA ->
   fst probe = if mate_shift score <=? alpha then Some alpha else None) /\
  (d <= depth -> flag = TT_BETA ->
   fst probe = if mate_shift score >=? beta then Some beta else None) /\
  (- MATE + 1000 <= score <= MATE - 1000 -> mate_shift score = score).
Proof.
  intros Hrepl probe.
  assert (tt_at (tt_save table key score depth flag best_move) (key `mod` TT_SIZE)
          = mkTTEntry key score depth flag best_move) as Hslot.
  { unfold tt_save. cbv zeta.
    assert (negb (tt_key (tt_at table (key `mod` TT_SIZE)) =? key)
            || (depth >=? tt_depth (tt_at table (key `mod` TT_SIZE))) = true) as ->.
    { apply orb_true_iff. destruct Hrepl as [Hk | Hdep].
      - left. apply negb_true_iff, Z.eqb_neq, Hk.
      - right. apply Z.geb_le, Hdep. }
    unfold tt_at. rewrite lookup_insert_eq. reflexivity. }
  subst probe. unfold tt_probe. cbv zeta. rewrite Hslot. simpl. rewrite Z.eqb_refl.
  unfold TT_EXACT, TT_ALPHA, TT_BETA.
  destruct (Z.geb_spec depth d) as [Hd | Hd].
  - repeat split.
    + destruct (flag =? 0); [reflexivity |].
      destruct ((flag =? 1) && _); [reflexivity |].
      destruct ((flag =? 2) && _); reflexivity.
    + lia.
    + intros _ ->. reflexivity.
    + intros _ ->. simpl. destruct (_ <=? alpha); reflexivity.
    + intros _ ->. simpl. destruct (_ >=? beta); reflexivity.
    + apply mate_shift_plain.
  - repeat split; try reflexivity; try lia. apply mate_shift_plain.
Qed.

(** * The beta cutoff *)

Lemma move_eq_refl (m : Move) : move_eq m m = true.
Proof. apply move_eq_spec. tauto. Qed.

(** What the update leaves in the tables, for a row of [killer_moves]. *)
Lemma record_cutoff_in_table (st : SearchState) (player ply depth : Z) (m : Move) :
  0 <= ply < MAX_PLY ->
  exists st', record_cutoff st player ply depth m = Some st' /\
    killer_at st' ply 0 = Some m /\
    killer_at st' ply 1 = killer_at st ply 0 /\
    (forall p slot, p <> ply -> killer_at st' p slot = killer_at st p slot) /\
    (forall s f t,
       history_at st' s f t
       = if decide ((if is_white_piece player then 0 else 1,
                     r1 (step_at m 0) * 8 + c1 (step_at m 0),
                     r2 (step_at m 0) * 8 + c2 (step_at m 0)) = (s, f, t))
         then history_at st (if is_white_piece player then 0 else 1)
                (r1 (step_at m 0) * 8 + c1 (step_at m 0))
                (r2 (step_at m 0) * 8 + c2 (step_at m 0)) + depth * depth
         else history_at st s f t).
Proof.
  intros Hply. apply killer_row_spec in Hply.
  unfold record_cutoff. unfold killer_at at 1. rewrite Hply. cbn [mbind option_bind]. cbv zeta.
  eexists. split; [reflexivity |]. split; [| split; [| split]].
  - unfold killer_at. rewrite Hply. cbn. rewrite lookup_insert_eq. reflexivity.
  - unfold killer_at. rewrite Hply. cbn.
    rewrite lookup_insert_ne by congruence. rewrite lookup_insert_eq. reflexivity.
  - intros p slot Hp. unfold killer_at. cbn.
    rewrite !lookup_insert_ne by congruence. reflexivity.
  - intros s f t. fold (is_white_piece player).
    exact (history_at_insert _ _ (_, _, _) (s, f, t) _).
Qed.

(** The iteration of the move loop of [alpha_beta] that ends in a beta
    cutoff: the child's score beats the best so far, alpha and beta. *)
Lemma search_moves_cutoff
    (rec : list Z -> Z -> Z -> Z -> Z -> Z -> bool -> SearchState -> option (Z * SearchState))
    (n : nat) (board : list Z) (depth beta player ply : Z) (capture_forced : bool)
    (tt_move : Move) (i : Z) (moves : MoveList) (alpha best_score : Z)
    (best_move_local : Move) (flag : Z) (st : SearchState)
    (picked : MoveList) (temp_board : list Z) (captured score : Z) (st1 : SearchState) :
  let m := move_at picked i in
  let promotion :=
    is_promotion_move m (bget board (r1 (step_at m 0) * 8 + c1 (step_at m 0))) in
  let extension := if promotion && (ply <? MAX_PLY) then 1 else 0 in
  let reduction :=
    if (depth >=? 3) && negb capture_forced && negb promotion &&
       (m_count m =? 1) && (i >? 3) then 1 else 0 in
  pick_move st moves i tt_move ply = Some picked ->
  apply_move board m player 0 = Some (temp_board, captured) ->
  pvs_child rec temp_board i depth alpha beta (enemy_of player) ply reduction extension st
    = Some (score, st1) ->
  stop_search st1 = false -> best_score < score -> alpha < score -> beta <= score ->
  search_moves rec (S n) board depth beta player ply capture_forced tt_move
    i moves alpha best_score best_move_local flag st
  = (st' ← (if negb capture_forced && (m_count m =? 1)
            then record_cutoff st1 player ply depth m else Some st1);
     Some (Finished score m TT_BETA st')).
Proof.
  intros m promotion extension reduction Hpick Happ Hchild Hstop Hbest Halpha Hbeta.
  cbn [search_moves]. rewrite Hpick. cbn [mbind option_bind]. cbv zeta.
  fold m. rewrite Happ. cbn [mbind option_bind].
  fold promotion. fold extension. fold reduction. rewrite Hchild.
  cbn [mbind option_bind]. rewrite Hstop.
  destruct (Z.gtb_spec score best_score); [| lia].
  destruct (Z.gtb_spec score alpha); [| lia].
  destruct (Z.geb_spec score beta); [| lia].
  reflexivity.
Qed.

(** C8 (as amended).  A move that is not the TT best move, whose first
    and last row are at most two apart, that does not end on row 0 or 7
    and is neither killer of this ply is ordered by
    [history_table[0][from][to]]: [score_move_ordering] does not know
    the side.  In the move loop of [alpha_beta], at a ply within
    [killer_moves], a beta cutoff by a single step without forced
    capture adds [depth * depth] to the slot of the side to move and
    changes no other slot, so a cutoff for black leaves every slot of
    index 0 as it was. *)
Theorem history_read_at_side_zero :
  (forall st m tt_best ply k0 k1,
     move_eq m tt_best = false ->
     (m_count m >? 0) && (Z.abs (r1 (step_at m 0) - r2 (step_at m (m_count m - 1))) >? 2)
       = false ->
     (r2 (step_at m (m_count m - 1)) =? 0) || (r2 (step_at m (m_count m - 1)) =? 7) = false ->
     killer_at st ply 0 = Some k0 -> move_eq m k0 = false ->
     killer_at st ply 1 = Some k1 -> move_eq m k1 = false ->
     score_move_ordering st m tt_best ply
     = Some (history_at st 0 (r1 (step_at m 0) * 8 + c1 (step_at m 0))
               (r2 (step_at m (m_count m - 1)) * 8 + c2 (step_at m (m_count m - 1))))) /\
  (forall rec n board depth beta player ply capture_forced tt_move i moves alpha best_score
          best_move_local flag st picked temp_board captured score st1,
     let m := move_at picked i in
     let promotion :=
       is_promotion_move m (bget board (r1 (step_at m 0) * 8 + c1 (step_at m 0))) in
     let extension := if promotion && (ply <? MAX_PLY) then 1 else 0 in
     let reduction :=
       if (depth >=? 3) && negb capture_forced && negb promotion &&
          (m_count m =? 1) && (i >? 3) then 1 else 0 in
     let from := r1 (step_at m 0) * 8 + c1 (step_at m 0) in
     let to := r2 (step_at m 0) * 8 + c2 (step_at m 0) in
     let side := if is_white_piece player then 0 else 1 in
     0 <= ply < MAX_PLY ->
     pick_move st moves i tt_move ply = Some picked ->
     apply_move board m player 0 = Some (temp_board, captured) ->
     pvs_child rec temp_board i depth alpha beta (enemy_of player) ply reduction extension st
       = Some (score, st1) ->
     stop_search st1 = false -> best_score < score -> alpha < score -> beta <= score ->
     capture_forced = false -> m_count m = 1 ->
     exists st',
       search_moves rec (S n) board depth beta player ply capture_forced tt_move
         i moves alpha best_score best_move_local flag st
       = Some (Finished score m TT_BETA st') /\
       history_at st' side from to = history_at st1 side from to + depth * depth /\
       (forall s f t, (s, f, t) <> (side, from, to) ->
          history_at st' s f t = history_at st1 s f t) /\
       (is_white_piece player = false ->
        forall f t, history_at st' 0 f t = history_at st1 0 f t)).
Proof.
  split.
  - intros st m tt_best ply k0 k1 Htt Hlong Hrow Hk0 Hm0 Hk1 Hm1.
    unfold score_move_ordering. rewrite Htt, Hlong, Hrow, Hk0. cbn [mbind option_bind].
    rewrite Hm0, Hk1. cbn [mbind option_bind]. rewrite Hm1. reflexivity.
  - intros rec n board depth beta player ply capture_forced tt_move i moves alpha best_score
           best_move_local flag st picked temp_board captured score st1
           m promotion extension reduction from to side
           Hply Hpick Happ Hchild Hstop Hbest Halpha Hbeta Hquiet Hone.
    destruct (record_cutoff_in_table st1 player ply depth m Hply)
      as (st' & Hcut & _ & _ & _ & Hread).
    fold from to side in Hread.
    exists st'. split.
    + rewrite (search_moves_cutoff rec n board depth beta player ply capture_forced tt_move
                 i moves alpha best_score best_move_local flag st picked temp_board captured
                 score st1 Hpick Happ Hchild Hstop Hbest Halpha Hbeta).
      fold m. rewrite Hquiet, Hone, Hcut. reflexivity.
    + split; [| split].
      * rewrite Hread. destruct (decide _); [reflexivity | congruence].
      * intros s f t Hne. rewrite Hread. destruct (decide _); [congruence | reflexivity].
      * intros Hblack f t. rewrite Hread. subst side. rewrite Hblack.
        destruct (decide _) as [Heq | _]; [discriminate Heq | reflexivity].
Qed.

(** C8 as stated fails for kings.  The white king of [king_edge_board]
    has no capture and the quiet moves [king_edge_move], onto row 0, and
    [king_slide_move], four rows along a diagonal.  Neither is the TT
    best move, a promotion or a killer, and the history slots of both
    hold 77; the ordering gives the first 950000 and the second
    1001000. *)
Lemma king_moves_skip_history :
  In king_edge_move (ml_list (generate_moves king_edge_board WHITE_MAN)) /\
  In king_slide_move (ml_list (generate_moves king_edge_board WHITE_MAN)) /\
  bget king_edge_board (1 * 8 + 2) = WHITE_KING /\
  is_promotion_move king_edge_move WHITE_KING = false /\
  is_promotion_move king_slide_move WHITE_KING = false /\
  ml_list (capture_scan king_edge_board WHITE_MAN (clear new_movelist)) = [] /\
  move_eq king_edge_move zero_move = false /\
  move_eq king_slide_move zero_move = false /\
  killer_at king_history_state 0 0 = Some zero_move /\
  killer_at king_history_state 0 1 = Some zero_move /\
  history_at king_history_state 0 (1 * 8 + 2) (0 * 8 + 1) = 77 /\
  history_at king_history_state 0 (1 * 8 + 2) (5 * 8 + 6) = 77 /\
  score_move_ordering king_history_state king_edge_move zero_move 0 = Some 950000 /\
  score_move_ordering king_history_state king_slide_move zero_move 0 = Some 1001000.
Proof.
  vm_compute. repeat split; try reflexivity; repeat (first [left; reflexivity | right]).
Qed.

(** A beta cutoff in the move loop of [alpha_beta], at a ply within
    [killer_moves]: a single step without forced capture becomes the
    first killer of the node's ply, the former first killer the second,
    and other plies keep theirs; the ordering then gives that move, at
    that ply, the first-killer score 900000 unless a higher class applies
    (the table move, a long move, a move to the first or last row).  Any
    other cutting move leaves the globals as the child's search left
    them. *)
Theorem cutoff_move_becomes_killer
    (rec : list Z -> Z -> Z -> Z -> Z -> Z -> bool -> SearchState -> option (Z * SearchState))
    (n : nat) (board : list Z) (depth beta player ply : Z) (capture_forced : bool)
    (tt_move : Move) (i : Z) (moves : MoveList) (alpha best_score : Z)
    (best_move_local : Move) (flag : Z) (st : SearchState)
    (picked : MoveList) (temp_board : list Z) (captured score : Z) (st1 : SearchState) :
  let m := move_at picked i in
  let promotion :=
    is_promotion_move m (bget board (r1 (step_at m 0) * 8 + c1 (step_at m 0))) in
  let extension := if promotion && (ply <? MAX_PLY) then 1 else 0 in
  let reduction :=
    if (depth >=? 3) && negb capture_forced && negb promotion &&
       (m_count m =? 1) && (i >? 3) then 1 else 0 in
  0 <= ply < MAX_PLY ->
  pick_move st moves i tt_move ply = Some picked ->
  apply_move board m player 0 = Some (temp_board, captured) ->
  pvs_child rec temp_board i depth alpha beta (enemy_of player) ply reduction extension st
    = Some (score, st1) ->
  stop_search st1 = false -> best_score < score -> alpha < score -> beta <= score ->
  exists st',
    search_moves rec (S n) board depth beta player ply capture_forced tt_move
      i moves alpha best_score best_move_local flag st
    = Some (Finished score m TT_BETA st') /\
    if negb capture_forced && (m_count m =? 1)
    then killer_at st' ply 0 = Some m /\
         killer_at st' ply 1 = killer_at st1 ply 0 /\
         (forall p slot, p <> ply -> killer_at st' p slot = killer_at st1 p slot) /\
         (forall tt_best,
            move_eq m tt_best = false ->
            (m_count m >? 0) &&
              (Z.abs (r1 (step_at m 0) - r2 (step_at m (m_count m - 1))) >? 2) = false ->
            (r2 (step_at m (m_count m - 1)) =? 0) || (r2 (step_at m (m_count m - 1)) =? 7)
              = false ->
            score_move_ordering st' m tt_best ply = Some 900000)
    else st' = st1.
Proof.
  intros m promotion extension reduction Hply Hpick Happ Hchild Hstop Hbest Halpha Hbeta.
  rewrite (search_moves_cutoff rec n board depth beta player ply capture_forced tt_move
             i moves alpha best_score best_move_local flag st picked temp_board captured
             score st1 Hpick Happ Hchild Hstop Hbest Halpha Hbeta).
  fold m. destruct (negb capture_forced && (m_count m =? 1)).
  - destruct (record_cutoff_in_table st1 player ply depth m Hply)
      as (st' & Hcut & Hfirst & Hsecond & Hother & _).
    exists st'. rewrite Hcut. split; [reflexivity |].
    split; [exact Hfirst |]. split; [exact Hsecond |]. split; [exact Hother |].
    intros tt_best Htt Hlong Hrow. unfold score_move_ordering.
    rewrite Htt, Hlong, Hrow, Hfirst. cbn [mbind option_bind].
    rewrite move_eq_refl. reflexivity.
  - exists st1. split; reflexivity.
Qed.

(** * Captures are seen as captures *)

Lemma max_steps_attained (l : list Move) :
  l <> [] -> Forall (fun m => 0 <= m_count m) l ->
  exists m, In m l /\ m_count m = max_steps l.
Proof.
  induction l as [| x l IH]; intros Hne Hpos; [contradiction |].
  apply Forall_cons in Hpos as [Hx Hl]. simpl.
  destruct l as [| y l'].
  - exists x. split; [left; reflexivity |]. simpl. lia.
  - destruct IH as (m & Hm & Hmax); [discriminate | exact Hl |].
    destruct (Z.max_spec (m_count x) (max_steps (y :: l'))) as [[_ ->] | [_ ->]].
    + exists m. split; [right; exact Hm | exact Hmax].
    + exists x. split; [left; reflexivity | reflexivity].
Qed.

Lemma captures_only (board : list Z) (player : Z) :
  ml_list (capture_scan board player (clear new_movelist)) <> [] ->
  0 < ml_count (generate_moves board player) /\
  (forall m, In m (ml_list (generate_moves board player)) -> is_capture_move m = true).
Proof.
  intros Hcaps.
  destruct (generate_moves_cases board player) as (Hwf & Hcap & _).
  specialize (Hcap Hcaps).
  pose proof (captures_shaped board player) as Hshape.
  assert (forall m, In m (ml_list (generate_moves board player)) -> is_capture_move m = true)
    as Hall.
  { intros m Hm. rewrite Hcap in Hm. apply filter_In in Hm as [Hm _].
    rewrite List.Forall_forall in Hshape. destruct (Hshape m Hm) as (Hc & _ & Hsteps).
    destruct (Hsteps 0) as (_ & _ & Hjump); [lia |].
    unfold is_capture_move. destruct (Z.eqb_spec (m_count m) 0); [lia |].
    apply Z.gtb_lt. lia. }
  split; [| exact Hall].
  destruct (max_steps_attained _ Hcaps) as (m & Hm & Hmax).
  - eapply Forall_impl; [exact Hshape |]. intros x (Hx & _). simpl. lia.
  - assert (In m (ml_list (generate_moves board player))) as Hin.
    { rewrite Hcap. apply filter_In. split; [exact Hm | apply Z.eqb_eq, Hmax]. }
    destruct (Z.lt_ge_cases 0 (ml_count (generate_moves board player))) as [? | Hz];
      [assumption |].
    assert (ml_list (generate_moves board player) = []) as Hnil
      by (apply ml_list_nil; [exact Hwf | destruct Hwf; lia]).
    rewrite Hnil in Hin. destruct Hin.
Qed.

(** When the side to move has a capture, the list is not empty, every
    move of it is a capture for [is_capture_move], and so the test that
    [alpha_beta] makes on the first move sets [capture_forced]. *)
Theorem capture_sets_capture_forced (board : list Z) (player : Z) :
  ml_list (capture_scan board player (clear new_movelist)) <> [] ->
  0 < ml_count (generate_moves board player) /\
  (forall m, In m (ml_list (generate_moves board player)) -> is_capture_move m = true) /\
  (ml_count (generate_moves board player) >? 0)
  && is_capture_move (move_at (generate_moves board player) 0) = true.
Proof.
  intros Hcaps. destruct (captures_only board player Hcaps) as [Hpos Hall].
  split; [exact Hpos |]. split; [exact Hall |].
  apply andb_true_iff. split; [apply Z.gtb_lt; exact Hpos |].
  apply Hall, move_at_in; [apply generate_moves_cases | lia].
Qed.

(** * Promotion *)

(** [is_promotion_move] and [apply_move] agree: a move the search takes
    for a promotion leaves a king of the mover's colour on its
    destination square. *)
Theorem promotion_move_crowns (board : list Z) (m : Move) (player captured : Z)
    (board' : list Z) (captured' : Z) :
  length board = 64%nat ->
  is_valid (r2 (step_at m 0)) (c2 (step_at m 0)) = true ->
  is_promotion_move m (bget board (r1 (step_at m 0) * 8 + c1 (step_at m 0))) = true ->
  apply_move board m player captured = Some (board', captured') ->
  bget board' (r2 (step_at m 0) * 8 + c2 (step_at m 0))
  = if bget board (r1 (step_at m 0) * 8 + c1 (step_at m 0)) =? WHITE_MAN
    then WHITE_KING else BLACK_KING.
Proof.
  intros Hlen Hdest Hpromo Happly.
  apply is_valid_spec in Hdest.
  unfold is_promotion_move in Hpromo.
  destruct (Z.eqb_spec (m_count m) 1) as [Hone | Hne]; [| discriminate Hpromo].
  simpl in Hpromo. unfold apply_move in Happly. cbv zeta in Happly.
  rewrite Hone in Happly. change (1 - 1) with 0 in Happly.
  set (piece := bget board (r1 (step_at m 0) * 8 + c1 (step_at m 0))) in *.
  set (dest := r2 (step_at m 0) * 8 + c2 (step_at m 0)) in *.
  set (placed := bset (bset board (r1 (step_at m 0) * 8 + c1 (step_at m 0)) EMPTY) dest piece)
    in *.
  assert (length placed = 64%nat) as Hplaced
    by (unfold placed; rewrite !bset_length; exact Hlen).
  match type of Happly with
  | mbind _ ?x = _ => destruct x as [[b1 c1'] |] eqn:Hwalk; [| discriminate Happly]
  end.
  assert (length b1 = 64%nat) as Hb1.
  { destruct (_ || _).
    - destruct (apply_steps_length _ _ _ _ _ Hwalk) as (b0 & c0 & Heq & Hl).
      injection Heq as <- _. congruence.
    - injection Hwalk as <- _. exact Hplaced. }
  cbn [mbind option_bind] in Happly. injection Happly as <- _.
  assert (0 <= dest < Z.of_nat (length b1)) as Hin by (unfold dest; lia).
  unfold WHITE_MAN, BLACK_MAN in *.
  destruct (Z.eqb_spec piece 2) as [Hw | Hnw].
  - destruct (Z.eqb_spec (r2 (step_at m 0)) 0) as [Hr | Hr]; simpl in Hpromo.
    + destruct (Z.eqb_spec piece 1); [lia |]. simpl. apply bget_bset_eq, Hin.
    + destruct (Z.eqb_spec piece 1); [lia | discriminate Hpromo].
  - simpl in Hpromo. simpl.
    destruct (Z.eqb_spec piece 1) as [Hb | Hb]; [| discriminate Hpromo].
    destruct (Z.eqb_spec (r2 (step_at m 0)) 7) as [Hr | Hr]; [| discriminate Hpromo].
    simpl. apply bget_bset_eq, Hin.
Qed.

(** * Zobrist hash *)

Lemma fold_left_ext_in {A B} (f g : A -> B -> A) (l : list B) :
  (forall a x, In x l -> f a x = g a x) -> forall a, fold_left f l a = fold_left g l a.
Proof.
  induction l as [| x l IH]; intros Hfg a; simpl; [reflexivity |].
  rewrite Hfg by (left; reflexivity). apply IH. intros a' y Hy. apply Hfg. right. exact Hy.
Qed.

Lemma range_app (lo : Z) (a b : nat) :
  range lo (a + b) = range lo a ++ range (lo + Z.of_nat a) b.
Proof.
  revert lo. induction a as [| a IH]; intros lo.
  - change (Z.of_nat 0) with 0. rewrite Z.add_0_r. reflexivity.
  - change (S a + b)%nat with (S (a + b)). rewrite !range_cons, IH. simpl.
    f_equal. f_equal. f_equal. lia.
Qed.

Section Hash.
Variable zobrist_table : Z -> Z -> Z.
Variable zobrist_black_move : Z.

Lemma hash_step_key (board : list Z) (h i : Z) :
  (if negb (bget board i =? EMPTY) && negb (bget board i =? GHOST)
   then Z.lxor h (zobrist_table i (bget board i)) else h)
  = Z.lxor h (square_key zobrist_table i (bget board i)).
Proof. unfold square_key. destruct (_ && _); [reflexivity | symmetry; apply Z.lxor_0_r]. Qed.

Lemma hash_fold_keys (board : list Z) (l : list Z) (h : Z) :
  fold_left (fun h i =>
      if negb (bget board i =? EMPTY) && negb (bget board i =? GHOST)
      then Z.lxor h (zobrist_table i (bget board i)) else h) l h
  = fold_left (fun h i => Z.lxor h (square_key zobrist_table i (bget board i))) l h.
Proof. apply fold_left_ext_in. intros a x _. apply hash_step_key. Qed.

Lemma xor_fold_shift (k : Z -> Z) (l : list Z) (h d : Z) :
  fold_left (fun h i => Z.lxor h (k i)) l (Z.lxor h d)
  = Z.lxor (fold_left (fun h i => Z.lxor h (k i)) l h) d.
Proof.
  revert h. induction l as [| x l IH]; intros h; simpl; [reflexivity |].
  rewrite <- IH. f_equal. rewrite !Z.lxor_assoc. f_equal. apply Z.lxor_comm.
Qed.

(** Two boards that agree on every square, up to taking a ghost for an
    empty square, hash alike for sides of the same colour. *)
Theorem compute_hash_ignores_ghosts (board board' : list Z) (player player' : Z) :
  (forall i, 0 <= i < 64 ->
     bget board i = bget board' i \/
     (bget board i = EMPTY \/ bget board i = GHOST) /\
     (bget board' i = EMPTY \/ bget board' i = GHOST)) ->
  is_black_side player = is_black_side player' ->
  compute_hash zobrist_table zobrist_black_move board player
  = compute_hash zobrist_table zobrist_black_move board' player'.
Proof.
  intros Hsq Hside. unfold compute_hash. cbv zeta.
  fold (is_black_side player). fold (is_black_side player'). rewrite Hside.
  assert (fold_left (fun h i =>
              if negb (bget board i =? EMPTY) && negb (bget board i =? GHOST)
              then Z.lxor h (zobrist_table i (bget board i)) else h) (range 0 64) 0
          = fold_left (fun h i =>
              if negb (bget board' i =? EMPTY) && negb (bget board' i =? GHOST)
              then Z.lxor h (zobrist_table i (bget board' i)) else h) (range 0 64) 0) as ->;
    [| reflexivity].
  apply fold_left_ext_in. intros h i Hi. apply in_range in Hi.
  destruct (Hsq i) as [-> | [[He | He] [He' | He']]]; [lia | reflexivity | | | |];
    rewrite He, He'; reflexivity.
Qed.

(** Writing one square changes the hash by the keys of its old and new
    content. *)
Theorem compute_hash_one_square (board : list Z) (player i v : Z) :
  length board = 64%nat -> 0 <= i < 64 ->
  compute_hash zobrist_table zobrist_black_move (bset board i v) player
  = Z.lxor (Z.lxor (compute_hash zobrist_table zobrist_black_move board player)
              (square_key zobrist_table i (bget board i)))
      (square_key zobrist_table i v).
Proof.
  intros Hlen Hi.
  assert (forall b l h,
            fold_left (fun h i =>
              if negb (bget b i =? EMPTY) && negb (bget b i =? GHOST)
              then Z.lxor h (zobrist_table i (bget b i)) else h) l h
            = fold_left (fun h i => Z.lxor h (square_key zobrist_table i (bget b i))) l h)
    as Hkeys by (intros; apply hash_fold_keys).
  assert (fold_left (fun h j => Z.lxor h (square_key zobrist_table j (bget (bset board i v) j)))
            (range 0 64) 0
          = Z.lxor (Z.lxor (fold_left (fun h j => Z.lxor h (square_key zobrist_table j (bget board j)))
                              (range 0 64) 0)
                      (square_key zobrist_table i (bget board i)))
              (square_key zobrist_table i v)) as Hfold.
  { assert (range 0 64 = range 0 (Z.to_nat i) ++ i :: range (i + 1) (Z.to_nat (63 - i))) as ->.
    { replace 64%nat with (Z.to_nat i + S (Z.to_nat (63 - i)))%nat by lia.
      rewrite range_app, range_cons. do 3 f_equal; lia. }
    rewrite !fold_left_app. cbn [fold_left].
    assert (forall l h, (forall j, In j l -> j <> i) ->
              fold_left (fun h j => Z.lxor h (square_key zobrist_table j (bget (bset board i v) j))) l h
              = fold_left (fun h j => Z.lxor h (square_key zobrist_table j (bget board j))) l h)
      as Hsame.
    { intros l h Hl. apply fold_left_ext_in. intros a j Hj.
      rewrite bget_bset_ne by (apply Hl, Hj). reflexivity. }
    rewrite !Hsame by (intros j Hj; apply in_range in Hj; lia).
    rewrite bget_bset_eq by lia.
    set (pre := fold_left _ (range 0 (Z.to_nat i)) 0).
    set (kold := square_key zobrist_table i (bget board i)).
    set (knew := square_key zobrist_table i v).
    replace (Z.lxor pre knew) with (Z.lxor (Z.lxor pre kold) (Z.lxor kold knew)).
    - rewrite xor_fold_shift. rewrite Z.lxor_assoc. reflexivity.
    - rewrite <- Z.lxor_assoc, (Z.lxor_assoc pre kold kold), Z.lxor_nilpotent, Z.lxor_0_r.
      reflexivity. }
  unfold compute_hash. cbv zeta. rewrite !Hkeys, Hfold.
  destruct (_ || _); [| reflexivity].
  set (h := fold_left _ _ 0).
  rewrite !Z.lxor_assoc. f_equal. rewrite <- !Z.lxor_assoc.
  rewrite (Z.lxor_comm _ zobrist_black_move). rewrite !Z.lxor_assoc. reflexivity.
Qed.
End Hash.

(** * Evaluation stays below the mate band *)

Lemma pst_bounds (i : Z) :
  In i (range 0 64) ->
  0 <= tab PST_WHITE i <= 1500 /\ 0 <= tab PST_BLACK i <= 1500.
Proof.
  intros Hi.
  assert ((0 <=? tab PST_WHITE i) && (tab PST_WHITE i <=? 1500)
          && (0 <=? tab PST_BLACK i) && (tab PST_BLACK i <=? 1500) = true) as H.
  { revert i Hi.
    apply (proj1 (forallb_forall
      (fun i => (0 <=? tab PST_WHITE i) && (tab PST_WHITE i <=? 1500)
                && (0 <=? tab PST_BLACK i) && (tab PST_BLACK i <=? 1500)) (range 0 64))).
    vm_compute. reflexivity. }
  rewrite !andb_true_iff, !Z.leb_le in H. lia.
Qed.

Lemma b2z_bounds (b : bool) : 0 <= b2z b <= 1.
Proof. destruct b; simpl; lia. Qed.

Lemma tally_square_within (board : list Z) (t : Tally) (i k : Z) :
  In i (range 0 64) -> tally_within t k -> tally_within (tally_square board t i) (k + 1).
Proof.
  intros Hi Ht. destruct (pst_bounds i Hi) as [Hw Hb].
  unfold tally_within in *. unfold tally_square. cbv zeta.
  unfold VAL_PAWN, VAL_KING, RUNAWAY_BONUS.
  destruct (_ || _); [lia |].
  destruct (bget board i =? WHITE_MAN).
  { cbn [w_score b_score w_men b_men w_kings b_kings w_moves b_moves].
    pose proof (b2z_bounds ((tab C i >? 0) && (bget board (i - 9) =? EMPTY))).
    pose proof (b2z_bounds ((tab C i <? 7) && (bget board (i - 7) =? EMPTY))).
    destruct (tab R i <=? 2); destruct (tab R i >? 0); lia. }
  destruct (bget board i =? BLACK_MAN).
  { cbn [w_score b_score w_men b_men w_kings b_kings w_moves b_moves].
    pose proof (b2z_bounds ((tab C i >? 0) && (bget board (i + 7) =? EMPTY))).
    pose proof (b2z_bounds ((tab C i <? 7) && (bget board (i + 9) =? EMPTY))).
    destruct (tab R i >=? 5); destruct (tab R i <? 7); lia. }
  destruct (bget board i =? WHITE_KING); [simpl; lia |].
  destruct (bget board i =? BLACK_KING); [simpl; lia |]. lia.
Qed.

Lemma tally_fold_within (board : list Z) (l : list Z) :
  (forall i, In i l -> In i (range 0 64)) ->
  forall t k, tally_within t k ->
  tally_within (fold_left (tally_square board) l t) (k + Z.of_nat (length l)).
Proof.
  induction l as [| i l IH]; intros Hl t k Ht.
  - cbn [fold_left length]. change (Z.of_nat 0) with 0. rewrite Z.add_0_r. exact Ht.
  - cbn [fold_left length].
    replace (k + Z.of_nat (S (length l))) with (k + 1 + Z.of_nat (length l)) by lia.
    apply IH; [intros j Hj; apply Hl; right; exact Hj |].
    apply tally_square_within; [apply Hl; left; reflexivity | exact Ht].
Qed.

Lemma danger_black_fold (board : list Z) (l : list Z) (ws : Z) :
  ws - 1000 * Z.of_nat (length l) <= fold_left (danger_black board) l ws <= ws.
Proof.
  revert ws. induction l as [| i l IH]; intros ws; [simpl; lia |].
  cbn [fold_left length]. specialize (IH (danger_black board ws i)).
  assert (ws - 1000 <= danger_black board ws i <= ws) as Hstep.
  { unfold danger_black, DANGER_NEAR_KING. cbv zeta.
    destruct (_ =? BLACK_MAN); [| lia]. destruct (negb _); lia. }
  lia.
Qed.

Lemma danger_white_fold (board : list Z) (l : list Z) (bs : Z) :
  bs - 1000 * Z.of_nat (length l) <= fold_left (danger_white board) l bs <= bs.
Proof.
  revert bs. induction l as [| i l IH]; intros bs; [simpl; lia |].
  cbn [fold_left length]. specialize (IH (danger_white board bs i)).
  assert (bs - 1000 <= danger_white board bs i <= bs) as Hstep.
  { unfold danger_white, DANGER_NEAR_KING. cbv zeta.
    destruct (_ =? WHITE_MAN); [| lia]. destruct (negb _); lia. }
  lia.
Qed.

Lemma imbalance_bonus (n : Z) : 0 <= n -> 0 <= 2500 ÷ (n + 1) <= 2500.
Proof.
  intros Hn. rewrite Z.quot_div_nonneg by lia. split.
  - apply Z.div_pos; lia.
  - apply Z.div_le_upper_bound; lia.
Qed.

(** For every board, whatever codes it holds, and either side, the
    static score is at most 524420 in absolute value: far from the
    scores within 5000 of [MATE] that the driver reads as a mate. *)
Theorem evaluate_below_mate (board : list Z) (player : Z) :
  Z.abs (evaluate board player) <= 524420 /\ 524420 < MATE - 5000.
Proof.
  split; [| unfold MATE; lia].
  assert (tally_within (mkTally 0 0 0 0 0 0 0 0) 0) as Hzero
    by (unfold tally_within; simpl; lia).
  pose proof (tally_fold_within board (range 0 64) (fun i Hi => Hi)
                (mkTally 0 0 0 0 0 0 0 0) 0 Hzero) as Ht.
  unfold evaluate. cbv zeta.
  set (t := fold_left (tally_square board) (range 0 64) (mkTally 0 0 0 0 0 0 0 0)) in *.
  change (0 + Z.of_nat (length (range 0 64))) with 64 in Ht.
  unfold tally_within in Ht.
  pose proof (danger_black_fold board (range 48 8) (w_score t)) as Hdb.
  pose proof (danger_white_fold board (range 8 8) (b_score t)) as Hdw.
  change (Z.of_nat (length (range 48 8))) with 8 in Hdb.
  change (Z.of_nat (length (range 8 8))) with 8 in Hdw.
  pose proof (imbalance_bonus (b_men t + b_kings t) ltac:(lia)) as Hbw.
  pose proof (imbalance_bonus (w_men t + w_kings t) ltac:(lia)) as Hbb.
  unfold MOBILITY_WEIGHT.
  destruct (_ >? _); destruct (_ >? _); destruct (_ || _); lia.
Qed.

(** * What a search does to the globals *)

Lemma state_grows_refl (st : SearchState) : state_grows st st.
Proof. repeat split; auto; lia. Qed.

Lemma state_grows_trans (a b c : SearchState) :
  state_grows a b -> state_grows b c -> state_grows a c.
Proof. intros (H1 & H2 & H3) (H4 & H5 & H6). repeat split; [lia | auto | congruence]. Qed.

Lemma post_grows (st : SearchState) (v : Z) (st' : SearchState) :
  search_post st v st' -> state_grows st st'.
Proof. intros (H1 & H2 & _ & H4). repeat split; [lia | exact H2 | exact H4]. Qed.

Lemma record_cutoff_grows (st : SearchState) (player ply depth : Z) (m : Move)
    (st' : SearchState) :
  record_cutoff st player ply depth m = Some st' ->
  state_grows st st' /\ stop_search st' = stop_search st.
Proof.
  unfold record_cutoff. destruct (killer_at st ply 0); [| discriminate].
  cbn [mbind option_bind]. intros [= <-].
  split; [repeat split; simpl; auto; lia | reflexivity].
Qed.

Section NodePost.
Variable rec : list Z -> Z -> Z -> Z -> Z -> Z -> bool -> SearchState
               -> option (Z * SearchState).
Hypothesis Hrec : rec_post rec.

Lemma pvs_child_post (temp_board : list Z) (i depth alpha beta enemy ply reduction extension : Z)
    (st : SearchState) (v : Z) (st' : SearchState) :
  pvs_child rec temp_board i depth alpha beta enemy ply reduction extension st = Some (v, st') ->
  search_post st v st'.
Proof.
  unfold pvs_child. destruct (i =? 0).
  - destruct (rec _ _ _ _ _ _ _ st) as [[s st1] |] eqn:H1; [| discriminate].
    cbn [mbind option_bind]. intros [= <- <-].
    destruct (Hrec _ _ _ _ _ _ _ _ _ _ H1) as (Hn & Hs & Hz & Ha).
    repeat split; auto. intros Hstop. rewrite (Hz Hstop). reflexivity.
  - destruct (rec _ _ _ _ _ _ _ st) as [[s st1] |] eqn:H1; [| discriminate].
    cbn [mbind option_bind].
    destruct (Hrec _ _ _ _ _ _ _ _ _ _ H1) as (Hn & Hs & Hz & Ha).
    destruct (_ && _).
    + destruct (rec _ _ _ _ _ _ _ st1) as [[s2 st2] |] eqn:H2; [| discriminate].
      cbn [mbind option_bind]. intros [= <- <-].
      destruct (Hrec _ _ _ _ _ _ _ _ _ _ H2) as (Hn2 & Hs2 & Hz2 & Ha2).
      repeat split; [lia | auto | | congruence].
      intros Hstop. rewrite (Hz2 Hstop). reflexivity.
    + intros [= <- <-]. repeat split; auto.
      intros Hstop. rewrite (Hz Hstop). reflexivity.
Qed.

Lemma search_moves_post (board : list Z) (depth beta player ply : Z) (capture_forced : bool)
    (tt_move : Move) (n : nat) :
  forall i moves alpha best_score best_move_local flag st out,
  search_moves rec n board depth beta player ply capture_forced tt_move
    i moves alpha best_score best_move_local flag st = Some out ->
  match out with
  | Stopped st' => state_grows st st'
  | Finished _ _ _ st' =>
    state_grows st st' /\ (stop_search st = false -> stop_search st' = false)
  end.
Proof.
  induction n as [| n IH]; intros i moves alpha best_score bm flag st out; cbn [search_moves].
  - intros [= <-]. split; [apply state_grows_refl | auto].
  - destruct (pick_move st moves i tt_move ply) as [picked |]; [| discriminate].
    cbn [mbind option_bind]. cbv zeta.
    destruct (apply_move _ _ _ _) as [[tb cap] |]; [| discriminate].
    cbn [mbind option_bind].
    match goal with
    | |- mbind _ ?x = _ -> _ => destruct x as [[score st1] |] eqn:Hchild; [| discriminate]
    end.
    cbn [mbind option_bind].
    pose proof (post_grows _ _ _ (pvs_child_post _ _ _ _ _ _ _ _ _ _ _ _ Hchild)) as Hg.
    destruct (stop_search st1) eqn:Hstop1.
    { intros [= <-]. exact Hg. }
    assert (forall out', 
              (match out' with
               | Stopped st' => state_grows st1 st'
               | Finished _ _ _ st' =>
                 state_grows st1 st' /\ (stop_search st1 = false -> stop_search st' = false)
               end) ->
              match out' with
              | Stopped st' => state_grows st st'
              | Finished _ _ _ st' =>
                state_grows st st' /\ (stop_search st = false -> stop_search st' = false)
              end) as Hlift.
    { intros [st' | bs' bm' fl' st'].
      - intros H. exact (state_grows_trans _ _ _ Hg H).
      - intros [H Hk]. split; [exact (state_grows_trans _ _ _ Hg H) | auto]. }
    destruct (score >? best_score); [| intros H; apply Hlift, (IH _ _ _ _ _ _ _ _ H)].
    destruct (score >? alpha); [| intros H; apply Hlift, (IH _ _ _ _ _ _ _ _ H)].
    destruct (score >=? beta); [| intros H; apply Hlift, (IH _ _ _ _ _ _ _ _ H)].
    destruct (negb capture_forced && _).
    + destruct (record_cutoff st1 player ply depth (move_at picked i)) as [st2 |] eqn:Hcut;
        [| discriminate].
      cbn [mbind option_bind]. intros [= <-].
      destruct (record_cutoff_grows _ _ _ _ _ _ Hcut) as [Hc Hs].
      split; [exact (state_grows_trans _ _ _ Hg Hc) |]. intros _. rewrite Hs. exact Hstop1.
    + cbn [mbind option_bind]. intros [= <-]. split; [exact Hg | auto].
Qed.
End NodePost.

Section SearchPost.
Variable zobrist_table : Z -> Z -> Z.
Variable zobrist_black_move : Z.
Variable expired : Z -> bool.

Lemma tick_grows (st : SearchState) :
  nodes_visited (tick expired st) = nodes_visited st + 1 /\
  (stop_search st = true -> stop_search (tick expired st) = true) /\
  tt_allocated (tick expired st) = tt_allocated st.
Proof.
  unfold tick. cbv zeta. destruct (_ =? 0); [destruct (expired _) |]; simpl; auto.
Qed.

Lemma alpha_beta_keeps_globals (fuel : nat) :
  forall board depth alpha beta player ply do_null st v st',
  alpha_beta zobrist_table zobrist_black_move expired fuel
    board depth alpha beta player ply do_null st = Some (v, st') ->
  nodes_visited st < nodes_visited st' /\
  (stop_search st = true -> stop_search st' = true) /\
  (stop_search st' = true -> v = 0) /\
  tt_allocated st' = tt_allocated st.
Proof.
  induction fuel as [| fuel IH]; intros board depth alpha beta player ply do_null st v st';
    [discriminate |].
  cbn [alpha_beta]. unfold alpha_beta_body. cbv zeta.
  destruct (tick_grows st) as (Hn & Hs & Ha).
  destruct (stop_search (tick expired st)) eqn:Hstop.
  { intros [= <- <-]. repeat split; auto; lia. }
  assert (forall x, Some (x, tick expired st) = Some (v, st') ->
            nodes_visited st < nodes_visited st' /\
            (stop_search st = true -> stop_search st' = true) /\
            (stop_search st' = true -> v = 0) /\
            tt_allocated st' = tt_allocated st) as Hearly.
  { intros x [= <- <-]. split; [lia |]. split; [intros H; discriminate (Hs H) |].
    split; [| exact Ha]. intros H. rewrite H in Hstop. discriminate. }
  destruct (_ =? 0); [apply Hearly |].
  destruct (stand_pat _ _ _ _ _); [apply Hearly |].
  unfold search_node. cbv zeta.
  assert (forall h tt_move,
            search_and_save (alpha_beta zobrist_table zobrist_black_move expired fuel)
              board depth alpha beta player ply (generate_moves board player)
              ((ml_count (generate_moves board player) >? 0)
               && is_capture_move (move_at (generate_moves board player) 0))
              h tt_move (tick expired st) = Some (v, st') ->
            nodes_visited st < nodes_visited st' /\
            (stop_search st = true -> stop_search st' = true) /\
            (stop_search st' = true -> v = 0) /\
            tt_allocated st' = tt_allocated st) as Hloop.
  { intros h tt_move. unfold search_and_save.
    destruct (search_moves _ _ _ _ _ _ _ _ _ _ _ _ _ _ _ _) as [out |] eqn:Hout;
      [| discriminate].
    cbn [mbind option_bind].
    pose proof (search_moves_post _ IH _ _ _ _ _ _ _ _ _ _ _ _ _ _ _ _ Hout) as Hpost.
    destruct out as [st2 | bs bm fl st2].
    - intros [= <- <-]. destruct Hpost as (H1 & H2 & H3).
      split; [lia |]. split; [intros H; discriminate (Hs H) |].
      split; [reflexivity | congruence].
    - intros [= <- <-]. destruct Hpost as [(H1 & H2 & H3) Hk].
      split; [simpl; lia |]. split; [intros H; discriminate (Hs H) |].
      split; [| simpl; congruence].
      simpl. intros Hst. rewrite (Hk Hstop) in Hst. discriminate. }
  destruct (fst (tt_probe _ _ _ _ _ _)); [destruct (ply >? 0); [apply Hearly |] |]; apply Hloop.
Qed.
End SearchPost.

(** * Quiet moves on the board *)

Lemma capture_walk_empty_path (n : nat) :
  forall board curr_r curr_c er dr dc captured k,
  0 <= k -> (Z.to_nat k < n)%nat -> er = curr_r + k * dr -> (dr = 1 \/ dr = -1) ->
  (forall j, 0 <= j < k -> bget board ((curr_r + j * dr) * 8 + (curr_c + j * dc)) = EMPTY) ->
  capture_walk n board curr_r curr_c er dr dc captured = Some (board, captured).
Proof.
  induction n as [| n IH]; intros board curr_r curr_c er dr dc captured k Hk Hn Her Hdr Hpath;
    [lia |].
  cbn [capture_walk]. destruct (Z.eqb_spec curr_r er) as [_ | Hne]; [reflexivity |].
  assert (0 < k) as Hpos by (destruct (decide (k = 0)) as [-> | ?]; lia).
  pose proof (Hpath 0 ltac:(lia)) as H0.
  replace (curr_r + 0 * dr) with curr_r in H0 by lia.
  replace (curr_c + 0 * dc) with curr_c in H0 by lia.
  rewrite H0. change (negb (EMPTY =? EMPTY)) with false. cbv iota.
  apply (IH _ _ _ _ _ _ _ (k - 1)); [lia | lia | lia | exact Hdr |].
  intros j Hj. specialize (Hpath (j + 1) ltac:(lia)).
  replace (curr_r + dr + j * dr) with (curr_r + (j + 1) * dr) by lia.
  replace (curr_c + dc + j * dc) with (curr_c + (j + 1) * dc) by lia. exact Hpath.
Qed.

Lemma quiet_shape (board : list Z) (player : Z) (m : Move) :
  legal_quiet board player m ->
  exists r c dr dc dist,
    m = single_step (mkStep r c (r + dist * dr) (c + dist * dc)) /\
    is_valid r c = true /\ (dr = 1 \/ dr = -1) /\ (dc = 1 \/ dc = -1) /\ 1 <= dist /\
    (bget board (r * 8 + c) = my_man_of player \/ bget board (r * 8 + c) = my_king_of player) /\
    forall k, 1 <= k <= dist ->
      is_valid (r + k * dr) (c + k * dc) = true /\
      bget board ((r + k * dr) * 8 + (c + k * dc)) = EMPTY.
Proof.
  intros (r & c & nr & nc & -> & Hrc & [Hman | Hking]).
  - destruct Hman as (Hown & -> & Hnc & Hv & He).
    exists r, c, (if is_white_piece player then -1 else 1), (nc - c), 1.
    replace (r + 1 * (if is_white_piece player then -1 else 1))
      with (r + (if is_white_piece player then -1 else 1)) by lia.
    replace (c + 1 * (nc - c)) with nc by lia.
    split; [reflexivity |]. split; [exact Hrc |].
    split; [destruct (is_white_piece player); lia |]. split; [lia |]. split; [lia |].
    split; [left; exact Hown |].
    intros k Hk. assert (k = 1) as -> by lia.
    replace (r + 1 * (if is_white_piece player then -1 else 1))
      with (r + (if is_white_piece player then -1 else 1)) by lia.
    replace (c + 1 * (nc - c)) with nc by lia. split; assumption.
  - destruct Hking as (Hown & dr & dc & dist & Hd & Hdist & -> & -> & Hpath).
    exists r, c, dr, dc, dist. split; [reflexivity |]. split; [exact Hrc |].
    assert ((dr = 1 \/ dr = -1) /\ (dc = 1 \/ dc = -1)) as [Hdr Hdc].
    { simpl in Hd. destruct Hd as [H | [H | [H | [H | []]]]]; injection H as <- <-; lia. }
    split; [exact Hdr |]. split; [exact Hdc |]. split; [exact Hdist |].
    split; [right; exact Hown | exact Hpath].
Qed.

(** A quiet move the generator emits, applied to the same board, moves
    exactly one piece: the source square is emptied, the destination
    takes the piece (crowned when a man reaches the far row), every other
    square and the captured-piece cell stay as they were. *)
Theorem quiet_move_moves_one_piece (board : list Z) (player : Z) (m : Move)
    (mover captured : Z) :
  length board = 64%nat ->
  ml_list (capture_scan board player (clear new_movelist)) = [] ->
  In m (ml_list (generate_moves board player)) ->
  let from := r1 (step_at m 0) * 8 + c1 (step_at m 0) in
  let to := r2 (step_at m 0) * 8 + c2 (step_at m 0) in
  let piece := bget board from in
  exists board',
    apply_move board m mover captured = Some (board', captured) /\
    length board' = 64%nat /\
    bget board' from = EMPTY /\
    bget board' to
    = (if (piece =? BLACK_MAN) && (r2 (step_at m 0) =? 7) then BLACK_KING
       else if (piece =? WHITE_MAN) && (r2 (step_at m 0) =? 0) then WHITE_KING
       else piece) /\
    forall k, k <> from -> k <> to -> bget board' k = bget board k.
Proof.
  intros Hlen Hnocap Hm.
  destruct (generate_moves_cases board player) as (_ & _ & Hquiet).
  rewrite (Hquiet Hnocap) in Hm. apply list_elem_of_In, elem_of_take in Hm as (i & Hm & _).
  apply list_elem_of_lookup_2, list_elem_of_In, all_quiet_legal, quiet_shape in Hm
    as (r & c & dr & dc & dist & -> & Hrc & Hdr & Hdc & Hdist & _ & Hpath).
  apply is_valid_spec in Hrc.
  destruct (Hpath dist ltac:(lia)) as [Hdest _]. apply is_valid_spec in Hdest.
  assert (step_at (single_step (mkStep r c (r + dist * dr) (c + dist * dc))) 0
          = mkStep r c (r + dist * dr) (c + dist * dc)) as Hs by reflexivity.
  cbv zeta. unfold apply_move. cbv zeta.
  cbn [m_count single_step]. change (1 - 1) with 0. rewrite !Hs. cbn [r1 c1 r2 c2].
  set (nr := r + dist * dr) in *. set (nc := c + dist * dc) in *.
  set (piece := bget board (r * 8 + c)).
  set (placed := bset (bset board (r * 8 + c) EMPTY) (nr * 8 + nc) piece).
  assert (nr <> r) as Hrows by (unfold nr; destruct Hdr as [-> | ->]; lia).
  assert (r * 8 + c <> nr * 8 + nc) as Hne by lia.
  assert (length placed = 64%nat) as Hplaced
    by (unfold placed; rewrite !bset_length; exact Hlen).
  assert ((if (Z.abs (r - nr) >=? 2) || (1 >? 1)
           then fold_left (apply_step (single_step (mkStep r c nr nc)))
                  (range 0 (Z.to_nat 1)) (Some (placed, captured))
           else Some (placed, captured)) = Some (placed, captured)) as ->.
  { destruct (_ || _); [| reflexivity].
    change (range 0 (Z.to_nat 1)) with [0]. cbn [fold_left]. unfold apply_step.
    cbn [mbind option_bind]. cbv zeta. rewrite !Hs. cbn [r1 c1 r2 c2].
    assert ((if nr >? r then 1 else -1) = dr) as ->.
    { unfold nr. destruct (Z.gtb_spec (r + dist * dr) r); destruct Hdr as [-> | ->]; lia. }
    assert ((if nc >? c then 1 else -1) = dc) as ->.
    { unfold nc. destruct (Z.gtb_spec (c + dist * dc) c); destruct Hdc as [-> | ->]; lia. }
    apply (capture_walk_empty_path 8 _ _ _ _ _ _ _ (dist - 1)).
    - lia.
    - unfold nr in Hdest. destruct Hdr as [-> | ->]; lia.
    - unfold nr. lia.
    - exact Hdr.
    - intros j Hj. destruct (Hpath (j + 1) ltac:(lia)) as [Hv He].
      apply is_valid_spec in Hv.
      replace (r + dr + j * dr) with (r + (j + 1) * dr) by lia.
      replace (c + dc + j * dc) with (c + (j + 1) * dc) by lia.
      assert (r + (j + 1) * dr <> r /\ r + (j + 1) * dr <> nr) as [Hr1 Hr2]
        by (unfold nr; destruct Hdr as [-> | ->]; lia).
      unfold placed. rewrite !bget_bset_ne by lia. exact He. }
  cbn [mbind option_bind]. eexists. split; [reflexivity |].
  assert (0 <= nr * 8 + nc < Z.of_nat (length placed)) as Hin by lia.
  assert (bget placed (r * 8 + c) = EMPTY) as Hsrc.
  { unfold placed. rewrite bget_bset_ne by exact Hne. apply bget_bset_eq.
    rewrite Hlen. lia. }
  assert (bget placed (nr * 8 + nc) = piece) as Hdst.
  { unfold placed. apply bget_bset_eq. rewrite bset_length, Hlen. lia. }
  assert (forall k, k <> r * 8 + c -> k <> nr * 8 + nc -> bget placed k = bget board k) as Hrest.
  { intros k H1 H2. unfold placed. rewrite !bget_bset_ne by assumption. reflexivity. }
  unfold WHITE_MAN, BLACK_MAN in *.
  destruct (Z.eqb_spec piece 1) as [Hb | Hb]; destruct (Z.eqb_spec piece 2) as [Hw | Hw];
    try lia; destruct (Z.eqb_spec nr 0) as [H0 | H0]; destruct (Z.eqb_spec nr 7) as [H7 | H7];
    try lia; cbn [andb]; cbv iota;
    rewrite ?bset_length; (split; [exact Hplaced |]);
    rewrite ?(bget_bset_ne _ (r * 8 + c)) by exact Hne;
    (split; [exact Hsrc |]);
    rewrite ?bget_bset_eq by exact Hin;
    (split; [first [reflexivity | exact Hdst] |]);
    intros k H1 H2; rewrite ?bget_bset_ne by exact H2; apply Hrest; assumption.
Qed.

(** * A single jump on the board *)

Lemma capture_walk_one_victim (n : nat) :
  forall board curr_r curr_c er dr dc captured k kv,
  0 <= kv < k -> (Z.to_nat k < n)%nat -> er = curr_r + k * dr -> (dr = 1 \/ dr = -1) ->
  (forall j, 0 <= j < k -> j <> kv ->
     bget board ((curr_r + j * dr) * 8 + (curr_c + j * dc)) = EMPTY) ->
  bget board ((curr_r + kv * dr) * 8 + (curr_c + kv * dc)) <> EMPTY ->
  capture_walk n board curr_r curr_c er dr dc captured
  = Some (bset board ((curr_r + kv * dr) * 8 + (curr_c + kv * dc)) EMPTY,
          bget board ((curr_r + kv * dr) * 8 + (curr_c + kv * dc))).
Proof.
  induction n as [| n IH];
    intros board curr_r curr_c er dr dc captured k kv Hkv Hn Her Hdr Hpath Hvictim; [lia |].
  cbn [capture_walk]. destruct (Z.eqb_spec curr_r er) as [Heq | _].
  { destruct Hdr as [-> | ->]; lia. }
  destruct (decide (kv = 0)) as [-> | Hlater].
  - replace (curr_r + 0 * dr) with curr_r in * by lia.
    replace (curr_c + 0 * dc) with curr_c in * by lia.
    destruct (Z.eqb_spec (bget board (curr_r * 8 + curr_c)) EMPTY) as [? | _];
      [contradiction |].
    cbn [negb]. apply (capture_walk_empty_path n _ _ _ _ _ _ _ (k - 1));
      [lia | lia | lia | exact Hdr |].
    intros j Hj. apply bget_bset_empty. specialize (Hpath (j + 1) ltac:(lia) ltac:(lia)).
    replace (curr_r + dr + j * dr) with (curr_r + (j + 1) * dr) by lia.
    replace (curr_c + dc + j * dc) with (curr_c + (j + 1) * dc) by lia. exact Hpath.
  - pose proof (Hpath 0 ltac:(lia) ltac:(lia)) as H0.
    replace (curr_r + 0 * dr) with curr_r in H0 by lia.
    replace (curr_c + 0 * dc) with curr_c in H0 by lia.
    rewrite H0. change (negb (EMPTY =? EMPTY)) with false. cbv iota.
    replace (curr_r + kv * dr) with (curr_r + dr + (kv - 1) * dr) by lia.
    replace (curr_c + kv * dc) with (curr_c + dc + (kv - 1) * dc) by lia.
    apply (IH _ _ _ _ _ _ _ (k - 1)); [lia | lia | lia | exact Hdr | |].
    + intros j Hj Hne. specialize (Hpath (j + 1) ltac:(lia) ltac:(lia)).
      replace (curr_r + dr + j * dr) with (curr_r + (j + 1) * dr) by lia.
      replace (curr_c + dc + j * dc) with (curr_c + (j + 1) * dc) by lia. exact Hpath.
    + replace (curr_r + dr + (kv - 1) * dr) with (curr_r + kv * dr) by lia.
      replace (curr_c + dc + (kv - 1) * dc) with (curr_c + kv * dc) by lia. exact Hvictim.
Qed.

(** A one-step move along a diagonal that passes exactly one occupied
    square takes the piece on that square off the board and reports its
    type; the mover leaves its square for the landing square (crowned
    when a man lands on the far row) and nothing else changes. *)
Lemma single_jump_on_board (board : list Z) (r c dr dc dist land : Z)
    (mover captured : Z) :
  length board = 64%nat -> is_valid r c = true ->
  dr = 1 \/ dr = -1 -> dc = 1 \/ dc = -1 -> 1 <= dist -> 1 <= land ->
  is_valid (r + (dist + land) * dr) (c + (dist + land) * dc) = true ->
  (forall k, 1 <= k < dist + land -> k <> dist ->
     bget board ((r + k * dr) * 8 + (c + k * dc)) = EMPTY) ->
  bget board ((r + dist * dr) * 8 + (c + dist * dc)) <> EMPTY ->
  let from := r * 8 + c in
  let over := (r + dist * dr) * 8 + (c + dist * dc) in
  let to := (r + (dist + land) * dr) * 8 + (c + (dist + land) * dc) in
  let piece := bget board from in
  exists board',
    apply_move board
      (single_step (mkStep r c (r + (dist + land) * dr) (c + (dist + land) * dc)))
      mover captured = Some (board', bget board over) /\
    bget board' from = EMPTY /\
    bget board' over = EMPTY /\
    bget board' to
    = (if (piece =? BLACK_MAN) && (r + (dist + land) * dr =? 7) then BLACK_KING
       else if (piece =? WHITE_MAN) && (r + (dist + land) * dr =? 0) then WHITE_KING
       else piece) /\
    forall k, k <> from -> k <> over -> k <> to -> bget board' k = bget board k.
Proof.
  intros Hlen Hrc Hdr Hdc Hdist Hland Hdest Hpath Hvictim. cbv zeta.
  apply is_valid_spec in Hrc. apply is_valid_spec in Hdest.
  set (nr := r + (dist + land) * dr) in *. set (nc := c + (dist + land) * dc) in *.
  set (vr := r + dist * dr) in *. set (vc := c + dist * dc) in *.
  assert (0 <= vr < 8 /\ 0 <= vc < 8 /\ vr <> r /\ vr <> nr) as (Hvr & Hvc & Hv1 & Hv2).
  { unfold vr, vc, nr, nc in *. destruct Hdr as [-> | ->]; destruct Hdc as [-> | ->]; lia. }
  assert (nr <> r) as Hrows by (unfold nr; destruct Hdr as [-> | ->]; lia).
  assert (step_at (single_step (mkStep r c nr nc)) 0 = mkStep r c nr nc) as Hs by reflexivity.
  unfold apply_move. cbv zeta.
  cbn [m_count single_step]. change (1 - 1) with 0. rewrite !Hs. cbn [r1 c1 r2 c2].
  set (piece := bget board (r * 8 + c)).
  set (placed := bset (bset board (r * 8 + c) EMPTY) (nr * 8 + nc) piece).
  assert (length placed = 64%nat) as Hplaced
    by (unfold placed; rewrite !bset_length; exact Hlen).
  assert (forall k, k <> r * 8 + c -> k <> nr * 8 + nc -> bget placed k = bget board k) as Hrest.
  { intros k H1 H2. unfold placed. rewrite !bget_bset_ne by assumption. reflexivity. }
  assert ((Z.abs (r - nr) >=? 2) || (1 >? 1) = true) as ->.
  { apply orb_true_iff. left. apply Z.geb_le. unfold nr. destruct Hdr as [-> | ->]; lia. }
  change (range 0 (Z.to_nat 1)) with [0]. cbn [fold_left]. unfold apply_step.
  cbn [mbind option_bind]. cbv zeta. rewrite !Hs. cbn [r1 c1 r2 c2].
  assert ((if nr >? r then 1 else -1) = dr) as ->.
  { unfold nr. destruct (Z.gtb_spec (r + (dist + land) * dr) r); destruct Hdr as [-> | ->]; lia. }
  assert ((if nc >? c then 1 else -1) = dc) as ->.
  { unfold nc. destruct (Z.gtb_spec (c + (dist + land) * dc) c); destruct Hdc as [-> | ->]; lia. }
  assert (forall j, 0 <= j < dist + land - 1 ->
            bget placed ((r + dr + j * dr) * 8 + (c + dc + j * dc))
            = bget board ((r + (j + 1) * dr) * 8 + (c + (j + 1) * dc))) as Hsame.
  { intros j Hj.
    replace (r + dr + j * dr) with (r + (j + 1) * dr) by lia.
    replace (c + dc + j * dc) with (c + (j + 1) * dc) by lia.
    apply Hrest; unfold nr, nc in *;
      destruct Hdr as [-> | ->]; destruct Hdc as [-> | ->]; lia. }
  rewrite (capture_walk_one_victim 8 placed (r + dr) (c + dc) nr dr dc captured
             (dist + land - 1) (dist - 1)).
  - replace (r + dr + (dist - 1) * dr) with vr by (unfold vr; lia).
    replace (c + dc + (dist - 1) * dc) with vc by (unfold vc; lia).
    cbn [mbind option_bind].
    assert (bget placed (vr * 8 + vc) = bget board (vr * 8 + vc)) as -> by (apply Hrest; lia).
    eexists. split; [reflexivity |].
    set (cleared := bset placed (vr * 8 + vc) EMPTY).
    assert (length cleared = 64%nat) as Hcleared
      by (unfold cleared; rewrite bset_length; exact Hplaced).
    assert (bget cleared (r * 8 + c) = EMPTY) as Hsrc.
    { unfold cleared, placed. rewrite !bget_bset_ne by lia. apply bget_bset_eq.
      rewrite Hlen. lia. }
    assert (bget cleared (vr * 8 + vc) = EMPTY) as Hover.
    { unfold cleared. apply bget_bset_eq. rewrite Hplaced. lia. }
    assert (bget cleared (nr * 8 + nc) = piece) as Hdst.
    { unfold cleared, placed. rewrite bget_bset_ne by lia. apply bget_bset_eq.
      rewrite bset_length, Hlen. lia. }
    assert (forall k, k <> r * 8 + c -> k <> vr * 8 + vc -> k <> nr * 8 + nc ->
              bget cleared k = bget board k) as Hother.
    { intros k H1 H2 H3. unfold cleared. rewrite bget_bset_ne by exact H2.
      apply Hrest; assumption. }
    assert (0 <= nr * 8 + nc < Z.of_nat (length cleared)) as Hin by lia.
    unfold WHITE_MAN, BLACK_MAN in *.
    destruct (Z.eqb_spec piece 1) as [Hb | Hb]; destruct (Z.eqb_spec piece 2) as [Hw | Hw];
      try lia; destruct (Z.eqb_spec nr 0) as [H0 | H0]; destruct (Z.eqb_spec nr 7) as [H7 | H7];
      try lia; cbn [andb]; cbv iota;
      rewrite ?(bget_bset_ne _ (r * 8 + c)) by lia;
      (split; [exact Hsrc |]);
      rewrite ?(bget_bset_ne _ (vr * 8 + vc)) by lia;
      (split; [exact Hover |]);
      rewrite ?bget_bset_eq by exact Hin;
      (split; [first [reflexivity | exact Hdst] |]);
      intros k H1 H2 H3; rewrite ?bget_bset_ne by exact H3; apply Hother; assumption.
  - lia.
  - unfold nr in Hdest. destruct Hdr as [-> | ->]; lia.
  - unfold nr. lia.
  - exact Hdr.
  - intros j Hj Hne. rewrite Hsame by lia. apply Hpath; lia.
  - rewrite Hsame by lia. replace (dist - 1 + 1) with dist by lia. exact Hvictim.
Qed.

(** * Geometry of the generated moves *)

Lemma step_at_add_step (cur : Move) (s : Step) (i : Z) :
  0 <= i -> 0 <= m_count cur -> (Z.to_nat (m_count cur) < length (m_steps cur))%nat ->
  step_at (add_step cur s) i = if decide (i = m_count cur) then s else step_at cur i.
Proof.
  intros Hi Hc Hlen. unfold step_at, add_step. simpl.
  destruct (decide (i = m_count cur)) as [-> | Hne].
  - rewrite list_lookup_insert_eq by exact Hlen. reflexivity.
  - rewrite list_lookup_insert_ne by lia. reflexivity.
Qed.

Lemma chain_path (r0 c0 r c : Z) (m : Move) :
  chain_from r0 c0 r c m -> 1 <= m_count m -> path_from r0 c0 m.
Proof.
  intros (Hc & _ & Hdiag & Hlink & Hends) Hone.
  destruct (Z.eqb_spec (m_count m) 0) as [? | _]; [lia |].
  destruct Hends as (H1 & H2 & _).
  split; [lia |]. split; [exact H1 |]. split; [exact H2 |]. split; [exact Hdiag | exact Hlink].
Qed.

Lemma add_step_chain (r0 c0 r c jr jc : Z) (cur : Move) :
  chain_from r0 c0 r c cur -> m_count cur < 12 ->
  is_valid r c = true -> is_valid jr jc = true ->
  1 <= Z.abs (jr - r) -> Z.abs (jr - r) = Z.abs (jc - c) ->
  chain_from r0 c0 jr jc (add_step cur (mkStep r c jr jc)) /\
  1 <= m_count (add_step cur (mkStep r c jr jc)).
Proof.
  intros (Hc & Hlen & Hdiag & Hlink & Hends) Hroom Hrc Hj Hfar Hdia.
  set (s := mkStep r c jr jc).
  assert (forall i, 0 <= i ->
            step_at (add_step cur s) i = if decide (i = m_count cur) then s else step_at cur i)
    as Hstep by (intros i Hi; apply step_at_add_step; lia).
  assert (m_count (add_step cur s) = m_count cur + 1) as Hcount by reflexivity.
  split; [| lia]. unfold chain_from, linked. rewrite Hcount.
  split; [lia |]. split; [simpl; rewrite length_insert; exact Hlen |].
  split; [| split].
  - intros i Hi. rewrite Hstep by lia. destruct (decide (i = m_count cur)) as [_ | Hne].
    + repeat split; assumption.
    + apply Hdiag. lia.
  - intros i Hi. rewrite !Hstep by lia.
    destruct (decide (i = m_count cur)) as [? | _]; [lia |].
    destruct (decide (i + 1 = m_count cur)) as [Hlast | Hne]; [| apply Hlink; lia].
    destruct (Z.eqb_spec (m_count cur) 0) as [? | _]; [lia |].
    destruct Hends as (_ & _ & Hr & Hcc).
    replace i with (m_count cur - 1) by lia. simpl. split; assumption.
  - destruct (Z.eqb_spec (m_count cur + 1) 0) as [? | _]; [lia |].
    rewrite !Hstep by lia. replace (m_count cur + 1 - 1) with (m_count cur) by lia.
    destruct (decide (m_count cur = m_count cur)) as [_ | ?]; [| contradiction].
    destruct (decide (0 = m_count cur)) as [Hz | Hnz].
    + rewrite <- Hz in Hends. simpl in Hends. destruct Hends as [-> ->].
      repeat split; reflexivity.
    + destruct (Z.eqb_spec (m_count cur) 0) as [? | _]; [lia |].
      destruct Hends as (H1 & H2 & _). repeat split; assumption.
Qed.

Section ChainPath.
Variables r0 c0 : Z.
Variable chains_rec : list Z -> Z -> Z -> Z -> Move -> list Move.
Hypothesis Hrec : forall b r c p cur,
  is_valid r c = true -> chain_from r0 c0 r c cur -> 1 <= m_count cur ->
  Forall (path_from r0 c0) (chains_rec b r c p cur).

Variables (board : list Z) (r c piece : Z) (cur : Move).
Hypothesis Hrc : is_valid r c = true.
Hypothesis Hcur : chain_from r0 c0 r c cur.
Hypothesis Hroom : m_count cur < 12.

Lemma next_chains_path (b : list Z) (jr jc : Z) :
  is_valid jr jc = true -> 1 <= Z.abs (jr - r) -> Z.abs (jr - r) = Z.abs (jc - c) ->
  Forall (path_from r0 c0) (chains_rec b jr jc piece (add_step cur (mkStep r c jr jc))).
Proof.
  intros Hj Hfar Hdia.
  destruct (add_step_chain r0 c0 r c jr jc cur Hcur Hroom Hrc Hj Hfar Hdia) as [Hp Hone].
  apply Hrec; assumption.
Qed.

Lemma man_chains_path (dr dc : Z) :
  dr = 1 \/ dr = -1 -> dc = 1 \/ dc = -1 ->
  Forall (path_from r0 c0) (fst (man_chains chains_rec board r c piece cur dr dc)).
Proof.
  intros Hdr Hdc. unfold man_chains. cbv zeta.
  destruct (is_valid (r + 2 * dr) (c + 2 * dc)) eqn:Hv; [| constructor].
  destruct (_ && _); [| constructor].
  simpl. apply next_chains_path; [exact Hv | lia | lia].
Qed.

Lemma land_chains_path (n : nat) (dr dc nr nc : Z) :
  dr = 1 \/ dr = -1 -> dc = 1 \/ dc = -1 ->
  (exists dist, 1 <= dist /\ nr = r + dist * dr /\ nc = c + dist * dc) ->
  forall land_dist, 1 <= land_dist ->
  Forall (path_from r0 c0)
    (fst (land_chains chains_rec board r c piece cur n dr dc nr nc land_dist)).
Proof.
  intros Hdr Hdc (dist & Hdist & Hnr & Hnc).
  induction n as [| n IH]; intros land_dist Hland; simpl; [constructor |].
  destruct (is_valid (nr + land_dist * dr) (nc + land_dist * dc)) eqn:Hv; [| constructor].
  destruct (negb (_ =? EMPTY)); [constructor |].
  simpl. apply Forall_app. split.
  - apply next_chains_path; [exact Hv | |]; subst nr nc;
      destruct Hdr as [-> | ->]; destruct Hdc as [-> | ->]; lia.
  - apply IH. lia.
Qed.

Lemma scan_chains_path (n : nat) (dr dc : Z) :
  dr = 1 \/ dr = -1 -> dc = 1 \/ dc = -1 ->
  forall dist, 1 <= dist ->
  Forall (path_from r0 c0) (fst (scan_chains chains_rec board r c piece cur n dr dc dist)).
Proof.
  intros Hdr Hdc. induction n as [| n IH]; intros dist Hdist; cbn [scan_chains fst];
    [constructor |].
  destruct (negb (is_valid _ _)); [constructor |].
  destruct (_ || _ || (_ =? GHOST)); [constructor |].
  destruct (_ || _).
  - apply land_chains_path; [exact Hdr | exact Hdc | | lia].
    exists dist. split; [exact Hdist |]. split; reflexivity.
  - apply IH. lia.
Qed.

Lemma dir_chains_path (d : Z * Z) :
  In d dirs -> Forall (path_from r0 c0) (fst (dir_chains chains_rec board r c piece cur d)).
Proof.
  intros Hd. assert ((fst d = 1 \/ fst d = -1) /\ (snd d = 1 \/ snd d = -1)) as [Hdr Hdc].
  { unfold dirs in Hd. simpl in Hd. intuition (subst; simpl; lia). }
  unfold dir_chains. destruct (negb _).
  - apply man_chains_path; assumption.
  - apply scan_chains_path; [exact Hdr | exact Hdc | lia].
Qed.

Lemma body_chains_path :
  Forall (path_from r0 c0) (body_chains chains_rec board r c piece cur).
Proof.
  assert (Forall (path_from r0 c0)
            (concat (map fst (map (dir_chains chains_rec board r c piece cur) dirs)))) as Hall.
  { apply Forall_concat. rewrite List.Forall_forall. intros l Hl.
    apply in_map_iff in Hl as (o & <- & Ho).
    apply in_map_iff in Ho as (d & <- & Hd).
    apply dir_chains_path, Hd. }
  unfold body_chains. destruct (negb _ && (0 <? m_count cur)) eqn:Hemit; [| exact Hall].
  apply Forall_app. split; [exact Hall |].
  constructor; [| constructor].
  apply andb_true_iff in Hemit as [_ Hpos]. apply Z.ltb_lt in Hpos.
  apply (chain_path r0 c0 r c); [exact Hcur | lia].
Qed.
End ChainPath.

Lemma emitted_chains_path (r0 c0 : Z) (fuel : nat) :
  forall board r c piece cur, is_valid r c = true -> chain_from r0 c0 r c cur ->
  Forall (path_from r0 c0) (emitted_chains fuel board r c piece cur).
Proof.
  induction fuel as [| fuel IH]; intros board r c piece cur Hrc Hcur; simpl; [constructor |].
  destruct (Z.leb_spec 12 (m_count cur)) as [Hfull | Hroom].
  - constructor; [| constructor]. apply (chain_path r0 c0 r c); [exact Hcur | lia].
  - apply (body_chains_path r0 c0); try assumption.
    intros b0 r' c' p0 cur0 Hv Hp _. apply IH; assumption.
Qed.

Lemma zero_move_chain (r c : Z) : chain_from r c r c zero_move.
Proof.
  split; [simpl; lia |]. split; [reflexivity |].
  split; [simpl; intros i Hi; lia |]. split; [intros i Hi; simpl in Hi; lia |].
  simpl. split; reflexivity.
Qed.

Lemma square_index (i : Z) : In i (range 0 64) -> (i ÷ 8) * 8 + Z.rem i 8 = i.
Proof. intros _. pose proof (Z.quot_rem' i 8). lia. Qed.

Lemma all_chains_path (board : list Z) (player : Z) (m : Move) :
  In m (all_chains board player) ->
  exists i, (bget board i = my_man_of player \/ bget board i = my_king_of player) /\
            path_from (i ÷ 8) (Z.rem i 8) m /\ (i ÷ 8) * 8 + Z.rem i 8 = i.
Proof.
  unfold all_chains. intros Hm. apply in_flat_map in Hm as (i & Hi & Hm).
  exists i.
  destruct (Z.eqb_spec (bget board i) (my_man_of player)) as [Hman | Hnman];
    [| destruct (Z.eqb_spec (bget board i) (my_king_of player)) as [Hking | Hnking]];
    simpl in Hm; try contradiction.
  - split; [left; exact Hman |]. split; [| apply square_index, Hi].
    pose proof (emitted_chains_path (i ÷ 8) (Z.rem i 8) 13 board (i ÷ 8) (Z.rem i 8)
                  (bget board i) zero_move (square_on_board i Hi) (zero_move_chain _ _)) as Hall.
    rewrite List.Forall_forall in Hall. apply Hall, Hm.
  - split; [right; exact Hking |]. split; [| apply square_index, Hi].
    pose proof (emitted_chains_path (i ÷ 8) (Z.rem i 8) 13 board (i ÷ 8) (Z.rem i 8)
                  (bget board i) zero_move (square_on_board i Hi) (zero_move_chain _ _)) as Hall.
    rewrite List.Forall_forall in Hall. apply Hall, Hm.
Qed.

(** Every move the generator returns, capture or quiet, starts on a
    square that holds a man or king of the side to move, consists of 1
    to 12 diagonal steps between squares of the board, and each step
    starts where the one before it ended. *)
Theorem generated_moves_are_paths (board : list Z) (player : Z) (m : Move) :
  In m (ml_list (generate_moves board player)) ->
  1 <= m_count m <= 12 /\
  (bget board (r1 (step_at m 0) * 8 + c1 (step_at m 0)) = my_man_of player \/
   bget board (r1 (step_at m 0) * 8 + c1 (step_at m 0)) = my_king_of player) /\
  (forall i, 0 <= i < m_count m -> diagonal_step (step_at m i)) /\
  linked m.
Proof.
  intros Hm.
  destruct (generate_moves_cases board player) as (_ & Hcap & Hquiet).
  destruct (capture_scan_list board player) as [_ Hcaps].
  destruct (ml_list (capture_scan board player (clear new_movelist))) as [| m0 rest] eqn:Hlist.
  - rewrite (Hquiet eq_refl) in Hm.
    apply list_elem_of_In, elem_of_take in Hm as (k & Hm & _).
    apply list_elem_of_lookup_2, list_elem_of_In, all_quiet_legal, quiet_shape in Hm
      as (r & c & dr & dc & dist & -> & Hrc & Hdr & Hdc & Hdist & Hown & Hpath).
    destruct (Hpath dist ltac:(lia)) as [Hdest _].
    assert (step_at (single_step (mkStep r c (r + dist * dr) (c + dist * dc))) 0
            = mkStep r c (r + dist * dr) (c + dist * dc)) as Hs by reflexivity.
    cbn [m_count single_step]. rewrite Hs. cbn [r1 c1].
    split; [lia |]. split; [exact Hown |]. split.
    + intros i Hi. assert (i = 0) as -> by lia. rewrite Hs.
      unfold diagonal_step. cbn [r1 c1 r2 c2].
      split; [exact Hrc |]. split; [exact Hdest |].
      destruct Hdr as [-> | ->]; destruct Hdc as [-> | ->]; lia.
    + intros i Hi. cbn [m_count single_step] in Hi. lia.
  - rewrite Hcap in Hm by discriminate. apply filter_In in Hm as [Hm _].
    rewrite Hcaps in Hm. apply list_elem_of_In, elem_of_take in Hm as (k & Hm & _).
    apply list_elem_of_lookup_2, list_elem_of_In, all_chains_path in Hm
      as (i & Hown & (Hc & H1 & H2 & Hdiag & Hlink) & Hidx).
    rewrite H1, H2, Hidx.
    split; [lia |]. split; [exact Hown |]. split; [exact Hdiag | exact Hlink].
Qed.

(** * The move the driver answers with *)


Section Driver.
Variable zobrist_table : Z -> Z -> Z.
Variable zobrist_black_move : Z.
Variable expired : Z -> bool.
Variable P : Move -> Prop.
Hypothesis P_score : forall m s, P m -> P (set_score m s).

Lemma root_moves_loop_best (fuel : nat) (board : list Z) (player d : Z)
    (root_moves : MoveList) (beta : Z) (n : nat) :
  all_moves P root_moves ->
  forall i alpha current_best_move current_best_score st it,
  0 <= i -> i + Z.of_nat n <= ml_count root_moves -> P current_best_move ->
  root_moves_loop zobrist_table zobrist_black_move expired fuel n board player d
    root_moves i alpha beta current_best_move current_best_score st = Some it ->
  P (ri_best_move it).
Proof.
  intros Hall. induction n as [| n IH]; intros i alpha bm bs st it Hi Hn Hbm;
    cbn [root_moves_loop].
  - intros [= <-]. exact Hbm.
  - cbv zeta.
    destruct (apply_move _ _ _ _) as [[tb cap] |]; [| discriminate].
    cbn [mbind option_bind].
    match goal with
    | |- mbind _ ?x = _ -> _ => destruct x as [[score st1] |]; [| discriminate]
    end.
    cbn [mbind option_bind].
    destruct (stop_search st1); [intros [= <-]; exact Hbm |].
    destruct (score >? bs); intros Hloop.
    + refine (IH (i + 1) _ _ _ _ _ _ _ _ Hloop); [lia | lia | apply Hall; lia].
    + refine (IH (i + 1) _ _ _ _ _ _ _ _ Hloop); [lia | lia | exact Hbm].
Qed.

Lemma deepen_best (fuel : nat) (board : list Z) (player : Z) (n : nat) :
  forall d root_moves best_overall best_score_overall reached_depth st dp,
  wf_list root_moves -> 0 < ml_count root_moves -> all_moves P root_moves -> P best_overall ->
  deepen zobrist_table zobrist_black_move expired fuel n board player d root_moves
    best_overall best_score_overall reached_depth st = Some dp ->
  P (dp_best_overall dp) /\ 0 < ml_count (dp_root_moves dp) /\ all_moves P (dp_root_moves dp).
Proof.
  induction n as [| n IH]; intros d root_moves bo bso rd st dp Hwf Hpos Hall Hbo;
    cbn [deepen].
  - intros [= <-]. simpl. auto.
  - destruct (pick_move st root_moves 0 bo 0) as [moves' |] eqn:Hpick; [| discriminate].
    cbn [mbind option_bind].
    destruct (pick_move_all P P_score _ _ _ _ _ _ Hpick) as (Hwf' & Hc' & Hall');
      [lia | exact Hwf | exact Hall |].
    destruct (root_moves_loop _ _ _ _ _ _ _ _ _ _ _ _ _ _ _) as [it |] eqn:Hloop;
      [| discriminate].
    cbn [mbind option_bind].
    assert (P (ri_best_move it)) as Hit.
    { refine (root_moves_loop_best _ _ _ _ _ _ _ Hall' 0 _ _ _ _ _ _ _ _ Hloop);
        [lia | lia | apply Hall'; lia]. }
    destruct (stop_search (ri_state it)).
    { intros [= <-]. simpl. split; [exact Hbo |]. split; [lia | exact Hall']. }
    destruct (ri_best_score it >? MATE - 5000).
    { intros [= <-]. simpl. split; [exact Hit |]. split; [lia | exact Hall']. }
    intros Hdeep. refine (IH _ _ _ _ _ _ _ Hwf' _ Hall' Hit Hdeep). lia.
Qed.
End Driver.

Lemma move_from_set_score (l : MoveList) (m : Move) (s : Z) :
  move_from l m -> move_from l (set_score m s).
Proof. intros (j & Hj & Hs & Hc). exists j. split; [exact Hj |]. split; assumption. Qed.

Lemma some_pair_fst {A B} (a a' : A) (b b' : B) : Some (a, b) = Some (a', b') -> a = a'.
Proof. congruence. Qed.

(** Whenever the position has a move, the steps and step count written
    to the result are those of one of the moves [generate_moves] lists
    for it, whatever the depth reached and wherever the clock stopped the
    search. *)
Lemma get_best_move_from_list
    (zobrist_table : Z -> Z -> Z) (zobrist_black_move : Z) (expired : Z -> bool)
    (fuel : nat) (board : list Z) (player max_depth : Z) (result : MoveResult)
    (st : SearchState) (res : MoveResult) (st' : SearchState) :
  get_best_move zobrist_table zobrist_black_move expired fuel board player max_depth result st
    = Some (res, st') ->
  0 < ml_count (generate_moves board player) ->
  exists j, 0 <= j < ml_count (generate_moves board player) /\
    res_steps res = m_steps (move_at (generate_moves board player) j) /\
    res_count res = m_count (move_at (generate_moves board player) j).
Proof.
  intros Hrun Hpos. revert Hrun. unfold get_best_move. cbv zeta.
  pose proof (proj1 (generate_moves_cases board player)) as Hwf.
  remember (generate_moves board player) as moves eqn:Hmoves.
  destruct (Z.eqb_spec (ml_count moves) 0) as [? | _]; [lia |].
  destruct (ml_count moves =? 1).
  { intros Hrun. apply some_pair_fst in Hrun. subst res. exists 0. cbn [res_steps res_count].
    split; [lia |]. split; reflexivity. }
  destruct (deepen _ _ _ _ _ _ _ _ _ _ _ _ _) as [dp |] eqn:Hdeep; [| discriminate].
  cbn [mbind option_bind]. intros Hrun. apply some_pair_fst in Hrun. subst res.
  assert (all_moves (move_from moves) moves) as Hall.
  { intros j Hj. exists j. split; [exact Hj |]. split; reflexivity. }
  destruct (deepen_best zobrist_table zobrist_black_move expired (move_from moves)
              (move_from_set_score moves) _ _ _ _ _ _ _ _ _ _ _
              Hwf Hpos Hall (Hall 0 ltac:(lia)) Hdeep)
    as (Hbest & Hpos' & Hall').
  cbn [res_steps res_count].
  destruct ((m_count (dp_best_overall dp) =? 0) && (ml_count (dp_root_moves dp) >? 0)).
  - exact (Hall' 0 ltac:(lia)).
  - exact Hbest.
Qed.

(** * Move ordering *)

Section PickSelect.
Variables (st : SearchState) (tt_best : Move) (ply : Z) (moves : MoveList) (start : Z).
Variable sc : Z -> Z.
Hypothesis Hwf : wf_list moves.
Hypothesis Hstart : 0 <= start.
Hypothesis Hsc : forall i, start <= i < ml_count moves ->
  score_move_ordering st (move_at moves i) tt_best ply = Some (sc i).
Hypothesis Hlow : forall i, start <= i < ml_count moves -> -2000000000 < sc i.

Lemma pick_step_state (lo : Z) (acc : MoveList * Z * Z) :
  start <= lo < ml_count moves ->
  pick_state sc moves start lo acc ->
  exists acc', pick_step st tt_best ply (Some acc) lo = Some acc' /\
    pick_state sc moves start (lo + 1) acc'.
Proof.
  intros Hlo. destruct acc as [[l bs] bi]. unfold pick_state.
  intros (Hlen & Hcount & Hslots & Hbest).
  destruct Hwf as [_ Hc].
  assert (move_at l lo = move_at moves lo) as Hcur.
  { rewrite Hslots by lia. destruct (decide (start <= lo < lo)); [lia | reflexivity]. }
  rewrite (pick_step_some st tt_best ply l bs bi lo (sc lo))
    by (rewrite Hcur; apply Hsc, Hlo).
  rewrite Hcur.
  set (l1 := set_move l lo (set_score (move_at moves lo) (sc lo))).
  assert (length (ml_moves l1) = 128%nat) as Hlen1 by (simpl; rewrite length_insert; exact Hlen).
  assert (ml_count l1 = ml_count moves) as Hcount1 by exact Hcount.
  assert (forall i, 0 <= i ->
            move_at l1 i = if decide (start <= i < lo + 1)
                           then set_score (move_at moves i) (sc i)
                           else move_at moves i) as Hslots1.
  { intros i Hi. unfold l1. rewrite move_at_set_move by lia.
    destruct (decide (lo = i)) as [<- | Hne].
    - destruct (decide (start <= lo < lo + 1)); [reflexivity | lia].
    - rewrite Hslots by exact Hi.
      destruct (decide (start <= i < lo)); destruct (decide (start <= i < lo + 1));
        try reflexivity; lia. }
  pose proof (Hlow lo Hlo) as Hs.
  destruct (Z.gtb_spec (sc lo) bs) as [Hgt | Hle]; (eexists; split; [reflexivity |]).
  - split; [exact Hlen1 |]. split; [exact Hcount1 |]. split; [exact Hslots1 |].
    right. split; [lia |]. split; [reflexivity |].
    destruct Hbest as [(Heq & _ & _) | (Hbi & -> & Hmax & Hfirst)].
    + split; intros i Hi; [assert (i = lo) as -> by lia |]; lia.
    + split; intros i Hi.
      * destruct (decide (i = lo)) as [-> | Hne]; [lia |].
        specialize (Hmax i ltac:(lia)). lia.
      * specialize (Hmax i ltac:(lia)). lia.
  - split; [exact Hlen1 |]. split; [exact Hcount1 |]. split; [exact Hslots1 |].
    destruct Hbest as [(_ & Hbs & _) | (Hbi & -> & Hmax & Hfirst)]; [lia |].
    right. split; [lia |]. split; [reflexivity |]. split; [| exact Hfirst].
    intros i Hi. destruct (decide (i = lo)) as [-> | Hne]; [exact Hle | apply Hmax; lia].
Qed.

Lemma pick_steps_state (n : nat) :
  forall lo acc,
  start <= lo -> lo + Z.of_nat n <= ml_count moves ->
  pick_state sc moves start lo acc ->
  exists acc', fold_left (pick_step st tt_best ply) (range lo n) (Some acc) = Some acc' /\
    pick_state sc moves start (lo + Z.of_nat n) acc'.
Proof.
  induction n as [| n IH]; intros lo acc Hlo Hn Hacc.
  - change (Z.of_nat 0) with 0. rewrite Z.add_0_r. exists acc. split; [reflexivity | exact Hacc].
  - rewrite range_cons. cbn [fold_left].
    destruct (pick_step_state lo acc) as (acc1 & -> & Hacc1); [lia | exact Hacc |].
    replace (lo + Z.of_nat (S n)) with (lo + 1 + Z.of_nat n) by lia.
    apply IH; [lia | lia | exact Hacc1].
Qed.
End PickSelect.

(** [pick_move] is one step of a selection sort on the ordering score
    [sc]: it records the score of every slot from [start_index] on and
    swaps the first highest-scored of them into slot [start_index]. *)
Theorem pick_move_selects_best (st : SearchState) (moves : MoveList) (start : Z)
    (tt_best : Move) (ply : Z) (sc : Z -> Z) :
  wf_list moves -> 0 <= start < ml_count moves ->
  (forall i, start <= i < ml_count moves ->
     score_move_ordering st (move_at moves i) tt_best ply = Some (sc i)) ->
  (forall i, start <= i < ml_count moves -> -2000000000 < sc i) ->
  exists picked b,
    pick_move st moves start tt_best ply = Some picked /\
    start <= b < ml_count moves /\
    (forall i, start <= i < ml_count moves -> sc i <= sc b) /\
    (forall i, start <= i < b -> sc i < sc b) /\
    ml_count picked = ml_count moves /\
    move_at picked start = set_score (move_at moves b) (sc b) /\
    move_at picked b = set_score (move_at moves start) (sc start) /\
    forall i, 0 <= i -> i <> start -> i <> b ->
      move_at picked i = if decide (start <= i < ml_count moves)
                         then set_score (move_at moves i) (sc i) else move_at moves i.
Proof.
  intros Hwf Hstart Hsc Hlow.
  destruct (pick_steps_state st tt_best ply moves start sc Hwf ltac:(lia) Hsc Hlow
              (Z.to_nat (ml_count moves - start)) start (moves, -2000000000, -1))
    as ([[l bs] bi] & Hfold & Hstate); [lia | lia | |].
  { destruct Hwf as [Hlen Hc]. split; [exact Hlen |]. split; [reflexivity |].
    split; [| left; auto].
    intros i Hi. destruct (decide (start <= i < start)); [lia | reflexivity]. }
  unfold pick_move. rewrite Hfold. cbn [mbind option_bind].
  replace (start + Z.of_nat (Z.to_nat (ml_count moves - start))) with (ml_count moves)
    in Hstate by lia.
  destruct Hstate as (Hlen & Hcount & Hslots & Hbest).
  destruct Hbest as [(Heq & _) | (Hbi & _ & Hmax & Hfirst)]; [lia |].
  pose proof Hwf as [_ Hc].
  eexists. exists bi. split; [reflexivity |].
  split; [exact Hbi |]. split; [exact Hmax |]. split; [exact Hfirst |].
  destruct (Z.eqb_spec bi (-1)) as [? | _]; [lia |]. cbn [negb].
  assert (forall i, start <= i < ml_count moves ->
            move_at l i = set_score (move_at moves i) (sc i)) as Hin.
  { intros i Hi. rewrite Hslots by lia.
    destruct (decide (start <= i < ml_count moves)); [reflexivity | lia]. }
  split; [exact Hcount |].
  assert (forall i, 0 <= i ->
            move_at (set_move (set_move l start (move_at l bi)) bi (move_at l start)) i
            = if decide (bi = i) then move_at l start
              else if decide (start = i) then move_at l bi else move_at l i) as Hswap.
  { intros i Hi. rewrite move_at_set_move by (simpl; rewrite ?length_insert; lia).
    destruct (decide (bi = i)); [reflexivity |].
    rewrite move_at_set_move by lia. reflexivity. }
  split; [| split].
  - rewrite Hswap by lia. destruct (decide (bi = start)) as [-> | _].
    + apply Hin. lia.
    + destruct (decide (start = start)); [apply Hin; lia | contradiction].
  - rewrite Hswap by lia. destruct (decide (bi = bi)); [apply Hin; lia | contradiction].
  - intros i Hi Hns Hnb. rewrite Hswap by exact Hi.
    destruct (decide (bi = i)); [congruence |].
    destruct (decide (start = i)); [congruence |]. apply Hslots, Hi.
Qed.

(** * Single captures of the generator *)

Section ChainGrow.
Variable chains_rec : list Z -> Z -> Z -> Z -> Move -> list Move.
Variables (board : list Z) (r c piece : Z) (cur : Move).
Variable Q : Move -> Prop.
Hypothesis Hrec : forall b jr jc s, Forall Q (chains_rec b jr jc piece (add_step cur s)).

Lemma land_chains_all (n : nat) (dr dc nr nc : Z) :
  forall land_dist,
  Forall Q (fst (land_chains chains_rec board r c piece cur n dr dc nr nc land_dist)).
Proof.
  induction n as [| n IH]; intros land_dist; simpl; [constructor |].
  destruct (negb (is_valid _ _)); [constructor |].
  destruct (negb (_ =? EMPTY)); [constructor |].
  simpl. apply Forall_app. split; [apply Hrec | apply IH].
Qed.

Lemma scan_chains_all (n : nat) (dr dc : Z) :
  forall dist, Forall Q (fst (scan_chains chains_rec board r c piece cur n dr dc dist)).
Proof.
  induction n as [| n IH]; intros dist; cbn [scan_chains fst]; [constructor |].
  destruct (negb (is_valid _ _)); [constructor |].
  destruct (_ || _ || (_ =? GHOST)); [constructor |].
  destruct (_ || _); [apply land_chains_all | apply IH].
Qed.

Lemma dirs_chains_all :
  Forall Q (concat (map fst (map (dir_chains chains_rec board r c piece cur) dirs))).
Proof.
  apply Forall_concat. rewrite List.Forall_forall. intros l Hl.
  apply in_map_iff in Hl as (o & <- & Ho).
  apply in_map_iff in Ho as (d & <- & Hd).
  unfold dir_chains. destruct (negb _); [| apply scan_chains_all].
  unfold man_chains. cbv zeta.
  destruct (is_valid _ _); [| constructor].
  destruct (_ && _); [| constructor]. simpl. apply Hrec.
Qed.
End ChainGrow.

Lemma emitted_chains_grow (fuel : nat) :
  forall board r c piece cur,
  Forall (fun m => m = cur \/ m_count cur < m_count m) (emitted_chains fuel board r c piece cur).
Proof.
  induction fuel as [| fuel IH]; intros board r c piece cur; simpl; [constructor |].
  destruct (12 <=? m_count cur).
  { constructor; [left; reflexivity | constructor]. }
  assert (Forall (fun m => m = cur \/ m_count cur < m_count m)
            (concat (map fst (map (dir_chains (emitted_chains fuel) board r c piece cur) dirs))))
    as Hall.
  { apply dirs_chains_all. intros b jr jc s.
    eapply Forall_impl; [apply IH |]. simpl.
    intros m [-> | Hlt]; right; cbn [m_count add_step] in *; lia. }
  unfold body_chains. destruct (_ && _); [| exact Hall].
  apply Forall_app. split; [exact Hall |]. constructor; [left; reflexivity | constructor].
Qed.

Section TopJump.
Variable chains_rec : list Z -> Z -> Z -> Z -> Move -> list Move.
Variables (board : list Z) (r c piece : Z) (cur : Move) (m : Move).

Lemma in_man_chains (dr dc : Z) :
  In m (fst (man_chains chains_rec board r c piece cur dr dc)) ->
  is_valid (r + 2 * dr) (c + 2 * dc) = true /\
  is_enemy_piece piece (bget board ((r + dr) * 8 + (c + dc))) = true /\
  bget board ((r + 2 * dr) * 8 + (c + 2 * dc)) = EMPTY /\
  exists b, In m (chains_rec b (r + 2 * dr) (c + 2 * dc) piece
                    (add_step cur (mkStep r c (r + 2 * dr) (c + 2 * dc)))).
Proof.
  unfold man_chains, is_enemy_piece. cbv zeta.
  destruct (is_valid (r + 2 * dr) (c + 2 * dc)); [| intros []].
  destruct (_ && _) eqn:Hok; [| intros []].
  apply andb_true_iff in Hok as [Hmid Hland]. apply Z.eqb_eq in Hland.
  simpl. intros Hm. split; [reflexivity |]. split; [| split; [exact Hland | eauto]].
  destruct (is_white_piece piece); exact Hmid.
Qed.

Lemma in_land_chains (n : nat) (dr dc nr nc : Z) :
  forall land_dist,
  In m (fst (land_chains chains_rec board r c piece cur n dr dc nr nc land_dist)) ->
  exists land, land_dist <= land /\
    (forall k, land_dist <= k <= land ->
       is_valid (nr + k * dr) (nc + k * dc) = true /\
       bget board ((nr + k * dr) * 8 + (nc + k * dc)) = EMPTY) /\
    exists b, In m (chains_rec b (nr + land * dr) (nc + land * dc) piece
                      (add_step cur (mkStep r c (nr + land * dr) (nc + land * dc)))).
Proof.
  induction n as [| n IH]; intros land_dist; simpl; [intros [] |].
  destruct (is_valid (nr + land_dist * dr) (nc + land_dist * dc)) eqn:Hv; [| intros []].
  destruct (Z.eqb_spec (bget board ((nr + land_dist * dr) * 8 + (nc + land_dist * dc))) EMPTY)
    as [He | _]; [| intros []].
  simpl. intros Hm. apply in_app_or in Hm as [Hm | Hm].
  - exists land_dist. split; [lia |]. split; [| eauto].
    intros k Hk. assert (k = land_dist) as -> by lia. split; assumption.
  - destruct (IH _ Hm) as (land & Hle & Hpath & Hin).
    exists land. split; [lia |]. split; [| exact Hin].
    intros k Hk. destruct (decide (k = land_dist)) as [-> | Hne]; [split; assumption |].
    apply Hpath. lia.
Qed.

Lemma in_scan_chains (n : nat) (dr dc : Z) :
  forall dist,
  In m (fst (scan_chains chains_rec board r c piece cur n dr dc dist)) ->
  exists d land, dist <= d /\ 1 <= land /\
    (forall k, dist <= k < d ->
       is_valid (r + k * dr) (c + k * dc) = true /\
       (piece_code (bget board ((r + k * dr) * 8 + (c + k * dc))) = true ->
        bget board ((r + k * dr) * 8 + (c + k * dc)) = EMPTY)) /\
    is_valid (r + d * dr) (c + d * dc) = true /\
    is_enemy_piece piece (bget board ((r + d * dr) * 8 + (c + d * dc))) = true /\
    (forall k, 1 <= k <= land ->
       is_valid (r + d * dr + k * dr) (c + d * dc + k * dc) = true /\
       bget board ((r + d * dr + k * dr) * 8 + (c + d * dc + k * dc)) = EMPTY) /\
    exists b, In m (chains_rec b (r + d * dr + land * dr) (c + d * dc + land * dc) piece
                      (add_step cur (mkStep r c (r + d * dr + land * dr)
                                       (c + d * dc + land * dc)))).
Proof.
  induction n as [| n IH]; intros dist; cbn [scan_chains fst]; [intros [] |].
  destruct (is_valid (r + dist * dr) (c + dist * dc)) eqn:Hv; [| intros []].
  cbn [negb].
  destruct (_ || _ || (_ =? GHOST)) eqn:Hown; [intros [] |].
  destruct ((_ =? (if is_white_piece piece then BLACK_MAN else WHITE_MAN)) || _) eqn:Henemy.
  - intros Hm. apply in_land_chains in Hm as (land & Hle & Hpath & Hin).
    exists dist, land. split; [lia |]. split; [exact Hle |].
    split; [intros k Hk; lia |]. split; [exact Hv |]. split; [| split; [exact Hpath | exact Hin]].
    unfold is_enemy_piece. destruct (is_white_piece piece); exact Henemy.
  - intros Hm. destruct (IH _ Hm) as (d & land & Hle & Hland & Hpass & Hrest).
    exists d, land. split; [lia |]. split; [exact Hland |]. split; [| exact Hrest].
    intros k Hk. destruct (decide (k = dist)) as [-> | Hne]; [| apply Hpass; lia].
    split; [exact Hv |]. intros Hcode. unfold piece_code in Hcode.
    unfold EMPTY, BLACK_MAN, WHITE_MAN, BLACK_KING, WHITE_KING, GHOST in *.
    destruct (is_white_piece piece);
      repeat match goal with
             | H : context [?a =? ?b] |- _ => destruct (Z.eqb_spec a b); try lia
             end; simpl in *; try discriminate.
Qed.
End TopJump.

Lemma emitted_chains_S (fuel : nat) (board : list Z) (r c piece : Z) (cur : Move) :
  emitted_chains (S fuel) board r c piece cur
  = if 12 <=? m_count cur then [cur]
    else body_chains (emitted_chains fuel) board r c piece cur.
Proof. reflexivity. Qed.

Lemma own_piece_side (player p : Z) :
  p = my_man_of player \/ p = my_king_of player -> is_white_piece p = is_white_piece player.
Proof.
  unfold my_man_of, my_king_of. destruct (is_white_piece player); intros [-> | ->]; reflexivity.
Qed.

Lemma single_chain_shape (board : list Z) (player : Z) (m : Move) :
  (forall i, 0 <= i < 64 -> piece_code (bget board i) = true) ->
  In m (all_chains board player) -> m_count m = 1 ->
  exists r c dr dc dist land,
    m = single_step (mkStep r c (r + (dist + land) * dr) (c + (dist + land) * dc)) /\
    is_valid r c = true /\ (dr = 1 \/ dr = -1) /\ (dc = 1 \/ dc = -1) /\
    1 <= dist /\ 1 <= land /\
    is_valid (r + (dist + land) * dr) (c + (dist + land) * dc) = true /\
    (bget board (r * 8 + c) = my_man_of player \/ bget board (r * 8 + c) = my_king_of player) /\
    (forall k, 1 <= k <= dist + land -> k <> dist ->
       bget board ((r + k * dr) * 8 + (c + k * dc)) = EMPTY) /\
    is_enemy_piece player (bget board ((r + dist * dr) * 8 + (c + dist * dc))) = true.
Proof.
  intros Hcodes Hm Hone. unfold all_chains in Hm.
  apply in_flat_map in Hm as (i & Hi & Hm).
  assert (bget board i = my_man_of player \/ bget board i = my_king_of player) as Hown.
  { destruct (Z.eqb_spec (bget board i) (my_man_of player)); [left; assumption |].
    destruct (Z.eqb_spec (bget board i) (my_king_of player)); [right; assumption |].
    destruct Hm. }
  destruct (_ || _); [| destruct Hm].
  pose proof (square_on_board i Hi) as Hrc.
  assert ((i ÷ 8) * 8 + Z.rem i 8 = i) as Hidx by (pose proof (Z.quot_rem' i 8); lia).
  set (r := i ÷ 8) in *. set (c := Z.rem i 8) in *.
  set (piece := bget board i) in *.
  assert (forall x, is_enemy_piece piece x = is_enemy_piece player x) as Hside.
  { intros x. unfold is_enemy_piece. rewrite (own_piece_side player piece Hown). reflexivity. }
  rewrite (emitted_chains_S 12) in Hm.
  change (12 <=? m_count zero_move) with false in Hm. cbv iota in Hm.
  unfold body_chains in Hm. cbv zeta in Hm.
  change (0 <? m_count zero_move) with false in Hm.
  rewrite andb_false_r in Hm.
  apply in_concat in Hm as (l & Hl & Hm).
  apply in_map_iff in Hl as (o & <- & Ho).
  apply in_map_iff in Ho as (d & <- & Hd).
  assert ((fst d = 1 \/ fst d = -1) /\ (snd d = 1 \/ snd d = -1)) as [Hdr Hdc].
  { unfold dirs in Hd. simpl in Hd.
    destruct Hd as [<- | [<- | [<- | [<- | []]]]]; simpl; lia. }
  destruct d as [dr dc]. cbn [fst snd] in Hdr, Hdc.
  assert (forall b jr jc, In m (emitted_chains 12 b jr jc piece
                                  (add_step zero_move (mkStep r c jr jc))) ->
            m = single_step (mkStep r c jr jc)) as Hleaf.
  { intros b jr jc Hin. pose proof (emitted_chains_grow 12 b jr jc piece
                                      (add_step zero_move (mkStep r c jr jc))) as Hall.
    rewrite List.Forall_forall in Hall. destruct (Hall m Hin) as [-> | Hlt]; [reflexivity |].
    cbn [m_count add_step zero_move] in Hlt. lia. }
  unfold dir_chains in Hm. cbn [fst snd] in Hm. destruct (negb (is_king_piece piece)).
  - apply in_man_chains in Hm as (Hv & Henemy & Hland & b & Hin).
    apply Hleaf in Hin. exists r, c, dr, dc, 1, 1.
    replace (r + (1 + 1) * dr) with (r + 2 * dr) by lia.
    replace (c + (1 + 1) * dc) with (c + 2 * dc) by lia.
    replace (r + 1 * dr) with (r + dr) by lia. replace (c + 1 * dc) with (c + dc) by lia.
    split; [exact Hin |]. split; [exact Hrc |]. split; [exact Hdr |]. split; [exact Hdc |].
    split; [lia |]. split; [lia |]. split; [exact Hv |].
    split; [rewrite Hidx; exact Hown |]. split; [| rewrite <- Hside; exact Henemy].
    intros k Hk Hne. assert (k = 2) as -> by lia. exact Hland.
  - apply in_scan_chains in Hm
      as (dist & land & Hdist & Hland & Hpass & Hv & Henemy & Hpath & b & Hin).
    apply Hleaf in Hin. exists r, c, dr, dc, dist, land.
    replace (r + (dist + land) * dr) with (r + dist * dr + land * dr) by lia.
    replace (c + (dist + land) * dc) with (c + dist * dc + land * dc) by lia.
    split; [exact Hin |]. split; [exact Hrc |]. split; [exact Hdr |]. split; [exact Hdc |].
    split; [exact Hdist |]. split; [exact Hland |].
    split; [apply (Hpath land); lia |].
    split; [rewrite Hidx; exact Hown |]. split; [| rewrite <- Hside; exact Henemy].
    intros k Hk Hne. destruct (Z.lt_ge_cases k dist) as [Hlt | Hge].
    + destruct (Hpass k ltac:(lia)) as [Hvk Hempty]. apply Hempty, Hcodes.
      apply is_valid_spec in Hvk. lia.
    + destruct (Hpath (k - dist) ltac:(lia)) as [_ Hempty].
      replace (r + k * dr) with (r + dist * dr + (k - dist) * dr) by lia.
      replace (c + k * dc) with (c + dist * dc + (k - dist) * dc) by lia. exact Hempty.
Qed.

(** A capture of one step that the generator returns takes exactly one
    piece, an enemy one, off the board it was generated for.  The square
    of that piece is emptied and its type reported, the mover goes from
    its square to the landing square (crowned when a man lands on the
    far row), and no other square changes. *)
Theorem single_capture_takes_one_enemy (board : list Z) (player : Z) (m : Move)
    (mover captured : Z) :
  length board = 64%nat ->
  (forall i, 0 <= i < 64 -> piece_code (bget board i) = true) ->
  ml_list (capture_scan board player (clear new_movelist)) <> [] ->
  In m (ml_list (generate_moves board player)) -> m_count m = 1 ->
  let from := r1 (step_at m 0) * 8 + c1 (step_at m 0) in
  let to := r2 (step_at m 0) * 8 + c2 (step_at m 0) in
  let piece := bget board from in
  exists over board',
    0 <= over < 64 /\ is_enemy_piece player (bget board over) = true /\
    apply_move board m mover captured = Some (board', bget board over) /\
    bget board' from = EMPTY /\
    bget board' over = EMPTY /\
    bget board' to
    = (if (piece =? BLACK_MAN) && (r2 (step_at m 0) =? 7) then BLACK_KING
       else if (piece =? WHITE_MAN) && (r2 (step_at m 0) =? 0) then WHITE_KING
       else piece) /\
    forall k, k <> from -> k <> over -> k <> to -> bget board' k = bget board k.
Proof.
  intros Hlen Hcodes Hcaps Hm Hone.
  destruct (generate_moves_cases board player) as (_ & Hcap & _).
  rewrite (Hcap Hcaps) in Hm. apply filter_In in Hm as [Hm _].
  rewrite (proj2 (capture_scan_list board player)) in Hm.
  apply list_elem_of_In, elem_of_take in Hm as (k & Hm & _).
  apply list_elem_of_lookup_2, list_elem_of_In in Hm.
  destruct (single_chain_shape board player m Hcodes Hm Hone)
    as (r & c & dr & dc & dist & land & -> & Hrc & Hdr & Hdc & Hdist & Hland & Hdest &
        _ & Hpath & Henemy).
  assert (bget board ((r + dist * dr) * 8 + (c + dist * dc)) <> EMPTY) as Hvictim.
  { intros He. rewrite He in Henemy. unfold is_enemy_piece in Henemy.
    destruct (is_white_piece player); discriminate Henemy. }
  destruct (single_jump_on_board board r c dr dc dist land mover captured Hlen Hrc Hdr Hdc
              Hdist Hland Hdest ltac:(intros j Hj Hne; apply Hpath; lia) Hvictim)
    as (board' & Happly & Hfrom & Hover & Hto & Hrest).
  assert (step_at (single_step (mkStep r c (r + (dist + land) * dr) (c + (dist + land) * dc))) 0
          = mkStep r c (r + (dist + land) * dr) (c + (dist + land) * dc)) as Hs by reflexivity.
  cbv zeta. rewrite !Hs. cbn [r1 c1 r2 c2].
  exists ((r + dist * dr) * 8 + (c + dist * dc)), board'.
  split.
  { apply is_valid_spec in Hrc. apply is_valid_spec in Hdest.
    destruct Hdr as [-> | ->]; destruct Hdc as [-> | ->]; lia. }
  split; [exact Henemy |]. split; [exact Happly |]. split; [exact Hfrom |].
  split; [exact Hover |]. split; [exact Hto | exact Hrest].
Qed.

(** * A jump on the board is found *)

Section ChainFound.
Variable chains_rec : list Z -> Z -> Z -> Z -> Move -> list Move.
Variables (board : list Z) (r c piece : Z) (cur : Move).
Hypothesis Hrec : forall b jr jc s, chains_rec b jr jc piece (add_step cur s) <> [].

Lemma land_chains_found (n : nat) (dr dc nr nc land_dist : Z) :
  snd (land_chains chains_rec board r c piece cur n dr dc nr nc land_dist) = true ->
  fst (land_chains chains_rec board r c piece cur n dr dc nr nc land_dist) <> [].
Proof.
  destruct n as [| n]; simpl; [discriminate |].
  destruct (negb (is_valid _ _)); [discriminate |].
  destruct (negb (_ =? EMPTY)); [discriminate |].
  simpl. intros _ Happ. apply app_eq_nil in Happ as [Hnil _]. exact (Hrec _ _ _ _ Hnil).
Qed.

Lemma scan_chains_found (n : nat) (dr dc : Z) :
  forall dist,
  snd (scan_chains chains_rec board r c piece cur n dr dc dist) = true ->
  fst (scan_chains chains_rec board r c piece cur n dr dc dist) <> [].
Proof.
  induction n as [| n IH]; intros dist; cbn [scan_chains]; [discriminate |].
  destruct (negb (is_valid _ _)); [discriminate |].
  destruct (_ || _ || (_ =? GHOST)); [discriminate |].
  destruct (_ || _); [apply land_chains_found | apply IH].
Qed.

Lemma dir_chains_found (d : Z * Z) :
  snd (dir_chains chains_rec board r c piece cur d) = true ->
  fst (dir_chains chains_rec board r c piece cur d) <> [].
Proof.
  unfold dir_chains. destruct (negb _); [| apply scan_chains_found].
  unfold man_chains. cbv zeta.
  destruct (is_valid _ _); [| discriminate].
  destruct (_ && _); [| discriminate]. simpl. intros _. apply Hrec.
Qed.

Lemma dirs_chains_found :
  existsb snd (map (dir_chains chains_rec board r c piece cur) dirs) = true ->
  concat (map fst (map (dir_chains chains_rec board r c piece cur) dirs)) <> [].
Proof.
  intros Hex. apply existsb_exists in Hex as (o & Ho & Hfound).
  apply in_map_iff in Ho as (d & <- & Hd).
  pose proof (dir_chains_found d Hfound) as Hne.
  intros Hnil. apply Hne.
  assert (forall l, In l (map fst (map (dir_chains chains_rec board r c piece cur) dirs)) ->
            l = []) as Hall.
  { intros l Hl. destruct l as [| x l]; [reflexivity |].
    assert (In x (concat (map fst (map (dir_chains chains_rec board r c piece cur) dirs))))
      as Hx by (apply in_concat; exists (x :: l); split; [exact Hl | left; reflexivity]).
    rewrite Hnil in Hx. destruct Hx. }
  apply Hall. apply in_map, in_map, Hd.
Qed.
End ChainFound.

Lemma emitted_chains_nonempty (fuel : nat) :
  forall board r c piece cur,
  1 <= m_count cur <= 12 -> 13 <= Z.of_nat fuel + m_count cur ->
  emitted_chains fuel board r c piece cur <> [].
Proof.
  induction fuel as [| fuel IH]; intros board r c piece cur Hc Hfuel; [lia |].
  rewrite emitted_chains_S.
  destruct (Z.leb_spec 12 (m_count cur)); [discriminate |].
  unfold body_chains. cbv zeta.
  destruct (existsb snd _) eqn:Hex; cbn [negb andb].
  - apply dirs_chains_found; [| exact Hex].
    intros b jr jc s.
    assert (m_count (add_step cur s) = m_count cur + 1) as Hnext by reflexivity.
    apply IH; rewrite Hnext; lia.
  - destruct (Z.ltb_spec 0 (m_count cur)) as [_ | ?]; [| lia].
    intros Happ. apply app_eq_nil in Happ as [_ Hnil]. discriminate Hnil.
Qed.

Section JumpSeen.
Variable chains_rec : list Z -> Z -> Z -> Z -> Move -> list Move.
Variables (board : list Z) (r c piece : Z) (cur : Move).

Lemma scan_chains_sees (n : nat) (dr dc dist : Z) :
  forall from,
  1 <= from <= dist -> (Z.to_nat (dist - from) < n)%nat ->
  (forall k, from <= k < dist ->
     is_valid (r + k * dr) (c + k * dc) = true /\
     bget board ((r + k * dr) * 8 + (c + k * dc)) = EMPTY) ->
  is_valid (r + dist * dr) (c + dist * dc) = true ->
  is_enemy_piece piece (bget board ((r + dist * dr) * 8 + (c + dist * dc))) = true ->
  is_valid (r + dist * dr + 1 * dr) (c + dist * dc + 1 * dc) = true ->
  bget board ((r + dist * dr + 1 * dr) * 8 + (c + dist * dc + 1 * dc)) = EMPTY ->
  snd (scan_chains chains_rec board r c piece cur n dr dc from) = true.
Proof.
  induction n as [| n IH]; intros from Hfrom Hn Hpath Hv Henemy Hlv Hland; [lia |].
  cbn [scan_chains].
  destruct (decide (from = dist)) as [-> | Hne].
  - rewrite Hv. cbn [negb].
    unfold is_enemy_piece in Henemy.
    set (p := bget board ((r + dist * dr) * 8 + (c + dist * dc))) in *.
    assert ((p =? (if is_white_piece piece then WHITE_MAN else BLACK_MAN))
            || (p =? (if is_white_piece piece then WHITE_KING else BLACK_KING))
            || (p =? GHOST) = false) as ->.
    { unfold WHITE_MAN, BLACK_MAN, WHITE_KING, BLACK_KING, GHOST in *.
      destruct (is_white_piece piece);
        apply orb_true_iff in Henemy as [He | He]; apply Z.eqb_eq in He; rewrite He;
        reflexivity. }
    assert ((p =? (if is_white_piece piece then BLACK_MAN else WHITE_MAN))
            || (p =? (if is_white_piece piece then BLACK_KING else WHITE_KING)) = true) as ->.
    { destruct (is_white_piece piece); exact Henemy. }
    cbn [land_chains]. rewrite Hlv, Hland. reflexivity.
  - destruct (Hpath from ltac:(lia)) as [Hvf Hef]. rewrite Hvf, Hef. cbn [negb].
    assert ((EMPTY =? (if is_white_piece piece then WHITE_MAN else BLACK_MAN))
            || (EMPTY =? (if is_white_piece piece then WHITE_KING else BLACK_KING))
            || (EMPTY =? GHOST) = false) as -> by (destruct (is_white_piece piece); reflexivity).
    assert ((EMPTY =? (if is_white_piece piece then BLACK_MAN else WHITE_MAN))
            || (EMPTY =? (if is_white_piece piece then BLACK_KING else WHITE_KING)) = false)
      as -> by (destruct (is_white_piece piece); reflexivity).
    apply IH; try assumption; [lia | lia |]. intros k Hk. apply Hpath. lia.
Qed.
End JumpSeen.

(** A jump that stands on the board is found.  When a man of the side
    to move has an enemy piece next to it along a diagonal and an empty
    square behind that piece, or a king reaches an enemy piece over empty
    squares and finds an empty square behind it, [generate_moves] returns
    captures and nothing else. *)
Theorem available_jump_forces_capture (board : list Z) (player r c dr dc dist : Z) :
  is_valid r c = true -> In (dr, dc) dirs -> 1 <= dist ->
  (bget board (r * 8 + c) = my_man_of player /\ dist = 1) \/
    bget board (r * 8 + c) = my_king_of player ->
  (forall k, 1 <= k < dist -> bget board ((r + k * dr) * 8 + (c + k * dc)) = EMPTY) ->
  is_enemy_piece player (bget board ((r + dist * dr) * 8 + (c + dist * dc))) = true ->
  is_valid (r + (dist + 1) * dr) (c + (dist + 1) * dc) = true ->
  bget board ((r + (dist + 1) * dr) * 8 + (c + (dist + 1) * dc)) = EMPTY ->
  0 < ml_count (generate_moves board player) /\
  (forall m, In m (ml_list (generate_moves board player)) -> is_capture_move m = true).
Proof.
  intros Hrc Hd Hdist Hown Hpath Henemy Hlv Hland.
  apply captures_only. rewrite (proj2 (capture_scan_list board player)).
  assert ((dr = 1 \/ dr = -1) /\ (dc = 1 \/ dc = -1)) as [Hdr Hdc].
  { unfold dirs in Hd. simpl in Hd.
    destruct Hd as [H | [H | [H | [H | []]]]]; injection H as <- <-; lia. }
  pose proof Hrc as Hrc'. apply is_valid_spec in Hrc'.
  pose proof Hlv as Hlv'. apply is_valid_spec in Hlv'.
  set (i := r * 8 + c) in *.
  assert (In i (range 0 64)) as Hi by (apply in_range; unfold i; lia).
  assert (i ÷ 8 = r /\ Z.rem i 8 = c) as [Hq Hrem].
  { unfold i. rewrite Z.quot_div_nonneg, Z.rem_mod_nonneg by lia.
    split; [symmetry; apply Z.div_unique with c; lia
           | symmetry; apply Z.mod_unique with r; lia]. }
  set (piece := bget board i) in *.
  assert (piece = my_man_of player \/ piece = my_king_of player) as Hmine
    by (destruct Hown as [[? _] | ?]; auto).
  assert (forall x, is_enemy_piece piece x = is_enemy_piece player x) as Hside.
  { intros x. unfold is_enemy_piece. rewrite (own_piece_side player piece Hmine). reflexivity. }
  assert (existsb snd (map (dir_chains (emitted_chains 12) board r c piece zero_move) dirs)
          = true) as Hex.
  { apply existsb_exists. exists (dir_chains (emitted_chains 12) board r c piece zero_move (dr, dc)).
    split; [apply in_map, Hd |].
    unfold dir_chains. cbn [fst snd].
    destruct Hown as [[Hman ->] | Hking].
    - assert (is_king_piece piece = false) as ->.
      { rewrite Hman. unfold my_man_of. destruct (is_white_piece player); reflexivity. }
      cbn [negb]. unfold man_chains. cbv zeta.
      replace (r + 2 * dr) with (r + (1 + 1) * dr) by lia.
      replace (c + 2 * dc) with (c + (1 + 1) * dc) by lia.
      rewrite Hlv, Hland.
      replace (r + dr) with (r + 1 * dr) by lia. replace (c + dc) with (c + 1 * dc) by lia.
      rewrite <- Hside in Henemy. unfold is_enemy_piece in Henemy.
      assert ((bget board ((r + 1 * dr) * 8 + (c + 1 * dc))
                 =? (if is_white_piece piece then BLACK_MAN else WHITE_MAN))
              || (bget board ((r + 1 * dr) * 8 + (c + 1 * dc))
                    =? (if is_white_piece piece then BLACK_KING else WHITE_KING)) = true) as ->
        by (destruct (is_white_piece piece); exact Henemy).
      reflexivity.
    - assert (is_king_piece piece = true) as ->.
      { rewrite Hking. unfold my_king_of. destruct (is_white_piece player); reflexivity. }
      cbn [negb].
      apply (scan_chains_sees _ board r c piece zero_move 8 dr dc dist 1).
      + lia.
      + destruct Hdr as [-> | ->]; lia.
      + intros k Hk. split; [| apply Hpath; lia].
        apply is_valid_spec. destruct Hdr as [-> | ->]; destruct Hdc as [-> | ->]; lia.
      + apply is_valid_spec. destruct Hdr as [-> | ->]; destruct Hdc as [-> | ->]; lia.
      + rewrite Hside. exact Henemy.
      + replace (r + dist * dr + 1 * dr) with (r + (dist + 1) * dr) by lia.
        replace (c + dist * dc + 1 * dc) with (c + (dist + 1) * dc) by lia. exact Hlv.
      + replace (r + dist * dr + 1 * dr) with (r + (dist + 1) * dr) by lia.
        replace (c + dist * dc + 1 * dc) with (c + (dist + 1) * dc) by lia. exact Hland. }
  assert (emitted_chains 13 board r c piece zero_move <> []) as Hsome.
  { rewrite (emitted_chains_S 12).
    change (12 <=? m_count zero_move) with false. cbv iota.
    unfold body_chains. cbv zeta. rewrite Hex. cbn [negb andb].
    apply dirs_chains_found; [| exact Hex].
    intros b jr jc s. apply emitted_chains_nonempty; cbn [m_count add_step zero_move]; lia. }
  assert (all_chains board player <> []) as Hall.
  { destruct (emitted_chains 13 board r c piece zero_move) as [| m rest] eqn:Hem;
      [contradiction |].
    intros Hnil.
    assert (In m (all_chains board player)) as Hin.
    { unfold all_chains. apply in_flat_map. exists i. split; [exact Hi |].
      fold piece. rewrite Hq, Hrem.
      assert ((piece =? my_man_of player) || (piece =? my_king_of player) = true) as ->.
      { apply orb_true_iff. destruct Hmine as [-> | ->]; [left | right]; apply Z.eqb_refl. }
      rewrite Hem. left. reflexivity. }
    rewrite Hnil in Hin. destruct Hin. }
  destruct (all_chains board player) as [| m rest]; [contradiction | discriminate].
Qed.

(** * Capture chains of a man *)

Lemma enemy_of_man (piece v : Z) :
  piece = WHITE_MAN \/ piece = BLACK_MAN -> is_enemy_piece piece v = true ->
  v <> EMPTY /\ v <> GHOST /\ v <> piece.
Proof.
  unfold is_enemy_piece, EMPTY, GHOST, WHITE_MAN, BLACK_MAN, WHITE_KING, BLACK_KING.
  intros [-> | ->]; cbn; intros Hv; apply orb_true_iff in Hv as [Hv | Hv];
    apply Z.eqb_eq in Hv; lia.
Qed.

Lemma bget_jump_board (b : list Z) (r c nr nc jr jc piece k : Z) :
  length b = 64%nat ->
  0 <= r * 8 + c < 64 -> 0 <= nr * 8 + nc < 64 -> 0 <= jr * 8 + jc < 64 ->
  bget (jump_board b r c nr nc jr jc piece) k
  = if decide (k = jr * 8 + jc) then piece
    else if decide (k = nr * 8 + nc) then GHOST
    else if decide (k = r * 8 + c) then EMPTY
    else bget b k.
Proof.
  intros Hlen Hp Hm Hl. unfold jump_board.
  destruct (decide (k = jr * 8 + jc)) as [-> | H1].
  { apply bget_bset_eq. rewrite !bset_length, Hlen. lia. }
  rewrite bget_bset_ne by exact H1.
  destruct (decide (k = nr * 8 + nc)) as [-> | H2].
  { apply bget_bset_eq. rewrite !bset_length, Hlen. lia. }
  rewrite bget_bset_ne by exact H2.
  destruct (decide (k = r * 8 + c)) as [-> | H3].
  { apply bget_bset_eq. rewrite Hlen. lia. }
  apply bget_bset_ne, H3.
Qed.

Lemma mid_square_jump (r c dr dc : Z) :
  mid_square (mkStep r c (r + 2 * dr) (c + 2 * dc)) = (r + dr) * 8 + (c + dc).
Proof.
  unfold mid_square. cbn [r1 c1 r2 c2].
  replace (r + (r + 2 * dr)) with ((r + dr) * 2) by lia.
  replace (c + (c + 2 * dc)) with ((c + dc) * 2) by lia.
  rewrite !Z.div_mul by lia. reflexivity.
Qed.

Section ManTrail.
Variables (B : list Z) (piece r0 c0 : Z).
Hypothesis Hman : piece = WHITE_MAN \/ piece = BLACK_MAN.

Lemma man_trail_start :
  length B = 64%nat -> is_valid r0 c0 = true -> bget B (r0 * 8 + c0) = piece ->
  man_trail B piece r0 c0 B r0 c0 zero_move.
Proof.
  intros Hlen Hv Hsrc. split; [apply zero_move_chain |]. split; [exact Hv |].
  split; [exact Hlen |]. split; [cbn [m_count zero_move]; intros j Hj; lia |].
  split; [exact Hsrc |]. split; [intros Hne; contradiction |].
  intros k _ _ _. reflexivity.
Qed.

Lemma man_trail_step (b : list Z) (r c : Z) (cur : Move) (dr dc : Z) :
  man_trail B piece r0 c0 b r c cur -> m_count cur < 12 ->
  dr = 1 \/ dr = -1 -> dc = 1 \/ dc = -1 ->
  is_valid (r + 2 * dr) (c + 2 * dc) = true ->
  is_enemy_piece piece (bget b ((r + dr) * 8 + (c + dc))) = true ->
  bget b ((r + 2 * dr) * 8 + (c + 2 * dc)) = EMPTY ->
  man_trail B piece r0 c0
    (jump_board b r c (r + dr) (c + dc) (r + 2 * dr) (c + 2 * dc) piece)
    (r + 2 * dr) (c + 2 * dc) (add_step cur (mkStep r c (r + 2 * dr) (c + 2 * dc))).
Proof.
  intros (Hchain & Hrc & Hlen & Hmids & Hhere & Hleft & Hrest) Hroom Hdr Hdc Hjv Henemy Hland.
  pose proof Hrc as Hrc'. apply is_valid_spec in Hrc'.
  pose proof Hjv as Hjv'. apply is_valid_spec in Hjv'.
  destruct (enemy_of_man piece _ Hman Henemy) as (He1 & He2 & He3).
  assert (piece <> EMPTY /\ piece <> GHOST) as [Hp1 Hp2]
    by (unfold EMPTY, GHOST, WHITE_MAN, BLACK_MAN in *; lia).
  assert (EMPTY <> GHOST) as Heg by (unfold EMPTY, GHOST; lia).
  set (P := r * 8 + c) in *. set (M := (r + dr) * 8 + (c + dc)) in *.
  set (L := (r + 2 * dr) * 8 + (c + 2 * dc)) in *. set (S0 := r0 * 8 + c0) in *.
  assert (0 <= P < 64 /\ 0 <= M < 64 /\ 0 <= L < 64 /\ P <> M /\ P <> L /\ M <> L)
    as (HP & HM & HL & HPM & HPL & HML).
  { unfold P, M, L. destruct Hdr as [-> | ->]; destruct Hdc as [-> | ->]; lia. }
  assert (M <> S0) as HMS.
  { intros Heq. destruct (decide (P = S0)) as [HPS | HPS]; [congruence |].
    destruct (Hleft HPS) as [Hs _]. rewrite <- Heq in Hs. contradiction. }
  assert (forall j, 0 <= j < m_count cur ->
            mid_square (step_at cur j) <> P /\ mid_square (step_at cur j) <> M /\
            mid_square (step_at cur j) <> L) as Hold.
  { intros j Hj. destruct (Hmids j Hj) as (_ & Hg & _).
    repeat split; intros Heq; rewrite Heq in Hg; congruence. }
  assert (forall k,
            bget (jump_board b r c (r + dr) (c + dc) (r + 2 * dr) (c + 2 * dc) piece) k
            = if decide (k = L) then piece else if decide (k = M) then GHOST
              else if decide (k = P) then EMPTY else bget b k) as Hread
    by (intros k; apply bget_jump_board; assumption).
  set (b' := jump_board b r c (r + dr) (c + dc) (r + 2 * dr) (c + 2 * dc) piece) in *.
  set (s := mkStep r c (r + 2 * dr) (c + 2 * dc)).
  destruct Hchain as (Hc & Hslen & Hdiag & Hlink & Hends).
  assert (forall j, 0 <= j ->
            step_at (add_step cur s) j = if decide (j = m_count cur) then s else step_at cur j)
    as Hstep by (intros j Hj; apply step_at_add_step; clear - Hj Hc Hslen Hroom; lia).
  assert (m_count (add_step cur s) = m_count cur + 1) as Hcount by reflexivity.
  assert (bget B M = bget b M) as HBM.
  { symmetry. apply Hrest; [exact HMS | congruence |].
    intros j Hj. destruct (Hold j Hj) as (_ & H2 & _). congruence. }
  split.
  { apply (add_step_chain r0 c0 r c (r + 2 * dr) (c + 2 * dc) cur);
      [exact (conj Hc (conj Hslen (conj Hdiag (conj Hlink Hends))))
      | exact Hroom | exact Hrc | exact Hjv | |];
      clear - Hdr Hdc; destruct Hdr as [-> | ->]; destruct Hdc as [-> | ->]; lia. }
  split; [exact Hjv |].
  split; [unfold b', jump_board; rewrite !bset_length; exact Hlen |].
  fold L S0.
  split; [| split; [| split]].
  - rewrite Hcount. intros j Hj. rewrite Hstep by (clear - Hj; lia).
    destruct (decide (j = m_count cur)) as [_ | Hne].
    + unfold s at 1 2. cbn [r1 r2]. unfold s. rewrite mid_square_jump. fold M.
      split; [clear - Hdr; destruct Hdr as [-> | ->]; lia |]. split.
      * rewrite Hread. destruct (decide (M = L)); [congruence |].
        destruct (decide (M = M)); [reflexivity | contradiction].
      * rewrite HBM. exact Henemy.
    + assert (0 <= j < m_count cur) as Hj' by (clear - Hj Hne; lia).
      destruct (Hmids j Hj') as (H2 & Hg & Hen).
      destruct (Hold j Hj') as (H3 & H4 & H5).
      split; [exact H2 |]. split; [| exact Hen].
      rewrite Hread. destruct (decide (_ = L)); [contradiction |].
      destruct (decide (_ = M)); [contradiction |].
      destruct (decide (_ = P)); [contradiction | exact Hg].
  - rewrite Hread. destruct (decide (L = L)); [reflexivity | contradiction].
  - intros HLS. split.
    + rewrite Hread. destruct (decide (S0 = L)); [congruence |].
      destruct (decide (S0 = M)); [congruence |].
      destruct (decide (S0 = P)) as [_ | HSP]; [reflexivity |].
      apply Hleft. congruence.
    + rewrite <- Hland. symmetry. apply Hrest; [exact HLS | congruence |].
      intros j Hj. destruct (Hold j Hj) as (_ & _ & H5). congruence.
  - rewrite Hcount. intros k HkS HkL Hkm. rewrite Hread.
    destruct (decide (k = L)); [contradiction |].
    assert (k <> M) as HkM.
    { assert (0 <= m_count cur < m_count cur + 1) as Hlast by (clear - Hc; lia).
      specialize (Hkm (m_count cur) Hlast). rewrite Hstep in Hkm by (clear - Hc; lia).
      destruct (decide (m_count cur = m_count cur)); [| contradiction].
      unfold s in Hkm. rewrite mid_square_jump in Hkm. exact Hkm. }
    destruct (decide (k = M)); [contradiction |].
    destruct (decide (k = P)) as [-> | HkP].
    + symmetry. apply Hleft. exact HkS.
    + apply Hrest; [exact HkS | exact HkP |].
      intros j Hj. assert (0 <= j < m_count cur + 1) as Hj' by (clear - Hj; lia).
      specialize (Hkm j Hj'). rewrite Hstep in Hkm by (clear - Hj; lia).
      destruct (decide (j = m_count cur)) as [Heq | _]; [clear - Hj Heq; lia | exact Hkm].
Qed.

Lemma emitted_chains_trail (fuel : nat) :
  forall b r c cur,
  man_trail B piece r0 c0 b r c cur ->
  Forall (fun m => 1 <= m_count m /\ exists b' r' c', man_trail B piece r0 c0 b' r' c' m)
    (emitted_chains fuel b r c piece cur).
Proof.
  assert (is_king_piece piece = false) as Hnk
    by (destruct Hman as [-> | ->]; reflexivity).
  induction fuel as [| fuel IH]; intros b r c cur Htrail; [constructor |].
  rewrite emitted_chains_S.
  destruct (Z.leb_spec 12 (m_count cur)) as [Hfull | Hroom].
  { constructor; [| constructor]. split; [lia | eauto]. }
  assert (Forall (fun m => 1 <= m_count m /\
                           exists b' r' c', man_trail B piece r0 c0 b' r' c' m)
            (concat (map fst (map (dir_chains (emitted_chains fuel) b r c piece cur) dirs))))
    as Hall.
  { apply Forall_concat. rewrite List.Forall_forall. intros l Hl.
    apply in_map_iff in Hl as (o & <- & Ho).
    apply in_map_iff in Ho as (d & <- & Hd).
    assert ((fst d = 1 \/ fst d = -1) /\ (snd d = 1 \/ snd d = -1)) as [Hdr Hdc].
    { unfold dirs in Hd. simpl in Hd.
      destruct Hd as [<- | [<- | [<- | [<- | []]]]]; simpl; lia. }
    unfold dir_chains. rewrite Hnk. cbn [negb].
    rewrite List.Forall_forall. intros m Hm.
    pose proof Hm as Hm'.
    apply in_man_chains in Hm' as (Hv & Henemy & Hland & _).
    unfold man_chains in Hm. cbv zeta in Hm. rewrite Hv, Hland in Hm.
    unfold is_enemy_piece in Henemy.
    assert ((bget b ((r + fst d) * 8 + (c + snd d))
               =? (if is_white_piece piece then BLACK_MAN else WHITE_MAN))
            || (bget b ((r + fst d) * 8 + (c + snd d))
                  =? (if is_white_piece piece then BLACK_KING else WHITE_KING)) = true) as Hmid
      by (destruct (is_white_piece piece); exact Henemy).
    rewrite Hmid in Hm. cbn [andb fst] in Hm. rewrite Z.eqb_refl in Hm. cbn [fst] in Hm.
    pose proof (IH _ _ _ _ (man_trail_step b r c cur (fst d) (snd d) Htrail Hroom Hdr Hdc Hv
                              ltac:(unfold is_enemy_piece; destruct (is_white_piece piece);
                                    exact Henemy) Hland)) as Hnext.
    rewrite List.Forall_forall in Hnext. apply Hnext, Hm. }
  unfold body_chains. cbv zeta. destruct (_ && _) eqn:Hemit; [| exact Hall].
  apply Forall_app. split; [exact Hall |]. constructor; [| constructor].
  apply andb_true_iff in Hemit as [_ Hpos]. apply Z.ltb_lt in Hpos. split; [lia | eauto].
Qed.
End ManTrail.

Lemma jump_walk_dir (X : list Z) (sr sc dr dc captured : Z) :
  length X = 64%nat -> dr = 1 \/ dr = -1 -> dc = 1 \/ dc = -1 ->
  is_valid sr sc = true -> is_valid (sr + 2 * dr) (sc + 2 * dc) = true ->
  exists X' captured',
    capture_walk 8 X (sr + dr) (sc + dc) (sr + 2 * dr) dr dc captured = Some (X', captured') /\
    length X' = 64%nat /\
    bget X' ((sr + dr) * 8 + (sc + dc)) = EMPTY /\
    forall k, k <> (sr + dr) * 8 + (sc + dc) -> bget X' k = bget X k.
Proof.
  intros Hlen Hdr Hdc Hv1 Hv2.
  apply is_valid_spec in Hv1. apply is_valid_spec in Hv2.
  assert (0 <= (sr + dr) * 8 + (sc + dc) < 64) as Hin
    by (clear - Hv1 Hv2 Hdr Hdc; destruct Hdr as [-> | ->]; destruct Hdc as [-> | ->]; lia).
  destruct (Z.eq_dec (bget X ((sr + dr) * 8 + (sc + dc))) EMPTY) as [He | Hne].
  - exists X, captured. split.
    + apply (capture_walk_empty_path 8 _ _ _ _ _ _ _ 1); [lia | lia | lia | exact Hdr |].
      intros j Hj. assert (j = 0) as -> by lia.
      replace (sr + dr + 0 * dr) with (sr + dr) by lia.
      replace (sc + dc + 0 * dc) with (sc + dc) by lia. exact He.
    + split; [exact Hlen |]. split; [exact He |]. intros k _. reflexivity.
  - exists (bset X ((sr + dr) * 8 + (sc + dc)) EMPTY), (bget X ((sr + dr) * 8 + (sc + dc))).
    split.
    + rewrite (capture_walk_one_victim 8 X (sr + dr) (sc + dc) (sr + 2 * dr) dr dc captured 1 0).
      * replace (sr + dr + 0 * dr) with (sr + dr) by lia.
        replace (sc + dc + 0 * dc) with (sc + dc) by lia. reflexivity.
      * lia.
      * lia.
      * lia.
      * exact Hdr.
      * intros j Hj Hj0. lia.
      * replace (sr + dr + 0 * dr) with (sr + dr) by lia.
        replace (sc + dc + 0 * dc) with (sc + dc) by lia. exact Hne.
    + split; [rewrite bset_length; exact Hlen |].
      split; [apply bget_bset_eq; rewrite Hlen; lia |].
      intros k Hk. apply bget_bset_ne, Hk.
Qed.

Lemma man_jump_walk (X : list Z) (s : Step) (captured : Z) :
  length X = 64%nat -> diagonal_step s -> Z.abs (r2 s - r1 s) = 2 ->
  exists X' captured',
    capture_walk 8 X (r1 s + (if r2 s >? r1 s then 1 else -1))
      (c1 s + (if c2 s >? c1 s then 1 else -1)) (r2 s)
      (if r2 s >? r1 s then 1 else -1) (if c2 s >? c1 s then 1 else -1) captured
    = Some (X', captured') /\
    length X' = 64%nat /\
    bget X' (mid_square s) = EMPTY /\
    forall k, k <> mid_square s -> bget X' k = bget X k.
Proof.
  intros Hlen (Hv1 & Hv2 & _ & Hdia) Hjump.
  destruct s as [sr sc er ec]. cbn [r1 c1 r2 c2] in *.
  assert (exists dr dc, (dr = 1 \/ dr = -1) /\ (dc = 1 \/ dc = -1) /\
            er = sr + 2 * dr /\ ec = sc + 2 * dc /\
            (if er >? sr then 1 else -1) = dr /\ (if ec >? sc then 1 else -1) = dc)
    as (dr & dc & Hdr & Hdc & -> & -> & -> & ->).
  { exists (if er >? sr then 1 else -1), (if ec >? sc then 1 else -1).
    destruct (Z.gtb_spec er sr); destruct (Z.gtb_spec ec sc); lia. }
  rewrite mid_square_jump.
  apply jump_walk_dir; assumption.
Qed.

Lemma man_steps_fold (m : Move) (X : list Z) (captured : Z) (n : nat) :
  length X = 64%nat ->
  (forall j, 0 <= j < Z.of_nat n ->
     diagonal_step (step_at m j) /\ Z.abs (r2 (step_at m j) - r1 (step_at m j)) = 2) ->
  exists X' captured',
    fold_left (apply_step m) (range 0 n) (Some (X, captured)) = Some (X', captured') /\
    length X' = 64%nat /\
    (forall j, 0 <= j < Z.of_nat n -> bget X' (mid_square (step_at m j)) = EMPTY) /\
    (forall k, (forall j, 0 <= j < Z.of_nat n -> k <> mid_square (step_at m j)) ->
       bget X' k = bget X k).
Proof.
  intros Hlen. induction n as [| n IH]; intros Hsteps.
  - exists X, captured. split; [reflexivity |]. split; [exact Hlen |].
    split; [intros j Hj; lia | intros k _; reflexivity].
  - destruct IH as (Xn & capn & Hfold & Hlenn & Hcleared & Hkept);
      [intros j Hj; apply Hsteps; lia |].
    destruct (Hsteps (Z.of_nat n) ltac:(lia)) as [Hdiag Hjump].
    destruct (man_jump_walk Xn (step_at m (Z.of_nat n)) capn Hlenn Hdiag Hjump)
      as (X' & cap' & Hwalk & Hlen' & Hmid & Hother).
    exists X', cap'. split.
    { rewrite range_snoc, fold_left_app, Hfold. cbn [fold_left]. unfold apply_step.
      cbn [mbind option_bind]. cbv zeta. rewrite Z.add_0_l. exact Hwalk. }
    split; [exact Hlen' |]. split.
    + intros j Hj.
      destruct (decide (mid_square (step_at m j) = mid_square (step_at m (Z.of_nat n))))
        as [-> | Hne]; [exact Hmid |].
      rewrite Hother by exact Hne. apply Hcleared.
      destruct (decide (j = Z.of_nat n)) as [-> | ?]; [contradiction | lia].
    + intros k Hk. rewrite Hother by (apply Hk; lia). apply Hkept.
      intros j Hj. apply Hk. lia.
Qed.

(** The capture chain of a man does what the rules say.  Applied to the
    64-square board it was generated for, a generated capture whose
    mover is a man empties every square it jumps, each of which held an
    enemy piece, leaves the man (crowned when it ends on the far row) on
    the last landing square, empties its first square unless the chain
    ends there, and changes no other square. *)
Theorem man_chain_takes_the_jumped_pieces (board : list Z) (player : Z) (m : Move)
    (mover captured : Z) :
  length board = 64%nat ->
  ml_list (capture_scan board player (clear new_movelist)) <> [] ->
  In m (ml_list (generate_moves board player)) ->
  bget board (r1 (step_at m 0) * 8 + c1 (step_at m 0)) = my_man_of player ->
  let from := r1 (step_at m 0) * 8 + c1 (step_at m 0) in
  let to := r2 (step_at m (m_count m - 1)) * 8 + c2 (step_at m (m_count m - 1)) in
  let piece := bget board from in
  exists board' captured',
    apply_move board m mover captured = Some (board', captured') /\
    (forall j, 0 <= j < m_count m ->
       is_enemy_piece player (bget board (mid_square (step_at m j))) = true /\
       bget board' (mid_square (step_at m j)) = EMPTY) /\
    bget board' to
    = (if (piece =? BLACK_MAN) && (r2 (step_at m (m_count m - 1)) =? 7) then BLACK_KING
       else if (piece =? WHITE_MAN) && (r2 (step_at m (m_count m - 1)) =? 0) then WHITE_KING
       else piece) /\
    (from <> to -> bget board' from = EMPTY) /\
    forall k, k <> from -> k <> to ->
      (forall j, 0 <= j < m_count m -> k <> mid_square (step_at m j)) ->
      bget board' k = bget board k.
Proof.
  intros Hlen Hcaps Hm Hmover.
  destruct (generate_moves_cases board player) as (_ & Hcap & _).
  rewrite (Hcap Hcaps) in Hm. apply filter_In in Hm as [Hm _].
  rewrite (proj2 (capture_scan_list board player)) in Hm.
  apply list_elem_of_In, elem_of_take in Hm as (k0 & Hm & _).
  apply list_elem_of_lookup_2, list_elem_of_In in Hm.
  pose proof (all_chains_path board player m Hm) as (i & _ & Hpath & Hidx).
  unfold all_chains in Hm. apply in_flat_map in Hm as (i' & Hi' & Hm).
  destruct (_ || _); [| destruct Hm].
  pose proof (emitted_chains_path (i' ÷ 8) (Z.rem i' 8) 13 board (i' ÷ 8) (Z.rem i' 8)
                (bget board i') zero_move (square_on_board i' Hi') (zero_move_chain _ _)) as Hp.
  rewrite List.Forall_forall in Hp. destruct (Hp m Hm) as (_ & Hr0 & Hc0 & _).
  assert ((i' ÷ 8) * 8 + Z.rem i' 8 = i') as Hidx' by (pose proof (Z.quot_rem' i' 8); lia).
  rewrite Hr0, Hc0, Hidx' in Hmover.
  assert (bget board i' = WHITE_MAN \/ bget board i' = BLACK_MAN) as Hman.
  { rewrite Hmover. unfold my_man_of. destruct (is_white_piece player); auto. }
  pose proof (emitted_chains_trail board (bget board i') (i' ÷ 8) (Z.rem i' 8) Hman 13
                board (i' ÷ 8) (Z.rem i' 8) zero_move
                (man_trail_start board (bget board i') (i' ÷ 8) (Z.rem i' 8) Hlen
                   (square_on_board i' Hi') ltac:(rewrite Hidx'; reflexivity))) as Htrail.
  rewrite List.Forall_forall in Htrail.
  destruct (Htrail m Hm) as (Hone & b & r & c & Hchain & Hrc & Hlenb & Hmids & Hhere & _ & _).
  clear Htrail Hp Hm Hpath Hidx i.
  set (piece := bget board i') in *. set (r0 := i' ÷ 8) in *. set (c0 := Z.rem i' 8) in *.
  destruct Hchain as (Hc & Hslen & Hdiag & Hlink & Hends).
  destruct (Z.eqb_spec (m_count m) 0) as [? | _]; [lia |].
  destruct Hends as (_ & _ & Hr & Hcc).
  cbv zeta. rewrite Hr0, Hc0, Hr, Hcc, Hidx'. fold piece.
  set (S0 := i') in *. set (D := r * 8 + c) in *.
  assert (forall x, is_enemy_piece piece x = is_enemy_piece player x) as Hside.
  { intros x. unfold is_enemy_piece.
    rewrite (own_piece_side player piece (or_introl Hmover)). reflexivity. }
  assert (EMPTY <> GHOST) as Heg by (unfold EMPTY, GHOST; lia).
  assert (piece <> GHOST) as Hpg
    by (clear - Hman; unfold GHOST, WHITE_MAN, BLACK_MAN in *; lia).
  assert (forall j, 0 <= j < m_count m ->
            mid_square (step_at m j) <> D /\ mid_square (step_at m j) <> S0) as Hoff.
  { intros j Hj. destruct (Hmids j Hj) as (_ & Hg & Hen). split; intros Heq.
    - rewrite Heq in Hg. congruence.
    - rewrite Heq in Hen. destruct (enemy_of_man piece _ Hman Hen) as (_ & _ & Hx).
      apply Hx. reflexivity. }
  pose proof Hrc as Hrc'. apply is_valid_spec in Hrc'.
  assert (0 <= S0 < 64) as HS by (apply in_range in Hi'; unfold S0; lia).
  assert (0 <= D < 64) as HD by (unfold D; lia).
  unfold apply_move. cbv zeta. rewrite Hr0, Hc0, Hr, Hcc, Hidx'. fold piece D.
  set (placed := bset (bset board S0 EMPTY) D piece).
  assert (length placed = 64%nat) as Hplaced
    by (unfold placed; rewrite !bset_length; exact Hlen).
  assert ((Z.abs (r0 - r) >=? 2) || (m_count m >? 1) = true) as ->.
  { destruct (Z.gtb_spec (m_count m) 1) as [? | Hle]; [apply orb_true_r |].
    assert (m_count m = 1) as Heq1 by lia.
    destruct (Hmids 0 ltac:(lia)) as (Hj2 & _).
    rewrite Heq1 in Hr. change (1 - 1) with 0 in Hr. rewrite Hr, Hr0 in Hj2.
    apply orb_true_iff. left. apply Z.geb_le. lia. }
  destruct (man_steps_fold m placed captured (Z.to_nat (m_count m)) Hplaced)
    as (X' & cap' & Hfold & Hlen' & Hcleared & Hkept).
  { intros j Hj. split; [apply Hdiag; lia | apply Hmids; lia]. }
  rewrite Hfold. cbn [mbind option_bind].
  rewrite Z2Nat.id in Hcleared, Hkept by lia.
  eexists. eexists. split; [reflexivity |].
  assert (bget X' D = piece) as HXD.
  { rewrite Hkept by (intros j Hj; intros Heq; apply (proj1 (Hoff j Hj)); congruence).
    unfold placed. apply bget_bset_eq. rewrite bset_length, Hlen. lia. }
  assert (S0 <> D -> bget X' S0 = EMPTY) as HXS.
  { intros Hne.
    rewrite Hkept by (intros j Hj; intros Heq; apply (proj2 (Hoff j Hj)); congruence).
    unfold placed. rewrite bget_bset_ne by exact Hne. apply bget_bset_eq. rewrite Hlen. lia. }
  assert (forall k, k <> S0 -> k <> D ->
            (forall j, 0 <= j < m_count m -> k <> mid_square (step_at m j)) ->
            bget X' k = bget board k) as HXrest.
  { intros k H1 H2 H3. rewrite Hkept by exact H3.
    unfold placed. rewrite !bget_bset_ne by assumption. reflexivity. }
  assert (0 <= D < Z.of_nat (length X')) as HDin by (rewrite Hlen'; lia).
  assert (forall Y, length Y = 64%nat ->
            (forall k, k <> D -> bget Y k = bget X' k) ->
            (forall j, 0 <= j < m_count m ->
               is_enemy_piece player (bget board (mid_square (step_at m j))) = true /\
               bget Y (mid_square (step_at m j)) = EMPTY) /\
            (S0 <> D -> bget Y S0 = EMPTY) /\
            (forall k, k <> S0 -> k <> D ->
               (forall j, 0 <= j < m_count m -> k <> mid_square (step_at m j)) ->
               bget Y k = bget board k)) as Hframe.
  { intros Y HY Hsame. split; [| split].
    - intros j Hj. destruct (Hmids j Hj) as (_ & _ & Hen). rewrite <- Hside. split; [exact Hen |].
      rewrite Hsame by (apply (proj1 (Hoff j Hj))). apply Hcleared, Hj.
    - intros Hne. rewrite Hsame by exact Hne. apply HXS, Hne.
    - intros k H1 H2 H3. rewrite Hsame by exact H2. apply HXrest; assumption. }
  unfold WHITE_MAN, BLACK_MAN in *.
  destruct (Z.eqb_spec piece 2) as [Hw | Hw]; destruct (Z.eqb_spec piece 1) as [Hb | Hb];
    try (clear - Hw Hb; lia);
    destruct (Z.eqb_spec r 0) as [H0 | H0]; destruct (Z.eqb_spec r 7) as [H7 | H7];
    try (clear - H0 H7; lia); cbn [andb]; cbv iota.
  all: match goal with
       | |- (_ /\ bget ?Y _ = _ /\ _) =>
         destruct (Hframe Y) as (F1 & F2 & F3);
           [rewrite ?bset_length; exact Hlen'
           | intros k Hk; rewrite ?bget_bset_ne by exact Hk; reflexivity
           | split; [exact F1 |]; split; [| split; [exact F2 | exact F3]] ]
       end.
  all: first [ apply bget_bset_eq; rewrite ?bset_length; exact HDin | exact HXD ].
Qed.

(** * Colour symmetry of the evaluation *)

Lemma range_lookup (lo : Z) (n k : nat) : (k < n)%nat -> range lo n !! k = Some (lo + Z.of_nat k).
Proof.
  intros Hk. unfold range. rewrite list_lookup_fmap, lookup_seq_lt by exact Hk. reflexivity.
Qed.

Lemma bget_flip (board : list Z) (k : Z) :
  0 <= k < 64 -> bget (flip_board board) k = swap_colour (bget board (mirror k)).
Proof.
  intros Hk. unfold flip_board. unfold bget at 1.
  destruct (Z.ltb_spec k 0); [lia |].
  rewrite list_lookup_fmap, (range_lookup 0 64 (Z.to_nat k)) by lia.
  simpl. rewrite Z2Nat.id by lia. reflexivity.
Qed.

Lemma mirror_square (r c : Z) :
  0 <= r < 8 -> 0 <= c < 8 -> mirror (r * 8 + c) = (7 - r) * 8 + c.
Proof.
  intros Hr Hc. unfold mirror.
  assert ((r * 8 + c) ÷ 8 = r /\ Z.rem (r * 8 + c) 8 = c) as [-> ->]; [| reflexivity].
  rewrite Z.quot_div_nonneg, Z.rem_mod_nonneg by lia.
  split; [symmetry; apply Z.div_unique with c; lia | symmetry; apply Z.mod_unique with r; lia].
Qed.

Lemma square_tables (i : Z) :
  In i (range 0 64) ->
  0 <= tab R i < 8 /\ 0 <= tab C i < 8 /\ i = tab R i * 8 + tab C i /\
  tab R ((7 - tab R i) * 8 + tab C i) = 7 - tab R i /\
  tab C ((7 - tab R i) * 8 + tab C i) = tab C i /\
  tab PST_BLACK ((7 - tab R i) * 8 + tab C i) = tab PST_WHITE i /\
  tab PST_WHITE ((7 - tab R i) * 8 + tab C i) = tab PST_BLACK i.
Proof.
  intros Hi.
  assert ((0 <=? tab R i) && (tab R i <? 8) && (0 <=? tab C i) && (tab C i <? 8)
          && (i =? tab R i * 8 + tab C i)
          && (tab R ((7 - tab R i) * 8 + tab C i) =? 7 - tab R i)
          && (tab C ((7 - tab R i) * 8 + tab C i) =? tab C i)
          && (tab PST_BLACK ((7 - tab R i) * 8 + tab C i) =? tab PST_WHITE i)
          && (tab PST_WHITE ((7 - tab R i) * 8 + tab C i) =? tab PST_BLACK i) = true) as H.
  { revert i Hi.
    apply (proj1 (forallb_forall
      (fun i => (0 <=? tab R i) && (tab R i <? 8) && (0 <=? tab C i) && (tab C i <? 8)
                && (i =? tab R i * 8 + tab C i)
                && (tab R ((7 - tab R i) * 8 + tab C i) =? 7 - tab R i)
                && (tab C ((7 - tab R i) * 8 + tab C i) =? tab C i)
                && (tab PST_BLACK ((7 - tab R i) * 8 + tab C i) =? tab PST_WHITE i)
                && (tab PST_WHITE ((7 - tab R i) * 8 + tab C i) =? tab PST_BLACK i))
      (range 0 64))).
    vm_compute. reflexivity. }
  rewrite !andb_true_iff, !Z.leb_le, !Z.ltb_lt, !Z.eqb_eq in H. intuition lia.
Qed.

Lemma swap_colour_empty (p : Z) : (swap_colour p =? EMPTY) = (p =? EMPTY).
Proof.
  unfold swap_colour, EMPTY, BLACK_MAN, WHITE_MAN, BLACK_KING, WHITE_KING.
  destruct (Z.eqb_spec p 1) as [-> | ?]; [reflexivity |].
  destruct (Z.eqb_spec p 2) as [-> | ?]; [reflexivity |].
  destruct (Z.eqb_spec p 3) as [-> | ?]; [reflexivity |].
  destruct (Z.eqb_spec p 4) as [-> | ?]; reflexivity.
Qed.

(** The flipped board around square [(7 - r, c)], read on the board. *)
Lemma bget_flip_at (board : list Z) (r c : Z) :
  0 <= r < 8 -> 0 <= c < 8 ->
  bget (flip_board board) ((7 - r) * 8 + c) = swap_colour (bget board (r * 8 + c)).
Proof.
  intros Hr Hc. rewrite bget_flip by lia.
  rewrite (mirror_square (7 - r) c) by lia. f_equal. f_equal. lia.
Qed.

Lemma mobility_flip_black (board : list Z) (r c : Z) :
  0 <= r < 8 -> 0 <= c < 8 ->
  (if 7 - r <? 7
   then b2z ((c >? 0) && (bget (flip_board board) ((7 - r) * 8 + c + 7) =? EMPTY)) +
        b2z ((c <? 7) && (bget (flip_board board) ((7 - r) * 8 + c + 9) =? EMPTY))
   else 0)
  = (if r >? 0
     then b2z ((c >? 0) && (bget board (r * 8 + c - 9) =? EMPTY)) +
          b2z ((c <? 7) && (bget board (r * 8 + c - 7) =? EMPTY))
     else 0).
Proof.
  intros Hr Hc.
  destruct (Z.ltb_spec (7 - r) 7); destruct (Z.gtb_spec r 0); try lia.
  f_equal; f_equal.
  - destruct (Z.gtb_spec c 0); [| reflexivity]. cbn [andb].
    replace ((7 - r) * 8 + c + 7) with ((7 - (r - 1)) * 8 + (c - 1)) by lia.
    rewrite bget_flip_at, swap_colour_empty by lia. do 2 f_equal. lia.
  - destruct (Z.ltb_spec c 7); [| reflexivity]. cbn [andb].
    replace ((7 - r) * 8 + c + 9) with ((7 - (r - 1)) * 8 + (c + 1)) by lia.
    rewrite bget_flip_at, swap_colour_empty by lia. do 2 f_equal. lia.
Qed.

Lemma mobility_flip_white (board : list Z) (r c : Z) :
  0 <= r < 8 -> 0 <= c < 8 ->
  (if 7 - r >? 0
   then b2z ((c >? 0) && (bget (flip_board board) ((7 - r) * 8 + c - 9) =? EMPTY)) +
        b2z ((c <? 7) && (bget (flip_board board) ((7 - r) * 8 + c - 7) =? EMPTY))
   else 0)
  = (if r <? 7
     then b2z ((c >? 0) && (bget board (r * 8 + c + 7) =? EMPTY)) +
          b2z ((c <? 7) && (bget board (r * 8 + c + 9) =? EMPTY))
     else 0).
Proof.
  intros Hr Hc.
  destruct (Z.gtb_spec (7 - r) 0); destruct (Z.ltb_spec r 7); try lia.
  f_equal; f_equal.
  - destruct (Z.gtb_spec c 0); [| reflexivity]. cbn [andb].
    replace ((7 - r) * 8 + c - 9) with ((7 - (r + 1)) * 8 + (c - 1)) by lia.
    rewrite bget_flip_at, swap_colour_empty by lia. do 2 f_equal. lia.
  - destruct (Z.ltb_spec c 7); [| reflexivity]. cbn [andb].
    replace ((7 - r) * 8 + c - 7) with ((7 - (r + 1)) * 8 + (c + 1)) by lia.
    rewrite bget_flip_at, swap_colour_empty by lia. do 2 f_equal. lia.
Qed.

(** What a square adds to the totals on the flipped board is what the
    facing square adds on the board, with the sides exchanged. *)
Lemma tally_square_flip (board : list Z) (i : Z) :
  In i (range 0 64) ->
  tally_square (flip_board board) (mkTally 0 0 0 0 0 0 0 0) (mirror i)
  = swap_tally (tally_square board (mkTally 0 0 0 0 0 0 0 0) i).
Proof.
  intros Hi. pose proof (square_tables i Hi) as H.
  assert (mirror i = (7 - tab R i) * 8 + tab C i) as ->.
  { destruct H as (Hr & Hc & Heq & _).
    transitivity (mirror (tab R i * 8 + tab C i)); [f_equal; exact Heq |].
    apply mirror_square; assumption. }
  unfold tally_square. cbv zeta.
  destruct H as (Hr & Hc & Heq & -> & -> & -> & ->).
  revert Hr Hc Heq. generalize (tab R i) (tab C i). intros r c Hr Hc Heq.
  rewrite (bget_flip_at board r c Hr Hc).
  rewrite (mobility_flip_black board r c Hr Hc), (mobility_flip_white board r c Hr Hc).
  rewrite <- Heq.
  set (p := bget board i).
  set (up := if r >? 0 then _ else 0). set (down := if r <? 7 then _ else 0).
  unfold swap_colour, swap_tally, EMPTY, GHOST, BLACK_MAN, WHITE_MAN, BLACK_KING, WHITE_KING,
    VAL_PAWN, VAL_KING, RUNAWAY_BONUS.
  destruct (Z.eqb_spec p 1) as [-> | H1].
  { cbn. f_equal. destruct (Z.leb_spec (7 - r) 2); destruct (Z.geb_spec r 5); lia. }
  destruct (Z.eqb_spec p 2) as [-> | H2].
  { cbn. f_equal. destruct (Z.geb_spec (7 - r) 5); destruct (Z.leb_spec r 2); lia. }
  destruct (Z.eqb_spec p 3) as [-> | H3]; [reflexivity |].
  destruct (Z.eqb_spec p 4) as [-> | H4]; [reflexivity |].
  destruct (Z.eqb_spec p 0); [reflexivity |]. destruct (Z.eqb_spec p 7); [reflexivity |].
  cbn [orb].
  destruct (Z.eqb_spec p 2); [lia |]. destruct (Z.eqb_spec p 1); [lia |].
  destruct (Z.eqb_spec p 4); [lia |]. destruct (Z.eqb_spec p 3); [lia |]. reflexivity.
Qed.

Lemma tally_ext (a b : Tally) :
  w_score a = w_score b -> b_score a = b_score b -> w_men a = w_men b -> b_men a = b_men b ->
  w_kings a = w_kings b -> b_kings a = b_kings b -> w_moves a = w_moves b ->
  b_moves a = b_moves b -> a = b.
Proof. destruct a, b. simpl. intros; subst; reflexivity. Qed.

Lemma tally_square_add (board : list Z) (t : Tally) (i : Z) :
  tally_square board t i = tally_add t (tally_square board (mkTally 0 0 0 0 0 0 0 0) i).
Proof.
  unfold tally_square. cbv zeta.
  destruct (_ || _); [destruct t; unfold tally_add; simpl; f_equal; lia |].
  destruct (_ =? WHITE_MAN); [unfold tally_add; simpl; f_equal; lia |].
  destruct (_ =? BLACK_MAN); [unfold tally_add; simpl; f_equal; lia |].
  destruct (_ =? WHITE_KING); [unfold tally_add; simpl; f_equal; lia |].
  destruct (_ =? BLACK_KING); [unfold tally_add; simpl; f_equal; lia |].
  destruct t; unfold tally_add; simpl; f_equal; lia.
Qed.

Lemma tally_add_assoc (a b c : Tally) :
  tally_add (tally_add a b) c = tally_add a (tally_add b c).
Proof. unfold tally_add. simpl. f_equal; lia. Qed.

Lemma tally_add_zero_l (t : Tally) : tally_add (mkTally 0 0 0 0 0 0 0 0) t = t.
Proof. destruct t. reflexivity. Qed.

Lemma tally_fold_sum (board : list Z) (l : list Z) :
  forall t,
  fold_left (tally_square board) l t
  = tally_add t (tally_sum (tally_square board (mkTally 0 0 0 0 0 0 0 0)) l).
Proof.
  induction l as [| i l IH]; intros t; cbn [fold_left tally_sum foldr].
  - destruct t; unfold tally_add; simpl; f_equal; lia.
  - rewrite IH, (tally_square_add board t i), tally_add_assoc. reflexivity.
Qed.

Lemma tally_sum_ext (f g : Z -> Tally) (l : list Z) :
  (forall i, In i l -> f i = g i) -> tally_sum f l = tally_sum g l.
Proof.
  induction l as [| i l IH]; intros Hfg; cbn [tally_sum foldr]; [reflexivity |].
  rewrite (Hfg i) by (left; reflexivity). f_equal. apply IH.
  intros j Hj. apply Hfg. right. exact Hj.
Qed.

Lemma tally_sum_swap (f : Z -> Tally) (l : list Z) :
  tally_sum (fun i => swap_tally (f i)) l = swap_tally (tally_sum f l).
Proof.
  induction l as [| i l IH]; cbn [tally_sum foldr]; [reflexivity |].
  fold (tally_sum (fun i => swap_tally (f i)) l). fold (tally_sum f l). rewrite IH. reflexivity.
Qed.

(** Summing over the squares in mirrored order gives the same totals. *)
Lemma tally_sum_mirror (f : Z -> Tally) :
  tally_sum f (range 0 64) = tally_sum (fun i => f (mirror i)) (range 0 64).
Proof.
  assert (forall l, tally_sum (fun i => f (mirror i)) l = tally_sum f (map mirror l)) as ->.
  { induction l as [| i l IH]; cbn [tally_sum foldr map]; [reflexivity |].
    f_equal. exact IH. }
  let l := eval vm_compute in (map mirror (range 0 64)) in
  change (map mirror (range 0 64)) with l.
  let l := eval vm_compute in (range 0 64) in change (range 0 64) with l.
  unfold tally_sum. cbn [foldr].
  apply tally_ext;
    cbn [tally_add w_score b_score w_men b_men w_kings b_kings w_moves b_moves]; lia.
Qed.

Lemma tally_flip (board : list Z) :
  fold_left (tally_square (flip_board board)) (range 0 64) (mkTally 0 0 0 0 0 0 0 0)
  = swap_tally (fold_left (tally_square board) (range 0 64) (mkTally 0 0 0 0 0 0 0 0)).
Proof.
  rewrite !tally_fold_sum.
  rewrite (tally_sum_mirror (tally_square (flip_board board) _)).
  rewrite (tally_sum_ext _ (fun i => swap_tally (tally_square board (mkTally 0 0 0 0 0 0 0 0) i)))
    by (intros i Hi; apply tally_square_flip, Hi).
  rewrite tally_sum_swap, !tally_add_zero_l. reflexivity.
Qed.

Lemma is_valid_row (r x : Z) : 0 <= r < 8 -> is_valid r x = (0 <=? x) && (x <? 8).
Proof.
  intros Hr. unfold is_valid.
  destruct (Z.leb_spec 0 r); [| lia]. destruct (Z.ltb_spec r 8); [| lia]. reflexivity.
Qed.

Lemma tab_C_square (r c : Z) : 0 <= r < 8 -> 0 <= c < 8 -> tab C (r * 8 + c) = c.
Proof.
  intros Hr Hc. destruct (square_tables (r * 8 + c)) as (HR & HC & Heq & _);
    [apply in_range; lia | lia].
Qed.

Lemma swap_colour_man (p : Z) :
  (swap_colour p =? WHITE_MAN) = (p =? BLACK_MAN) /\
  (swap_colour p =? BLACK_MAN) = (p =? WHITE_MAN).
Proof.
  unfold swap_colour, BLACK_MAN, WHITE_MAN, BLACK_KING, WHITE_KING.
  destruct (Z.eqb_spec p 1) as [-> | ?]; [split; reflexivity |].
  destruct (Z.eqb_spec p 2) as [-> | ?]; [split; reflexivity |].
  destruct (Z.eqb_spec p 3) as [-> | ?]; [split; reflexivity |].
  destruct (Z.eqb_spec p 4) as [-> | ?]; [split; reflexivity |].
  destruct (Z.eqb_spec p 2); [lia |]. destruct (Z.eqb_spec p 1); [lia |]. split; reflexivity.
Qed.

Lemma danger_white_flip (board : list Z) (x c : Z) :
  0 <= c < 8 -> danger_white (flip_board board) x (8 + c) = danger_black board x (48 + c).
Proof.
  intros Hc. unfold danger_white, danger_black. cbv zeta.
  replace (8 + c) with ((7 - 6) * 8 + c) by lia. replace (48 + c) with (6 * 8 + c) by lia.
  rewrite (bget_flip_at board 6 c), !tab_C_square, (proj1 (swap_colour_man _)) by lia.
  destruct (bget board (6 * 8 + c) =? BLACK_MAN); [| reflexivity].
  rewrite !(is_valid_row 0), !(is_valid_row 7) by lia.
  assert (forall d, (0 <=? c + d) && (c + d <? 8) = true ->
            bget (flip_board board) ((7 - 6) * 8 + c - 8 + d) = swap_colour (bget board (6 * 8 + c + 8 + d)))
    as Hnext.
  { intros d Hd. apply andb_true_iff in Hd as [H1 H2]. apply Z.leb_le in H1. apply Z.ltb_lt in H2.
    replace ((7 - 6) * 8 + c - 8 + d) with ((7 - 7) * 8 + (c + d)) by lia.
    rewrite bget_flip_at by lia. do 2 f_equal. lia. }
  replace (c - 1) with (c + (-1)) by lia.
  replace ((7 - 6) * 8 + c - 9) with ((7 - 6) * 8 + c - 8 + (-1)) by lia.
  replace ((7 - 6) * 8 + c - 7) with ((7 - 6) * 8 + c - 8 + 1) by lia.
  replace (6 * 8 + c + 7) with (6 * 8 + c + 8 + (-1)) by lia.
  replace (6 * 8 + c + 9) with (6 * 8 + c + 8 + 1) by lia.
  destruct ((0 <=? c + -1) && (c + -1 <? 8)) eqn:Hl;
    destruct ((0 <=? c + 1) && (c + 1 <? 8)) eqn:Hr;
    rewrite ?(Hnext _ Hl), ?(Hnext _ Hr), ?swap_colour_empty; reflexivity.
Qed.

Lemma danger_black_flip (board : list Z) (x c : Z) :
  0 <= c < 8 -> danger_black (flip_board board) x (48 + c) = danger_white board x (8 + c).
Proof.
  intros Hc. unfold danger_white, danger_black. cbv zeta.
  replace (48 + c) with ((7 - 1) * 8 + c) by lia. replace (8 + c) with (1 * 8 + c) by lia.
  rewrite (bget_flip_at board 1 c), !tab_C_square, (proj2 (swap_colour_man _)) by lia.
  destruct (bget board (1 * 8 + c) =? WHITE_MAN); [| reflexivity].
  rewrite !(is_valid_row 0), !(is_valid_row 7) by lia.
  assert (forall d, (0 <=? c + d) && (c + d <? 8) = true ->
            bget (flip_board board) ((7 - 1) * 8 + c + 8 + d) = swap_colour (bget board (1 * 8 + c - 8 + d)))
    as Hnext.
  { intros d Hd. apply andb_true_iff in Hd as [H1 H2]. apply Z.leb_le in H1. apply Z.ltb_lt in H2.
    replace ((7 - 1) * 8 + c + 8 + d) with ((7 - 0) * 8 + (c + d)) by lia.
    rewrite bget_flip_at by lia. do 2 f_equal. lia. }
  replace (c - 1) with (c + (-1)) by lia.
  replace ((7 - 1) * 8 + c + 7) with ((7 - 1) * 8 + c + 8 + (-1)) by lia.
  replace ((7 - 1) * 8 + c + 9) with ((7 - 1) * 8 + c + 8 + 1) by lia.
  replace (1 * 8 + c - 9) with (1 * 8 + c - 8 + (-1)) by lia.
  replace (1 * 8 + c - 7) with (1 * 8 + c - 8 + 1) by lia.
  destruct ((0 <=? c + -1) && (c + -1 <? 8)) eqn:Hl;
    destruct ((0 <=? c + 1) && (c + 1 <? 8)) eqn:Hr;
    rewrite ?(Hnext _ Hl), ?(Hnext _ Hr), ?swap_colour_empty; reflexivity.
Qed.

Lemma danger_folds_flip (board : list Z) (x : Z) :
  fold_left (danger_white (flip_board board)) (range 8 8) x
  = fold_left (danger_black board) (range 48 8) x /\
  fold_left (danger_black (flip_board board)) (range 48 8) x
  = fold_left (danger_white board) (range 8 8) x.
Proof.
  change (range 8 8) with [8 + 0; 8 + 1; 8 + 2; 8 + 3; 8 + 4; 8 + 5; 8 + 6; 8 + 7].
  change (range 48 8) with [48 + 0; 48 + 1; 48 + 2; 48 + 3; 48 + 4; 48 + 5; 48 + 6; 48 + 7].
  cbn [fold_left]. rewrite !danger_white_flip, !danger_black_flip by lia. split; reflexivity.
Qed.

(** The evaluation does not favour a colour: on the position with the
    rows reversed and the colours exchanged, the same side to move gets
    the opposite score. *)
Theorem evaluate_colour_symmetric (board : list Z) (player : Z) :
  evaluate (flip_board board) player = - evaluate board player.
Proof.
  unfold evaluate. cbv zeta. rewrite tally_flip.
  set (t := fold_left (tally_square board) (range 0 64) (mkTally 0 0 0 0 0 0 0 0)).
  cbn [swap_tally w_score b_score w_men b_men w_kings b_kings w_moves b_moves].
  rewrite (proj1 (danger_folds_flip board _)), (proj2 (danger_folds_flip board _)).
  set (ws := fold_left (danger_black board) (range 48 8) (w_score t)).
  set (bs := fold_left (danger_white board) (range 8 8) (b_score t)).
  set (qw := 2500 ÷ (b_men t + b_kings t + 1)). set (qb := 2500 ÷ (w_men t + w_kings t + 1)).
  destruct (w_men t + w_kings t >? b_men t + b_kings t);
    destruct (b_men t + b_kings t >? w_men t + w_kings t);
    destruct (_ || _); lia.
Qed.

(** * The generator, the board and the search together *)

Lemma apply_move_length (board : list Z) (m : Move) (player captured : Z)
    (board' : list Z) (captured' : Z) :
  apply_move board m player captured = Some (board', captured') ->
  length board' = length board.
Proof.
  unfold apply_move. cbv zeta.
  match goal with
  | |- mbind _ ?x = _ -> _ => destruct x as [[b1 c1'] |] eqn:Hwalk; [| discriminate]
  end.
  cbn [mbind option_bind]. intros Happly. apply some_pair_fst in Happly. subst board'.
  assert (length b1 = length board) as Hb1.
  { destruct (_ || _).
    - destruct (apply_steps_length _ _ _ _ _ Hwalk) as (b0 & c0 & Heq & Hl).
      apply some_pair_fst in Heq. subst b0. rewrite Hl, !bset_length. reflexivity.
    - apply some_pair_fst in Hwalk. subst b1. rewrite !bset_length. reflexivity. }
  destruct (_ && _); destruct (_ && _); rewrite ?bset_length; exact Hb1.
Qed.

(** Every move the generator returns can be applied: on any board, the
    walk of [apply_move] along each of its steps reaches the step's end
    row within the 8 rows of the board, and the board keeps its size. *)
Theorem generated_move_applies (board : list Z) (player j : Z)
    (onto : list Z) (mover captured : Z) :
  0 <= j < ml_count (generate_moves board player) ->
  exists board' captured',
    apply_move onto (move_at (generate_moves board player) j) mover captured
    = Some (board', captured') /\
    length board' = length onto.
Proof.
  intros Hj.
  destruct (apply_move_total onto (move_at (generate_moves board player) j) mover captured)
    as [[board' captured'] Happly]; [apply generate_moves_walkable, Hj |].
  exists board', captured'. split; [exact Happly |].
  exact (apply_move_length _ _ _ _ _ _ Happly).
Qed.

Section Returns.
Variable zobrist_table : Z -> Z -> Z.
Variable zobrist_black_move : Z.
Variable expired : Z -> bool.

(** [alpha_beta] returns from a position whose men, with the depth
    and the ply of the call, leave the search inside [killer_moves]:
    when [ply + depth + men_on board + 12 < MAX_PLY], every node that
    orders its moves does so at a ply below [MAX_PLY], and the recursion
    is never deeper than [need_fuel depth ply] calls.  On return the
    search has counted at least one node, it has not cleared the stop
    flag nor touched the allocation flag, and a set stop flag comes with
    the value 0. *)
Theorem alpha_beta_returns (fuel : nat) (board : list Z) (depth alpha beta player ply : Z)
    (do_null : bool) (st : SearchState) :
  (need_fuel depth ply <= fuel)%nat ->
  0 <= ply -> ply + depth + men_on board + 12 < MAX_PLY ->
  exists v st',
    alpha_beta zobrist_table zobrist_black_move expired fuel
      board depth alpha beta player ply do_null st = Some (v, st') /\
    nodes_visited st < nodes_visited st' /\
    (stop_search st = true -> stop_search st' = true) /\
    (stop_search st' = true -> v = 0) /\
    tt_allocated st' = tt_allocated st.
Proof.
  intros Hfuel Hply Hin.
  destruct (alpha_beta_total zobrist_table zobrist_black_move expired fuel
              board depth alpha beta player ply do_null st Hfuel (conj Hply Hin))
    as [[v st'] Hrun].
  exists v, st'. split; [exact Hrun |].
  exact (alpha_beta_keeps_globals zobrist_table zobrist_black_move expired fuel
           _ _ _ _ _ _ _ _ _ _ Hrun).
Qed.

(** [get_best_move] returns, whatever the clock, from a position and a
    depth cap with [max_depth + men_on board + 12 < MAX_PLY], which
    keeps the search inside [killer_moves]; and when the position has a
    move, the steps and step count it writes to the result are those of
    one of the moves [generate_moves] lists. *)
Theorem get_best_move_answers_generated_move (fuel : nat) (board : list Z)
    (player max_depth : Z) (result : MoveResult) (st : SearchState) :
  (need_fuel max_depth 1 <= fuel)%nat ->
  max_depth + men_on board + 12 < MAX_PLY ->
  0 < ml_count (generate_moves board player) ->
  exists res st' j,
    get_best_move zobrist_table zobrist_black_move expired fuel
      board player max_depth result st = Some (res, st') /\
    0 <= j < ml_count (generate_moves board player) /\
    res_steps res = m_steps (move_at (generate_moves board player) j) /\
    res_count res = m_count (move_at (generate_moves board player) j).
Proof.
  intros Hfuel Hin Hpos.
  destruct (get_best_move_total zobrist_table zobrist_black_move expired fuel
              board player max_depth result st Hfuel Hin) as [[res st'] Hrun].
  destruct (get_best_move_from_list zobrist_table zobrist_black_move expired fuel
              board player max_depth result st res st' Hrun Hpos) as (j & Hj & Hsteps & Hcount).
  exists res, st', j. split; [exact Hrun |]. split; [exact Hj |]. split; assumption.
Qed.
End Returns.

(** * Witnesses *)

Lemma alpha_beta_stopped_witness :
  stop_search (with_stop initial_state true) = true /\
  alpha_beta demo_zobrist 12345 (fun _ => false) 1 demo_board 4 (- INF) INF WHITE_MAN 1 true
    (with_stop initial_state true)
  = Some (0, with_nodes (with_stop initial_state true) 1).
Proof.
  split; [reflexivity |].
  exact (alpha_beta_stopped demo_zobrist 12345 (fun _ => false) 0 demo_board 4 (- INF) INF
           WHITE_MAN 1 true (with_stop initial_state true) eq_refl).
Defined.

Lemma get_best_move_no_moves_witness :
  ml_count (generate_moves blocked_board BLACK_MAN) = 0 /\
  get_best_move demo_zobrist 12345 (fun _ => false) 0 blocked_board BLACK_MAN 6
    (mkResult [] 3 3 3 3) initial_state
  = Some (mkResult [] 0 (- MATE) 3 3, init_memory initial_state).
Proof.
  split; [vm_compute; reflexivity |].
  apply (get_best_move_no_moves demo_zobrist 12345 (fun _ => false) 0 blocked_board BLACK_MAN 6).
  vm_compute. reflexivity.
Defined.

Lemma get_best_move_forced_witness :
  ml_count (generate_moves lone_man_board WHITE_MAN) = 1 /\
  option_map (fun out => (take 1 (res_steps (fst out)), res_count (fst out), res_score (fst out),
                          res_depth (fst out), res_nodes (fst out)))
    (get_best_move demo_zobrist 12345 (fun _ => false) 0 lone_man_board WHITE_MAN 6
       (mkResult [] 3 3 3 3) initial_state)
  = Some ([mkStep 5 0 4 1], 1, 0, 1, 0).
Proof.
  split; [vm_compute; reflexivity |].
  rewrite (get_best_move_forced demo_zobrist 12345 (fun _ => false) 0 lone_man_board WHITE_MAN 6
             (mkResult [] 3 3 3 3) initial_state); [| vm_compute; reflexivity].
  vm_compute. reflexivity.
Defined.


Lemma history_read_at_side_zero_witness :
  (exists m st',
     search_moves (alpha_beta demo_zobrist 12345 (fun _ => false) 2) 4 demo_board 1 (-1999999)
       BLACK_MAN 1 false zero_move 0 (generate_moves demo_board BLACK_MAN) (-2000000) (- INF)
       (move_at (generate_moves demo_board BLACK_MAN) 0) TT_ALPHA initial_state
     = Some (Finished 14 m TT_BETA st') /\
     history_at st' 1 17 24 = 1 /\
     (forall f t, history_at st' 0 f t = 0)) /\
  (exists v st',
     alpha_beta demo_zobrist 12345 (fun _ => false) 20 demo_board 2 (- INF) INF WHITE_MAN 0 true
       initial_state = Some (v, st') /\
     map_to_list (history_table st') = [(1, 17, 26, 1)]).
Proof.
  split.
  - let p := eval vm_compute in
        (pick_move initial_state (generate_moves demo_board BLACK_MAN) 0 zero_move 1) in
    match p with Some ?l => pose (picked := l) end.
    let a := eval vm_compute in (apply_move demo_board (move_at picked 0) BLACK_MAN 0) in
    match a with Some (?b, ?c) => pose (tb := b); pose (cap := c) end.
    let r := eval vm_compute in
        (pvs_child (alpha_beta demo_zobrist 12345 (fun _ => false) 2) tb 0 1 (-2000000)
           (-1999999) (enemy_of BLACK_MAN) 1 0 0 initial_state) in
    match r with Some (_, ?x) => pose (st1 := x) end.
    pose proof (proj2 history_read_at_side_zero
                  (alpha_beta demo_zobrist 12345 (fun _ => false) 2) 3%nat demo_board 1
                  (-1999999) BLACK_MAN 1 false zero_move 0 (generate_moves demo_board BLACK_MAN)
                  (-2000000) (- INF) (move_at (generate_moves demo_board BLACK_MAN) 0) TT_ALPHA
                  initial_state picked tb cap 14 st1) as Hcut.
    cbv zeta in Hcut.
    specialize (Hcut ltac:(unfold MAX_PLY; lia)).
    match type of Hcut with ?A -> _ => assert A as Hpick by (vm_compute; reflexivity) end.
    specialize (Hcut Hpick).
    match type of Hcut with ?A -> _ => assert A as Happ by (vm_compute; reflexivity) end.
    specialize (Hcut Happ).
    match type of Hcut with ?A -> _ => assert A as Hchild by (vm_compute; reflexivity) end.
    specialize (Hcut Hchild eq_refl ltac:(unfold INF; lia) ltac:(lia) ltac:(lia) eq_refl).
    match type of Hcut with ?A -> _ => assert A as Hone by (vm_compute; reflexivity) end.
    destruct (Hcut Hone) as (st' & Hrun & Hadd & _ & Hzero).
    exists (move_at picked 0), st'. split; [exact Hrun |]. split.
    + match type of Hadd with
      | history_at _ ?s ?f ?t = _ =>
        assert (s = 1) as Hs by (vm_compute; reflexivity);
        assert (f = 17) as Hf by (vm_compute; reflexivity);
        assert (t = 24) as Ht by (vm_compute; reflexivity);
        rewrite Hs, Hf, Ht in Hadd
      end.
      rewrite Hadd. vm_compute. reflexivity.
    + intros f t. rewrite (Hzero eq_refl f t). reflexivity.
  - let r := eval vm_compute in
        (alpha_beta demo_zobrist 12345 (fun _ => false) 20 demo_board 2 (- INF) INF WHITE_MAN 0
           true initial_state) in
    match r with Some (?v, ?s) => exists v, s end.
    split; vm_compute; reflexivity.
Defined.

Lemma tt_save_owns_one_slot_witness :
  tt_probe (tt_save ∅ 5 40 3 TT_EXACT (single_step (mkStep 5 0 4 1)))
    (5 + TT_SIZE) 1 (- INF) INF zero_move = (None, zero_move).
Proof.
  apply (tt_save_owns_one_slot ∅ 5 40 3 TT_EXACT (single_step (mkStep 5 0 4 1))
           (5 + TT_SIZE) 1 (- INF) INF zero_move).
  - vm_compute. discriminate.
  - vm_compute. reflexivity.
Defined.

Lemma tt_store_probe_round_trip_witness :
  let probe := tt_probe (tt_save ∅ 5 40 3 TT_EXACT (single_step (mkStep 5 0 4 1)))
                 5 2 (- INF) INF zero_move in
  snd probe = single_step (mkStep 5 0 4 1) /\ fst probe = Some 40.
Proof.
  destruct (tt_store_probe_round_trip ∅ 5 40 3 TT_EXACT (single_step (mkStep 5 0 4 1))
              2 (- INF) INF zero_move) as (Hmove & _ & Hexact & _).
  - left. vm_compute. discriminate.
  - split; [exact Hmove | exact (Hexact ltac:(lia) eq_refl)].
Defined.

Lemma capture_sets_capture_forced_witness :
  0 < ml_count (generate_moves twin_board WHITE_MAN) /\
  (ml_count (generate_moves twin_board WHITE_MAN) >? 0)
  && is_capture_move (move_at (generate_moves twin_board WHITE_MAN) 0) = true.
Proof.
  destruct (capture_sets_capture_forced twin_board WHITE_MAN) as (Hpos & _ & Hforced).
  - vm_compute. discriminate.
  - split; [exact Hpos | exact Hforced].
Defined.

Lemma quiet_move_moves_one_piece_witness :
  exists board',
    apply_move lone_man_board (single_step (mkStep 5 0 4 1)) WHITE_MAN 0 = Some (board', 0) /\
    bget board' 40 = EMPTY /\ bget board' 33 = WHITE_MAN.
Proof.
  destruct (quiet_move_moves_one_piece lone_man_board WHITE_MAN (single_step (mkStep 5 0 4 1))
              WHITE_MAN 0) as (board' & Happly & _ & Hfrom & Hto & _).
  - reflexivity.
  - vm_compute. reflexivity.
  - vm_compute. left. reflexivity.
  - exists board'. split; [exact Happly |]. split; [exact Hfrom | exact Hto].
Defined.

Lemma single_capture_takes_one_enemy_witness :
  exists over board',
    is_enemy_piece WHITE_MAN (bget jump_demo_board over) = true /\
    apply_move jump_demo_board (move_at (generate_moves jump_demo_board WHITE_MAN) 0) WHITE_MAN 0
    = Some (board', bget jump_demo_board over) /\
    bget board' over = EMPTY.
Proof.
  destruct (single_capture_takes_one_enemy jump_demo_board WHITE_MAN
              (move_at (generate_moves jump_demo_board WHITE_MAN) 0) WHITE_MAN 0)
    as (over & board' & _ & Henemy & Happly & _ & Hover & _).
  - reflexivity.
  - intros i Hi.
    apply (proj1 (forallb_forall (fun i => piece_code (bget jump_demo_board i)) (range 0 64))
             ltac:(vm_compute; reflexivity)), in_range. lia.
  - vm_compute. discriminate.
  - vm_compute. left. reflexivity.
  - vm_compute. reflexivity.
  - exists over, board'. split; [exact Henemy |]. split; [exact Happly | exact Hover].
Defined.

Lemma available_jump_forces_capture_witness :
  0 < ml_count (generate_moves jump_demo_board WHITE_MAN) /\
  is_capture_move (move_at (generate_moves jump_demo_board WHITE_MAN) 0) = true.
Proof.
  destruct (available_jump_forces_capture jump_demo_board WHITE_MAN 5 2 (-1) 1 1)
    as [Hpos Hall].
  - reflexivity.
  - vm_compute. right. left. reflexivity.
  - lia.
  - left. split; reflexivity.
  - intros k Hk. lia.
  - reflexivity.
  - reflexivity.
  - reflexivity.
  - split; [exact Hpos |].
    apply Hall, move_at_in; [apply generate_moves_cases | exact (conj (Z.le_refl 0) Hpos)].
Defined.

Lemma man_chain_takes_the_jumped_pieces_witness :
  exists board' captured',
    apply_move twin_board (move_at (generate_moves twin_board WHITE_MAN) 0) WHITE_MAN 0
    = Some (board', captured') /\
    bget board' 42 = WHITE_MAN /\
    bget board' (mid_square (step_at (move_at (generate_moves twin_board WHITE_MAN) 0) 3)) = EMPTY.
Proof.
  destruct (man_chain_takes_the_jumped_pieces twin_board WHITE_MAN
              (move_at (generate_moves twin_board WHITE_MAN) 0) WHITE_MAN 0)
    as (board' & captured' & Happly & Hjumped & Hto & _).
  - reflexivity.
  - vm_compute. discriminate.
  - apply move_at_in; [apply generate_moves_cases |].
    vm_compute. split; [discriminate | reflexivity].
  - vm_compute. reflexivity.
  - exists board', captured'. split; [exact Happly |]. split; [exact Hto |].
    apply (Hjumped 3). vm_compute. split; [discriminate | reflexivity].
Defined.

Lemma generated_move_applies_witness :
  exists board' captured',
    apply_move crossing_board (move_at (generate_moves twin_board WHITE_MAN) 1) WHITE_MAN 0
    = Some (board', captured') /\
    length board' = length crossing_board.
Proof.
  apply (generated_move_applies twin_board WHITE_MAN 1 crossing_board WHITE_MAN 0).
  vm_compute. split; [discriminate | reflexivity].
Defined.

Lemma alpha_beta_returns_witness :
  exists v st',
    alpha_beta demo_zobrist 12345 (fun _ => false) 80 demo_board 2 (- INF) INF WHITE_MAN 0 true
      demo_state = Some (v, st') /\
    nodes_visited demo_state < nodes_visited st'.
Proof.
  destruct (alpha_beta_returns demo_zobrist 12345 (fun _ => false) 80 demo_board 2 (- INF) INF
              WHITE_MAN 0 true demo_state) as (v & st' & Hrun & Hnodes & _).
  - vm_compute. lia.
  - lia.
  - vm_compute. reflexivity.
  - exists v, st'. split; [exact Hrun | exact Hnodes].
Defined.

Lemma get_best_move_answers_generated_move_witness :
  exists res st' j,
    get_best_move demo_zobrist 12345 (fun _ => false) 80 demo_board WHITE_MAN 2
      (mkResult [] 0 0 0 0) initial_state = Some (res, st') /\
    0 <= j < ml_count (generate_moves demo_board WHITE_MAN) /\
    res_steps res = m_steps (move_at (generate_moves demo_board WHITE_MAN) j).
Proof.
  destruct (get_best_move_answers_generated_move demo_zobrist 12345 (fun _ => false) 80
              demo_board WHITE_MAN 2 (mkResult [] 0 0 0 0) initial_state)
    as (res & st' & j & Hrun & Hj & Hsteps & _).
  - vm_compute. lia.
  - vm_compute. reflexivity.
  - vm_compute. reflexivity.
  - exists res, st', j. split; [exact Hrun |]. split; [exact Hj | exact Hsteps].
Defined.

Lemma compute_hash_ignores_ghosts_witness :
  compute_hash demo_zobrist 12345 (bset demo_board 27 GHOST) WHITE_MAN
  = compute_hash demo_zobrist 12345 demo_board WHITE_KING.
Proof.
  apply compute_hash_ignores_ghosts; [| reflexivity].
  intros i Hi.
  assert ((bget (bset demo_board 27 GHOST) i =? bget demo_board i)
          || ((bget (bset demo_board 27 GHOST) i =? GHOST) && (bget demo_board i =? EMPTY))
          = true) as Hsq.
  { apply (proj1 (forallb_forall
                    (fun i => (bget (bset demo_board 27 GHOST) i =? bget demo_board i)
                              || ((bget (bset demo_board 27 GHOST) i =? GHOST)
                                  && (bget demo_board i =? EMPTY)))
                    (range 0 64)) ltac:(vm_compute; reflexivity)), in_range. lia. }
  apply orb_true_iff in Hsq as [Hsame | Hghost].
  - left. apply Z.eqb_eq, Hsame.
  - right. apply andb_true_iff in Hghost as [Hg He].
    split; [right; apply Z.eqb_eq, Hg | left; apply Z.eqb_eq, He].
Defined.

Lemma compute_hash_one_square_witness :
  compute_hash demo_zobrist 12345 (bset demo_board 42 WHITE_KING) BLACK_MAN
  = Z.lxor (Z.lxor (compute_hash demo_zobrist 12345 demo_board BLACK_MAN)
              (square_key demo_zobrist 42 (bget demo_board 42)))
      (square_key demo_zobrist 42 WHITE_KING).
Proof.
  apply compute_hash_one_square; [reflexivity | lia].
Defined.

Lemma generated_moves_are_paths_witness :
  1 <= m_count (move_at (generate_moves twin_board WHITE_MAN) 0) <= 12 /\
  linked (move_at (generate_moves twin_board WHITE_MAN) 0).
Proof.
  destruct (generated_moves_are_paths twin_board WHITE_MAN
              (move_at (generate_moves twin_board WHITE_MAN) 0)) as (Hcount & _ & _ & Hlinked).
  - apply move_at_in; [apply generate_moves_cases |].
    vm_compute. split; [discriminate | reflexivity].
  - split; [exact Hcount | exact Hlinked].
Defined.

Lemma pick_move_selects_best_witness :
  exists picked b,
    pick_move initial_state (generate_moves demo_board WHITE_MAN) 0 zero_move 0 = Some picked /\
    0 <= b < ml_count (generate_moves demo_board WHITE_MAN) /\
    move_at picked 0
    = set_score (move_at (generate_moves demo_board WHITE_MAN) b)
        (default 0 (score_move_ordering initial_state
                      (move_at (generate_moves demo_board WHITE_MAN) b) zero_move 0)).
Proof.
  destruct (pick_move_selects_best initial_state (generate_moves demo_board WHITE_MAN) 0
              zero_move 0
              (fun i => default 0 (score_move_ordering initial_state
                                     (move_at (generate_moves demo_board WHITE_MAN) i)
                                     zero_move 0)))
    as (picked & b & Hpick & Hb & _ & _ & _ & Hhead & _).
  - apply generate_moves_cases.
  - vm_compute. split; [discriminate | reflexivity].
  - intros i Hi.
    destruct (score_move_ordering_defined initial_state
                (move_at (generate_moves demo_board WHITE_MAN) i) zero_move 0 eq_refl)
      as [s Hs].
    rewrite Hs. reflexivity.
  - intros i Hi.
    apply Z.ltb_lt.
    apply (proj1 (forallb_forall
                    (fun i => -2000000000 <?
                              default 0 (score_move_ordering initial_state
                                           (move_at (generate_moves demo_board WHITE_MAN) i)
                                           zero_move 0))
                    (range 0 (Z.to_nat (ml_count (generate_moves demo_board WHITE_MAN)))))
             ltac:(vm_compute; reflexivity)), in_range. lia.
  - exists picked, b. split; [exact Hpick |]. split; [exact Hb | exact Hhead].
Defined.

Lemma promotion_move_crowns_witness :
  exists board',
    apply_move (board_of [(1,4,WHITE_MAN)]) (single_step (mkStep 1 4 0 3)) WHITE_MAN 0
    = Some (board', 0) /\
    bget board' 3 = WHITE_KING.
Proof.
  eexists. split; [vm_compute; reflexivity |].
  exact (promotion_move_crowns (board_of [(1,4,WHITE_MAN)]) (single_step (mkStep 1 4 0 3))
           WHITE_MAN 0 _ 0 eq_refl eq_refl eq_refl eq_refl).
Defined.

Lemma cutoff_move_becomes_killer_witness :
  exists m st',
    search_moves (alpha_beta demo_zobrist 12345 (fun _ => false) 2) 4 demo_board 1 (-1999999)
      BLACK_MAN 1 false zero_move 0 (generate_moves demo_board BLACK_MAN) (-2000000) (- INF)
      (move_at (generate_moves demo_board BLACK_MAN) 0) TT_ALPHA initial_state
    = Some (Finished 14 m TT_BETA st') /\
    killer_at st' 1 0 = Some m /\
    score_move_ordering st' m zero_move 1 = Some 900000.
Proof.
  let p := eval vm_compute in
      (pick_move initial_state (generate_moves demo_board BLACK_MAN) 0 zero_move 1) in
  match p with Some ?l => pose (picked := l) end.
  let a := eval vm_compute in (apply_move demo_board (move_at picked 0) BLACK_MAN 0) in
  match a with Some (?b, ?c) => pose (tb := b); pose (cap := c) end.
  let r := eval vm_compute in
      (pvs_child (alpha_beta demo_zobrist 12345 (fun _ => false) 2) tb 0 1 (-2000000)
         (-1999999) (enemy_of BLACK_MAN) 1 0 0 initial_state) in
  match r with Some (_, ?x) => pose (st1 := x) end.
  pose proof (cutoff_move_becomes_killer
                (alpha_beta demo_zobrist 12345 (fun _ => false) 2) 3%nat demo_board 1
                (-1999999) BLACK_MAN 1 false zero_move 0 (generate_moves demo_board BLACK_MAN)
                (-2000000) (- INF) (move_at (generate_moves demo_board BLACK_MAN) 0) TT_ALPHA
                initial_state picked tb cap 14 st1) as Hcut.
  cbv zeta in Hcut.
  specialize (Hcut ltac:(unfold MAX_PLY; lia)).
  match type of Hcut with ?A -> _ => assert A as Hpick by (vm_compute; reflexivity) end.
  specialize (Hcut Hpick).
  match type of Hcut with ?A -> _ => assert A as Happ by (vm_compute; reflexivity) end.
  specialize (Hcut Happ).
  match type of Hcut with ?A -> _ => assert A as Hchild by (vm_compute; reflexivity) end.
  destruct (Hcut Hchild eq_refl ltac:(unfold INF; lia) ltac:(lia) ltac:(lia))
    as (st' & Hrun & Hkill).
  assert (negb false && (m_count (move_at picked 0) =? 1) = true) as Hquiet
    by (vm_compute; reflexivity).
  rewrite Hquiet in Hkill. destruct Hkill as (Hfirst & _ & _ & Hscore).
  exists (move_at picked 0), st'. split; [exact Hrun |]. split; [exact Hfirst |].
  apply Hscore; vm_compute; reflexivity.
Defined.
